(** * Technical-indicator core: series utilities, indicator objects,
      signal detectors and the statistics aggregator.

    The development embeds the numeric core of the repository
    ([src/utils/helpers.py], [src/indicators/*.py],
    [src/analysis/statistics.py], [src/data/data_loader.py]).

    Numbers.  A pandas/numpy float is modelled by [fval]: a rational, one
    of the two infinities, or NaN.  Arithmetic is exact on the rationals;
    rounding, overflow and the sign of zero are abstracted away, while the
    IEEE rules that the program relies on (comparisons with NaN are false,
    [0/0 = NaN], [x/0 = +-inf]) are kept. *)

From Stdlib Require Import QArith ZArith List Bool Lia Lqa Sorted.
From stdpp Require Import gmap strings list fin_maps pretty sorting.

Close Scope Q_scope.

(** ** Floating values *)

Inductive fval : Type :=
| NaN
| PInf
| NInf
| Fin (q : Q).

Definition Qltb (x y : Q) : bool :=
  (Qnum x * Zpos (Qden y) <? Qnum y * Zpos (Qden x))%Z.

Definition Qsign (x : Q) : comparison := (Qnum x ?= 0)%Z.

Definition is_nan (a : fval) : bool :=
  match a with NaN => true | _ => false end.

(** [a < b]; false as soon as one side is NaN. *)
Definition fltb (a b : fval) : bool :=
  match a, b with
  | NaN, _ | _, NaN => false
  | NInf, NInf => false
  | NInf, _ => true
  | _, NInf => false
  | PInf, _ => false
  | Fin _, PInf => true
  | Fin x, Fin y => Qltb x y
  end.

(** [a <= b]; false as soon as one side is NaN. *)
Definition fleb (a b : fval) : bool :=
  match a, b with
  | NaN, _ | _, NaN => false
  | NInf, _ => true
  | _, PInf => true
  | PInf, _ => false
  | Fin _, NInf => false
  | Fin x, Fin y => Qle_bool x y
  end.

Definition fgtb (a b : fval) : bool := fltb b a.
Definition fgeb (a b : fval) : bool := fleb b a.

(** The order the comparisons decide, stated as a relation. *)
Inductive flt : fval -> fval -> Prop :=
| flt_fin x y : (x < y)%Q -> flt (Fin x) (Fin y)
| flt_ninf_fin y : flt NInf (Fin y)
| flt_ninf_pinf : flt NInf PInf
| flt_fin_pinf x : flt (Fin x) PInf.

Inductive fle : fval -> fval -> Prop :=
| fle_fin x y : (x <= y)%Q -> fle (Fin x) (Fin y)
| fle_ninf b : b <> NaN -> fle NInf b
| fle_pinf a : a <> NaN -> fle a PInf.

Definition fneg (a : fval) : fval :=
  match a with
  | NaN => NaN
  | PInf => NInf
  | NInf => PInf
  | Fin x => Fin (- x)%Q
  end.

Definition fadd (a b : fval) : fval :=
  match a, b with
  | NaN, _ | _, NaN => NaN
  | PInf, NInf | NInf, PInf => NaN
  | PInf, _ | _, PInf => PInf
  | NInf, _ | _, NInf => NInf
  | Fin x, Fin y => Fin (x + y)%Q
  end.

Definition fsub (a b : fval) : fval := fadd a (fneg b).

Definition inf_of_sign (c : comparison) : fval :=
  match c with Eq => NaN | Gt => PInf | Lt => NInf end.

Definition fsign (a : fval) : comparison :=
  match a with
  | NaN => Eq
  | PInf => Gt
  | NInf => Lt
  | Fin x => Qsign x
  end.

Definition mul_sign (c d : comparison) : comparison :=
  match c, d with
  | Eq, _ | _, Eq => Eq
  | Gt, Gt | Lt, Lt => Gt
  | _, _ => Lt
  end.

Definition fmul (a b : fval) : fval :=
  match a, b with
  | NaN, _ | _, NaN => NaN
  | Fin x, Fin y => Fin (x * y)%Q
  | _, _ => inf_of_sign (mul_sign (fsign a) (fsign b))
  end.

(** Float division as numpy performs it: no exception, [0/0] and
    [inf/inf] are NaN, a non-zero value over zero is an infinity. *)
Definition fdiv (a b : fval) : fval :=
  match a, b with
  | NaN, _ | _, NaN => NaN
  | Fin x, Fin y =>
      match Qsign y with
      | Eq => inf_of_sign (Qsign x)
      | _ => Fin (x / y)%Q
      end
  | Fin _, _ => Fin 0
  | _, Fin y =>
      match Qsign y with
      | Lt => fneg a
      | _ => a
      end
  | _, _ => NaN
  end.

(** ** Series *)

(** A pandas Series over the shared positional index. *)
Abbreviation Series := (list fval).

(** [Series.shift(1)]: every value moves one position down, the first
    position becomes NaN and the last value drops out. *)
Definition shift1 (s : Series) : Series :=
  match s with
  | [] => []
  | _ => NaN :: removelast s
  end.

Fixpoint zip_with_strict {A B C} (f : A -> B -> C) (l : list A) (m : list B)
  : option (list C) :=
  match l, m with
  | [], [] => Some []
  | a :: l', b :: m' =>
      match zip_with_strict f l' m' with
      | Some r => Some (f a b :: r)
      | None => None
      end
  | _, _ => None
  end.

(** Element-wise comparison of two Series; pandas refuses (raises) when
    the operands are not identically labelled, here: not of one length. *)
Definition series_cmp (op : fval -> fval -> bool) (a b : Series)
  : option (list bool) :=
  zip_with_strict op a b.

Definition series_and (a b : list bool) : option (list bool) :=
  zip_with_strict andb a b.

(** [identify_cross_signals] of [utils/helpers.py]. *)
Definition identify_cross_signals (fast_line slow_line : Series)
  : option (list bool * list bool) :=
  match series_cmp fgtb fast_line slow_line,
        series_cmp fleb (shift1 fast_line) (shift1 slow_line),
        series_cmp fltb fast_line slow_line,
        series_cmp fgeb (shift1 fast_line) (shift1 slow_line) with
  | Some up, Some was_below, Some down, Some was_above =>
      match series_and up was_below, series_and down was_above with
      | Some golden_cross, Some death_cross =>
          Some (golden_cross, death_cross)
      | _, _ => None
      end
  | _, _, _, _ => None
  end.

(** [count_signals]: the number of true entries. *)
Definition count_signals (signal_series : list bool) : nat :=
  length (List.filter (fun b : bool => b) signal_series).

(** An integer as a float, and Python's [sum] over floats. *)
Definition of_nat (n : nat) : fval := Fin (inject_Z (Z.of_nat n)).

Definition fsum (l : list fval) : fval := fold_left fadd l (Fin 0).

(** Arithmetic mean of a window. *)
Definition mean (w : Series) : fval := fdiv (fsum w) (of_nat (length w)).

(** A finite value equal to zero. *)
Definition is_zero (a : fval) : Prop := exists q, a = Fin q /\ (q == 0)%Q.

(** A list of rationals that starts at or above [c] and never falls. *)
Fixpoint nondecrQ (c : Q) (cs : list Q) : Prop :=
  match cs with
  | [] => True
  | c' :: cs' => (c <= c')%Q /\ nondecrQ c' cs'
  end.

(** Python's [enumerate], counting from [i]. *)
Fixpoint enumerate_from {A} (i : nat) (l : list A) : list (nat * A) :=
  match l with
  | [] => []
  | x :: l' => (i, x) :: enumerate_from (S i) l'
  end.

Lemma enumerate_from_app {A} i (l m : list A) :
  enumerate_from i (l ++ m)
  = enumerate_from i l ++ enumerate_from (i + length l) m.
Proof.
  revert i. induction l as [|x l IH]; intros i; simpl.
  - f_equal. lia.
  - f_equal. rewrite IH. do 2 f_equal. lia.
Qed.

(** Value of a Series at a position (NaN outside, never read there). *)
Definition at_ (s : Series) (i : nat) : fval := nth i s NaN.

(** ** Facts on the comparisons *)

Lemma Qltb_lt x y : Qltb x y = true <-> (x < y)%Q.
Proof. unfold Qltb, Qlt. apply Z.ltb_lt. Qed.

Lemma Qsign_eq x : Qsign x = Eq <-> (x == 0)%Q.
Proof.
  unfold Qsign, Qeq. simpl. rewrite Z.compare_eq_iff. lia.
Qed.

Lemma fltb_flt a b : fltb a b = true <-> flt a b.
Proof.
  destruct a, b; simpl; split; intros H;
    try discriminate; try (inversion H; fail); try constructor;
    try (apply Qltb_lt; assumption).
  inversion H; subst. apply Qltb_lt. assumption.
Qed.

Lemma fleb_fle a b : fleb a b = true <-> fle a b.
Proof.
  destruct a, b; simpl; split; intros H;
    try discriminate; try (constructor; discriminate);
    try (inversion H; subst; congruence).
  - constructor. apply Qle_bool_iff. assumption.
  - inversion H; subst. apply Qle_bool_iff. assumption.
Qed.

Lemma fltb_nan_l b : fltb NaN b = false.
Proof. reflexivity. Qed.

Lemma fltb_nan_r a : fltb a NaN = false.
Proof. destruct a; reflexivity. Qed.

Lemma fleb_nan_l b : fleb NaN b = false.
Proof. reflexivity. Qed.

Lemma fleb_nan_r a : fleb a NaN = false.
Proof. destruct a; reflexivity. Qed.

(** No two values are strictly ordered both ways. *)
Lemma fltb_asym a b : fltb a b = true -> fltb b a = false.
Proof.
  destruct a, b; simpl; try reflexivity; try discriminate.
  unfold Qltb. intros H. apply Z.ltb_lt in H. apply Z.ltb_ge. lia.
Qed.

(** ** Facts on shifting and zipping *)

Lemma length_shift1 s : length (shift1 s) = length s.
Proof.
  destruct s as [|a s]; [reflexivity|].
  unfold shift1. cbn [length]. f_equal.
  rewrite removelast_firstn_len. rewrite length_firstn. cbn [length]. lia.
Qed.

Lemma at_shift1_0 s : at_ (shift1 s) 0 = NaN.
Proof. destruct s; reflexivity. Qed.

Lemma at_shift1_S s j : S j < length s -> at_ (shift1 s) (S j) = at_ s j.
Proof.
  intros Hj. destruct s as [|a s]; [simpl in Hj; lia|].
  unfold shift1, at_. cbn [nth]. 
  rewrite removelast_firstn_len, nth_firstn.
  destruct (Nat.ltb_spec j (Init.Nat.pred (length (a :: s)))) as [_|Hge];
    [reflexivity | simpl in *; lia].
Qed.

Lemma zip_with_strict_spec {A B C} (f : A -> B -> C) l m :
  length l = length m ->
  exists r, zip_with_strict f l m = Some r /\ length r = length l /\
    forall i da db dc, i < length l -> nth i r dc = f (nth i l da) (nth i m db).
Proof.
  revert m. induction l as [|a l IH]; intros [|b m] Hlen; simpl in Hlen;
    try discriminate.
  - exists []. repeat split. intros i da db dc Hi. simpl in Hi. lia.
  - injection Hlen as Hlen. destruct (IH m Hlen) as (r & Hr & Hlr & Hnth).
    exists (f a b :: r). simpl. rewrite Hr. repeat split.
    + simpl. f_equal. exact Hlr.
    + intros [|i] da db dc Hi; [reflexivity|]. simpl. apply Hnth.
      simpl in Hi. lia.
Qed.

(** The value the previous bar contributes: NaN at the first position. *)
Definition prev (s : Series) (i : nat) : fval :=
  match i with
  | 0 => NaN
  | S j => at_ s j
  end.

Lemma at_shift1 s i : i < length s -> at_ (shift1 s) i = prev s i.
Proof.
  destruct i as [|j]; intros Hi; [apply at_shift1_0 | apply at_shift1_S, Hi].
Qed.

(** Position-wise form of the two outputs. *)
Lemma identify_cross_signals_pointwise fast slow :
  length fast = length slow ->
  exists golden death,
    identify_cross_signals fast slow = Some (golden, death) /\
    length golden = length fast /\ length death = length fast /\
    forall i, i < length fast ->
      nth i golden false
        = fgtb (at_ fast i) (at_ slow i) && fleb (prev fast i) (prev slow i) /\
      nth i death false
        = fltb (at_ fast i) (at_ slow i) && fgeb (prev fast i) (prev slow i).
Proof.
  intros Hlen.
  assert (Hsh : length (shift1 fast) = length (shift1 slow))
    by (rewrite !length_shift1; exact Hlen).
  unfold identify_cross_signals, series_cmp, series_and.
  destruct (zip_with_strict_spec fgtb fast slow Hlen) as (up & -> & Lup & Nup).
  destruct (zip_with_strict_spec fleb _ _ Hsh) as (wb & -> & Lwb & Nwb).
  destruct (zip_with_strict_spec fltb fast slow Hlen) as (dn & -> & Ldn & Ndn).
  destruct (zip_with_strict_spec fgeb _ _ Hsh) as (wa & -> & Lwa & Nwa).
  rewrite length_shift1 in Lwb, Lwa, Nwb, Nwa.
  destruct (zip_with_strict_spec andb up wb) as (g & -> & Lg & Ng);
    [congruence|].
  destruct (zip_with_strict_spec andb dn wa) as (d & -> & Ld & Nd);
    [congruence|].
  exists g, d. split; [reflexivity|]. split; [congruence|].
  split; [congruence|]. intros i Hi. split.
  - rewrite (Ng i false false false) by lia.
    rewrite (Nup i NaN NaN false) by lia.
    rewrite (Nwb i NaN NaN false) by lia.
    fold (at_ (shift1 fast) i) (at_ (shift1 slow) i).
    rewrite !at_shift1 by lia. reflexivity.
  - rewrite (Nd i false false false) by lia.
    rewrite (Ndn i NaN NaN false) by lia.
    rewrite (Nwa i NaN NaN false) by lia.
    fold (at_ (shift1 fast) i) (at_ (shift1 slow) i).
    rewrite !at_shift1 by lia. reflexivity.
Qed.

Lemma prev_nan_false_le a b : a = NaN \/ b = NaN -> fleb a b = false.
Proof. intros [-> | ->]; [reflexivity | apply fleb_nan_r]. Qed.

Lemma cur_nan_false_lt a b : a = NaN \/ b = NaN -> fltb a b = false.
Proof. intros [-> | ->]; [reflexivity | apply fltb_nan_r]. Qed.

(** C1.  For two series of one length, [identify_cross_signals] returns
    [(golden, death)] of that length with [golden[i]] true exactly when
    [fast[i] > slow[i]] and [fast[i-1] <= slow[i-1]], and [death[i]] true
    exactly when [fast[i] < slow[i]] and [fast[i-1] >= slow[i-1]]; both are
    false at position 0, and a NaN of either input at [i] or [i-1] makes
    position [i] false in both. *)
Theorem identify_cross_signals_spec (fast slow : Series)
    (Hlen : length fast = length slow) :
  exists golden death,
    identify_cross_signals fast slow = Some (golden, death) /\
    length golden = length fast /\ length death = length fast /\
    (forall i, i < length fast ->
       (nth i golden false = true <->
          exists j, i = S j /\ flt (at_ slow i) (at_ fast i) /\
                    fle (at_ fast j) (at_ slow j)) /\
       (nth i death false = true <->
          exists j, i = S j /\ flt (at_ fast i) (at_ slow i) /\
                    fle (at_ slow j) (at_ fast j))) /\
    nth 0 golden false = false /\ nth 0 death false = false /\
    (forall i, i < length fast ->
       (at_ fast i = NaN \/ at_ slow i = NaN \/
        exists j, i = S j /\ (at_ fast j = NaN \/ at_ slow j = NaN)) ->
       nth i golden false = false /\ nth i death false = false).
Proof.
  destruct (identify_cross_signals_pointwise fast slow Hlen)
    as (g & d & Hrun & Lg & Ld & Hpt).
  exists g, d. split; [exact Hrun|]. split; [exact Lg|]. split; [exact Ld|].
  split; [|split; [|split]].
  - intros i Hi. destruct (Hpt i Hi) as [Hg Hd]. rewrite Hg, Hd.
    unfold fgtb, fgeb. split.
    + rewrite andb_true_iff, fltb_flt. destruct i as [|j]; simpl.
      * split; [intros [_ H]; discriminate | intros (j & Hj & _); lia].
      * rewrite fleb_fle. split.
        -- intros [H1 H2]. exists j. auto.
        -- intros (j' & Hj & H1 & H2). injection Hj as <-. auto.
    + rewrite andb_true_iff, fltb_flt. destruct i as [|j]; simpl.
      * split; [intros [_ H]; discriminate | intros (j & Hj & _); lia].
      * rewrite fleb_fle. split.
        -- intros [H1 H2]. exists j. auto.
        -- intros (j' & Hj & H1 & H2). injection Hj as <-. auto.
  - destruct fast as [|a fast]; [subst; destruct g; [reflexivity|discriminate]|].
    destruct (Hpt 0) as [Hg _]; [simpl; lia|]. rewrite Hg. simpl.
    apply andb_false_r.
  - destruct fast as [|a fast]; [subst; destruct d; [reflexivity|discriminate]|].
    destruct (Hpt 0) as [_ Hd]; [simpl; lia|]. rewrite Hd. simpl.
    unfold fgeb. simpl. apply andb_false_r.
  - intros i Hi Hnan. destruct (Hpt i Hi) as [Hg Hd]. rewrite Hg, Hd.
    unfold fgtb, fgeb.
    destruct Hnan as [H | [H | (j & -> & H)]].
    + rewrite (cur_nan_false_lt (at_ slow i) (at_ fast i)) by auto.
      rewrite (cur_nan_false_lt (at_ fast i) (at_ slow i)) by auto.
      split; reflexivity.
    + rewrite (cur_nan_false_lt (at_ slow i) (at_ fast i)) by auto.
      rewrite (cur_nan_false_lt (at_ fast i) (at_ slow i)) by auto.
      split; reflexivity.
    + simpl.
      rewrite (prev_nan_false_le (at_ fast j) (at_ slow j)) by tauto.
      rewrite (prev_nan_false_le (at_ slow j) (at_ fast j)) by tauto.
      rewrite !andb_false_r. split; reflexivity.
Qed.

Lemma identify_cross_signals_spec_witness :
  length [Fin 1; Fin 3; NaN] = length [Fin 2; Fin 2; Fin 2] /\
  exists golden death,
    identify_cross_signals [Fin 1; Fin 3; NaN] [Fin 2; Fin 2; Fin 2]
      = Some (golden, death) /\
    nth 1 golden false = true /\ nth 2 death false = false.
Proof.
  split; [reflexivity|].
  destruct (identify_cross_signals_spec [Fin 1; Fin 3; NaN]
              [Fin 2; Fin 2; Fin 2] eq_refl)
    as (g & d & Hrun & _). exists g, d.
  split; [exact Hrun|]. vm_compute in Hrun. injection Hrun as <- <-.
  split; reflexivity.
Defined.

(** C2.  For two series of one length, NaN included, no position is
    flagged golden and death at once, and position 0 is flagged neither. *)
Theorem cross_signals_exclusive (fast slow : Series)
    (Hlen : length fast = length slow) :
  exists golden death,
    identify_cross_signals fast slow = Some (golden, death) /\
    (forall i, ~ (nth i golden false = true /\ nth i death false = true)) /\
    nth 0 golden false = false /\ nth 0 death false = false.
Proof.
  destruct (identify_cross_signals_pointwise fast slow Hlen)
    as (g & d & Hrun & Lg & Ld & Hpt).
  exists g, d. split; [exact Hrun|]. split; [|split].
  - intros i [Hg Hd].
    destruct (Nat.lt_ge_cases i (length fast)) as [Hi | Hi].
    + destruct (Hpt i Hi) as [Eg Ed]. rewrite Eg in Hg. rewrite Ed in Hd.
      apply andb_true_iff in Hg as [Hg _]. apply andb_true_iff in Hd as [Hd _].
      unfold fgtb in Hg. apply fltb_asym in Hg. congruence.
    + rewrite nth_overflow in Hg by lia. discriminate.
  - destruct fast as [|a fast]; [subst; destruct g; [reflexivity|discriminate]|].
    destruct (Hpt 0) as [Hg _]; [simpl; lia|]. rewrite Hg. simpl.
    apply andb_false_r.
  - destruct fast as [|a fast]; [subst; destruct d; [reflexivity|discriminate]|].
    destruct (Hpt 0) as [_ Hd]; [simpl; lia|]. rewrite Hd. simpl.
    unfold fgeb. simpl. apply andb_false_r.
Qed.

Lemma cross_signals_exclusive_witness :
  length [Fin 3; NaN; Fin 1] = length [Fin 2; Fin 2; Fin 2] /\
  exists golden death,
    identify_cross_signals [Fin 3; NaN; Fin 1] [Fin 2; Fin 2; Fin 2]
      = Some (golden, death) /\
    (forall i, ~ (nth i golden false = true /\ nth i death false = true)).
Proof.
  split; [reflexivity|].
  destruct (cross_signals_exclusive [Fin 3; NaN; Fin 1]
              [Fin 2; Fin 2; Fin 2] eq_refl)
    as (g & d & Hrun & Hex & _). exists g, d. split; assumption.
Defined.

(** ** Squeeze episodes ([BollingerBands.analyze_squeeze_pattern])

    The method derives the boolean series [squeeze_condition] from the band
    width and then scans it with the loop embedded below; the results on the
    loop hold for every boolean series, hence for the derived one. *)

Module Squeeze.

Record scan_state := {
  in_squeeze : bool;
  squeeze_start : option nat;
  squeeze_periods : list (nat * nat)
}.

Definition scan_init : scan_state :=
  {| in_squeeze := false; squeeze_start := None; squeeze_periods := [] |}.

(** One iteration of [for i, is_squeeze in enumerate(squeeze_condition)].
    A run is open only after some earlier bar, so [i - 1] is taken at
    [i >= 1]. *)
Definition scan_step (st : scan_state) (x : nat * bool) : scan_state :=
  let '(i, is_squeeze) := x in
  if is_squeeze && negb (in_squeeze st) then
    {| in_squeeze := true; squeeze_start := Some i;
       squeeze_periods := squeeze_periods st |}
  else if negb is_squeeze && in_squeeze st then
    {| in_squeeze := false; squeeze_start := squeeze_start st;
       squeeze_periods :=
         match squeeze_start st with
         | Some s => squeeze_periods st ++ [(s, i - 1)]
         | None => squeeze_periods st
         end |}
  else st.

Definition scan (squeeze_condition : list bool) : scan_state :=
  fold_left scan_step (enumerate_from 0 squeeze_condition) scan_init.

(** The [squeeze_periods] and [total_squeezes] entries of the result. *)
Definition periods_of (squeeze_condition : list bool) : list (nat * nat) :=
  squeeze_periods (scan squeeze_condition).

Definition total_squeezes (squeeze_condition : list bool) : nat :=
  length (periods_of squeeze_condition).

(** A maximal run [s..e] of true bars that is followed by a false bar. *)
Definition closed_run (cond : list bool) (s e : nat) : Prop :=
  s <= e /\
  (forall k, s <= k <= e -> cond !! k = Some true) /\
  (s = 0 \/ cond !! (s - 1) = Some false) /\
  cond !! (S e) = Some false.

(** Number of positions where a true bar is followed by a false bar. *)
Fixpoint falling_edges (cond : list bool) : nat :=
  match cond with
  | [] => 0
  | b :: tl =>
      match tl with
      | false :: _ => (if b then 1 else 0) + falling_edges tl
      | _ => falling_edges tl
      end
  end.

Lemma scan_snoc cond b :
  scan (cond ++ [b]) = scan_step (scan cond) (length cond, b).
Proof.
  unfold scan. rewrite enumerate_from_app, fold_left_app. reflexivity.
Qed.

Lemma falling_edges_snoc cond b :
  falling_edges (cond ++ [b])
  = falling_edges cond
    + (if negb b && default false (last cond) then 1 else 0).
Proof.
  induction cond as [|a cond IH]; [destruct b; reflexivity|].
  destruct cond as [|c cond].
  - destruct a, b; reflexivity.
  - change ((a :: c :: cond) ++ [b]) with (a :: (c :: cond) ++ [b]).
    change (last (a :: c :: cond)) with (last (c :: cond)).
    cbn [falling_edges] in *. cbn [app] in *.
    destruct c; rewrite IH; lia.
Qed.

(** What the loop state means after a prefix has been consumed. *)
Record scan_inv (cond : list bool) (st : scan_state) : Prop := {
  inv_open : in_squeeze st = default false (last cond);
  inv_start : in_squeeze st = true ->
    exists s, squeeze_start st = Some s /\ s < length cond /\
      (forall k, s <= k < length cond -> cond !! k = Some true) /\
      (s = 0 \/ cond !! (s - 1) = Some false);
  inv_periods : forall s e, In (s, e) (squeeze_periods st) <-> closed_run cond s e;
  inv_nodup : NoDup (squeeze_periods st);
  inv_count : length (squeeze_periods st) = falling_edges cond
}.

Lemma last_lookup_pred (cond : list bool) :
  last cond = cond !! (length cond - 1).
Proof.
  destruct cond as [|a cond] using rev_ind; [reflexivity|].
  rewrite last_snoc, length_app. simpl.
  replace (length cond + 1 - 1) with (length cond) by lia.
  rewrite lookup_app_r by lia. rewrite Nat.sub_diag. reflexivity.
Qed.

Lemma closed_run_snoc_true cond s e :
  closed_run (cond ++ [true]) s e <-> closed_run cond s e.
Proof.
  unfold closed_run. split; intros (Hse & Hall & Hleft & Hnext).
  - assert (He : S e < length cond).
    { apply lookup_lt_Some in Hnext as Hlt. rewrite length_app in Hlt.
      simpl in Hlt. destruct (decide (S e = length cond)) as [E|]; [|lia].
      rewrite E, lookup_app_r, Nat.sub_diag in Hnext by lia. discriminate. }
    split; [exact Hse|]. split; [|split].
    + intros k Hk. specialize (Hall k Hk). rewrite lookup_app_l in Hall by lia.
      exact Hall.
    + destruct Hleft as [?|H]; [left; assumption|right].
      rewrite lookup_app_l in H by lia. exact H.
    + rewrite lookup_app_l in Hnext by lia. exact Hnext.
  - apply lookup_lt_Some in Hnext as He.
    split; [exact Hse|]. split; [|split].
    + intros k Hk. rewrite lookup_app_l by lia. auto.
    + destruct Hleft as [?|H]; [left; assumption|right].
      rewrite lookup_app_l by lia. exact H.
    + rewrite lookup_app_l by lia. exact Hnext.
Qed.

(** Two left-maximal runs that end at the same bar start at the same bar. *)
Lemma run_start_unique (cond : list bool) s s' e :
  s <= e -> s' <= e ->
  (forall k, s <= k <= e -> cond !! k = Some true) ->
  (forall k, s' <= k <= e -> cond !! k = Some true) ->
  (s = 0 \/ cond !! (s - 1) = Some false) ->
  (s' = 0 \/ cond !! (s' - 1) = Some false) ->
  s = s'.
Proof.
  intros Hs Hs' Hall Hall' Hl Hl'.
  destruct (Nat.lt_trichotomy s s') as [Hlt | [Heq | Hgt]]; [|exact Heq|].
  - destruct Hl' as [?|Hf]; [lia|].
    rewrite (Hall (s' - 1)) in Hf by lia. discriminate.
  - destruct Hl as [?|Hf]; [lia|].
    rewrite (Hall' (s - 1)) in Hf by lia. discriminate.
Qed.

Lemma closed_run_snoc_false cond s e :
  closed_run (cond ++ [false]) s e <->
  closed_run cond s e \/
  (S e = length cond /\ s <= e /\
   (forall k, s <= k <= e -> cond !! k = Some true) /\
   (s = 0 \/ cond !! (s - 1) = Some false)).
Proof.
  unfold closed_run. split.
  - intros (Hse & Hall & Hleft & Hnext).
    apply lookup_lt_Some in Hnext as Hlt. rewrite length_app in Hlt.
    simpl in Hlt.
    assert (Hall' : forall k, s <= k <= e -> cond !! k = Some true).
    { intros k Hk. specialize (Hall k Hk).
      rewrite lookup_app_l in Hall by lia. exact Hall. }
    assert (Hleft' : s = 0 \/ cond !! (s - 1) = Some false).
    { destruct Hleft as [?|H]; [left; assumption|right].
      rewrite lookup_app_l in H by lia. exact H. }
    destruct (decide (S e = length cond)) as [E|NE].
    + right. auto.
    + left. rewrite lookup_app_l in Hnext by lia. auto.
  - intros [(Hse & Hall & Hleft & Hnext) | (E & Hse & Hall & Hleft)].
    + apply lookup_lt_Some in Hnext as He.
      split; [exact Hse|]. split; [|split].
      * intros k Hk. rewrite lookup_app_l by lia. auto.
      * destruct Hleft as [?|H]; [left; assumption|right].
        rewrite lookup_app_l by lia. exact H.
      * rewrite lookup_app_l by lia. exact Hnext.
    + split; [exact Hse|]. split; [|split].
      * intros k Hk. rewrite lookup_app_l by lia. auto.
      * destruct Hleft as [?|H]; [left; assumption|right].
        rewrite lookup_app_l by lia. exact H.
      * rewrite E, lookup_app_r, Nat.sub_diag by lia. reflexivity.
Qed.

Lemma scan_inv_holds cond : scan_inv cond (scan cond).
Proof.
  induction cond as [|b cond IH] using rev_ind.
  - constructor; simpl; try reflexivity; try discriminate.
    + intros s e. split; [intros []|].
      intros (_ & _ & _ & H). rewrite lookup_nil in H. discriminate.
    + constructor.
  - rewrite scan_snoc. destruct IH as [Hopen Hstart Hper Hnd Hcnt].
    pose proof (last_lookup_pred cond) as Hlast.
    unfold scan_step.
    destruct b, (in_squeeze (scan cond)) eqn:Hin; simpl.
    + (* the run goes on *)
      constructor; simpl.
      * rewrite last_snoc, Hin. reflexivity.
      * intros _. destruct (Hstart eq_refl) as (s & Hs & Hlt & Hall & Hl).
        exists s. rewrite length_app. simpl. split; [exact Hs|].
        split; [lia|]. split.
        -- intros k Hk. destruct (decide (k = length cond)) as [->|].
           ++ rewrite lookup_app_r, Nat.sub_diag by lia. reflexivity.
           ++ rewrite lookup_app_l by lia. apply Hall. lia.
        -- destruct Hl as [?|H]; [left; assumption|right].
           rewrite lookup_app_l by lia. exact H.
      * intros s e. rewrite closed_run_snoc_true. apply Hper.
      * exact Hnd.
      * rewrite falling_edges_snoc. simpl. lia.
    + (* a run starts at this bar *)
      constructor; simpl.
      * rewrite last_snoc. reflexivity.
      * intros _. exists (length cond). rewrite length_app. simpl.
        split; [reflexivity|]. split; [lia|]. split.
        -- intros k Hk. replace k with (length cond) by lia.
           rewrite lookup_app_r, Nat.sub_diag by lia. reflexivity.
        -- destruct cond as [|c cond] using rev_ind; [left; reflexivity|].
           right. rewrite last_snoc in Hopen. simpl in Hopen. subst c.
           rewrite length_app. simpl.
           rewrite lookup_app_l by (rewrite length_app; simpl; lia).
           replace (length cond + 1 - 1) with (length cond) by lia.
           rewrite lookup_app_r, Nat.sub_diag by lia. reflexivity.
      * intros s e. rewrite closed_run_snoc_true. apply Hper.
      * exact Hnd.
      * rewrite falling_edges_snoc. simpl. lia.
    + (* the run is closed by this bar *)
      destruct (Hstart eq_refl) as (s0 & Hs0 & Hlt & Hall & Hl).
      rewrite Hs0.
      assert (Hnew : ~ In (s0, length cond - 1) (squeeze_periods (scan cond))).
      { intros HIn. apply Hper in HIn as (_ & _ & _ & Hnext).
        apply lookup_lt_Some in Hnext. lia. }
      constructor; simpl.
      * rewrite last_snoc. reflexivity.
      * discriminate.
      * intros s e. rewrite in_app_iff, closed_run_snoc_false, Hper. simpl.
        split.
        -- intros [H | [H | []]]; [left; exact H|right].
           injection H as <- <-. split; [lia|]. split; [lia|]. split; [|exact Hl].
           intros k Hk. apply Hall. lia.
        -- intros [H | (E & Hse & Hall' & Hl')]; [left; exact H|right; left].
           assert (s0 = s).
           { apply (run_start_unique cond s0 s e); try assumption; try lia.
             intros k Hk. apply Hall. lia. }
           subst s0. f_equal. lia.
      * apply NoDup_app. split; [exact Hnd|]. split.
        -- intros x Hx Hx'. apply list_elem_of_In in Hx.
           apply list_elem_of_In in Hx'. destruct Hx' as [<- | []].
           exact (Hnew Hx).
        -- apply NoDup_singleton.
      * rewrite length_app, falling_edges_snoc, <- Hopen, Hcnt. simpl. lia.
    + (* outside any run *)
      constructor; simpl.
      * rewrite last_snoc, Hin. reflexivity.
      * rewrite Hin. discriminate.
      * intros s e. rewrite closed_run_snoc_false, Hper.
        split; [intros H; left; exact H|].
        intros [H | (E & Hse & Hall' & _)]; [exact H|exfalso].
        assert (Hl1 : last cond = Some true).
        { rewrite Hlast. replace (length cond - 1) with e by lia.
          apply Hall'. lia. }
        rewrite Hl1 in Hopen. simpl in Hopen. congruence.
      * exact Hnd.
      * rewrite falling_edges_snoc, <- Hopen. simpl. lia.
Qed.

Lemma scan_app_true cond k :
  squeeze_periods (scan (cond ++ repeat true k)) = squeeze_periods (scan cond).
Proof.
  induction k as [|k IH]; [rewrite app_nil_r; reflexivity|].
  change (repeat true (S k)) with (true :: repeat true k).
  rewrite repeat_cons, app_assoc, scan_snoc.
  unfold scan_step. simpl. destruct (in_squeeze _); simpl; exact IH.
Qed.

(** C10.  The recorded episodes are exactly the maximal runs of the squeeze
    condition that are followed by a bar where the condition fails, each
    once, and [total_squeezes] is their number; a run that reaches the last
    bar is not recorded, whatever its length. *)
Theorem squeeze_periods_closed_runs (squeeze_condition : list bool) :
  (forall s e, In (s, e) (periods_of squeeze_condition)
               <-> closed_run squeeze_condition s e) /\
  NoDup (periods_of squeeze_condition) /\
  total_squeezes squeeze_condition = falling_edges squeeze_condition /\
  (forall k, periods_of (squeeze_condition ++ repeat true k)
             = periods_of squeeze_condition) /\
  (forall k, total_squeezes (repeat true k) = 0).
Proof.
  destruct (scan_inv_holds squeeze_condition) as [_ _ Hper Hnd Hcnt].
  unfold total_squeezes, periods_of.
  split; [exact Hper|]. split; [exact Hnd|]. split; [exact Hcnt|].
  split; [intros k; apply scan_app_true|].
  intros k. change (repeat true k) with ([] ++ repeat true k).
  rewrite scan_app_true. reflexivity.
Qed.

Example squeeze_in_progress_not_recorded :
  periods_of [false; true; true; false; false; true; true; true] = [(1, 2)].
Proof. reflexivity. Qed.

End Squeeze.

(** ** Forward returns after a signal
    ([QuantitativeStatistics._calculate_signal_returns]) *)

Module Statistics.

(** The part of [self.data] the method reads: one row per bar, its index
    label (the trade date) and its [Close] value. *)
Abbreviation frame := (list (Z * fval)).

Definition index_of (data : frame) : list Z := map fst data.
Definition close_of (data : frame) : Series := map snd data.

(** Outcome of [Index.get_loc]: an integer position for a label that occurs
    once, [KeyError] for an absent label, and a slice or mask (not an
    integer) for a label that occurs several times. *)
Inductive loc : Type :=
| LocAt (i : nat)
| LocMissing
| LocAmbiguous.

Fixpoint positions_of (label : Z) (i : nat) (index : list Z) : list nat :=
  match index with
  | [] => []
  | x :: rest =>
      if (x =? label)%Z then i :: positions_of label (S i) rest
      else positions_of label (S i) rest
  end.

Definition get_loc (index : list Z) (label : Z) : loc :=
  match positions_of label 0 index with
  | [] => LocMissing
  | [i] => LocAt i
  | _ => LocAmbiguous
  end.

(** [Series.iloc[i]] for an integer [i]: a negative position counts from
    the end; [None] stands for [IndexError]. *)
Definition iloc (s : Series) (i : Z) : option fval :=
  if (0 <=? i)%Z then s !! Z.to_nat i
  else if (- Z.of_nat (length s) <=? i)%Z
       then s !! Z.to_nat (Z.of_nat (length s) + i)
       else None.

(** [signal_series[signal_series].index]: the labels of the true entries. *)
Definition signal_points (signal_series : list (Z * bool)) : list Z :=
  map fst (List.filter snd signal_series).

(** Body of the loop over [signal_points].  [None] is an exception that
    leaves the method: arithmetic on the non-integer result of [get_loc];
    [KeyError] and [IndexError] are caught and the signal is skipped.
    [holding_days] is a Python integer. *)
Definition signal_step (data : frame) (holding_days : Z)
    (acc : option (list fval)) (signal_date : Z) : option (list fval) :=
  match acc with
  | None => None
  | Some returns_list =>
      match get_loc (index_of data) signal_date with
      | LocMissing => Some returns_list
      | LocAmbiguous => None
      | LocAt signal_idx =>
          if (Z.of_nat signal_idx + holding_days
              <? Z.of_nat (length data))%Z then
            match iloc (close_of data) (Z.of_nat signal_idx),
                  iloc (close_of data)
                       (Z.of_nat signal_idx + holding_days) with
            | Some entry_price, Some exit_price =>
                let return_rate :=
                  fdiv (fsub exit_price entry_price) entry_price in
                Some (returns_list ++ [return_rate])
            | _, _ => Some returns_list
            end
          else Some returns_list
      end
  end.

Definition returns_list_of (data : frame) (signal_series : list (Z * bool))
    (holding_days : Z) : option (list fval) :=
  fold_left (signal_step data holding_days) (signal_points signal_series)
            (Some []).

(** [np.mean] of a non-empty list. *)
Definition np_mean (l : list fval) : fval := fdiv (fsum l) (of_nat (length l)).

(** [np.max] and [np.min]: a NaN anywhere makes the result NaN. *)
Definition np_max2 (a b : fval) : fval :=
  if is_nan a || is_nan b then NaN else if fltb a b then b else a.

Definition np_min2 (a b : fval) : fval :=
  if is_nan a || is_nan b then NaN else if fltb b a then b else a.

Definition np_max (l : list fval) : fval :=
  match l with [] => NaN | a :: l' => fold_left np_max2 l' a end.

Definition np_min (l : list fval) : fval :=
  match l with [] => NaN | a :: l' => fold_left np_min2 l' a end.

Record signal_stats := {
  signal_count : nat;
  avg_return : fval;
  win_rate : fval;
  max_return : fval;
  min_return : fval;
  total_trades : nat
}.

Definition hundred : fval := Fin 100.

Definition stats_of (returns_list : list fval) (points : nat) : signal_stats :=
  match returns_list with
  | _ :: _ =>
      {| signal_count := length returns_list;
         avg_return := fmul (np_mean returns_list) hundred;
         win_rate :=
           fmul (fdiv (of_nat (length (List.filter (fun r => fgtb r (Fin 0))
                                                   returns_list)))
                      (of_nat (length returns_list)))
                hundred;
         max_return := fmul (np_max returns_list) hundred;
         min_return := fmul (np_min returns_list) hundred;
         total_trades := points |}
  | [] =>
      {| signal_count := length returns_list;
         avg_return := Fin 0; win_rate := Fin 0;
         max_return := Fin 0; min_return := Fin 0;
         total_trades := points |}
  end.

Definition _calculate_signal_returns (data : frame)
    (signal_series : list (Z * bool)) (holding_days : Z)
  : option signal_stats :=
  match returns_list_of data signal_series holding_days with
  | Some returns_list =>
      Some (stats_of returns_list (length (signal_points signal_series)))
  | None => None
  end.

(** The return booked for a signal at bar [i]. *)
Definition forward_return (data : frame) (h i : nat) : fval :=
  fdiv (fsub (at_ (close_of data) (i + h)) (at_ (close_of data) i))
       (at_ (close_of data) i).

(** Bars with a signal that have [h] later bars, in index order. *)
Definition qualifying (L h : nat) (flags : list bool) : list nat :=
  map fst (List.filter (fun x : nat * bool => snd x && (fst x + h <? L))
                       (enumerate_from 0 flags)).

Lemma positions_of_absent label k index :
  ~ In label index -> positions_of label k index = [].
Proof.
  revert k. induction index as [|x rest IH]; intros k Hnot; [reflexivity|].
  simpl. destruct (Z.eqb_spec x label) as [->|_].
  - exfalso. apply Hnot. left. reflexivity.
  - apply IH. intros H. apply Hnot. right. exact H.
Qed.

Lemma positions_of_unique label k (index : list Z) i :
  NoDup index -> index !! i = Some label ->
  positions_of label k index = [k + i].
Proof.
  revert k i. induction index as [|x rest IH]; intros k i Hnd Hi.
  - rewrite lookup_nil in Hi. discriminate.
  - apply NoDup_cons in Hnd as [Hx Hnd]. rewrite list_elem_of_In in Hx.
    destruct i as [|j]; simpl in *.
    + injection Hi as ->. rewrite Z.eqb_refl.
      rewrite positions_of_absent by exact Hx. f_equal. lia.
    + destruct (Z.eqb_spec x label) as [->|_].
      * exfalso. apply Hx. apply list_elem_of_In.
        apply list_elem_of_lookup. exists j. exact Hi.
      * rewrite (IH (S k) j Hnd Hi). f_equal. lia.
Qed.

Lemma get_loc_unique (index : list Z) i label :
  NoDup index -> index !! i = Some label -> get_loc index label = LocAt i.
Proof.
  intros Hnd Hi. unfold get_loc.
  rewrite (positions_of_unique label 0 index i Hnd Hi). reflexivity.
Qed.

Lemma drop_head_lookup {A} (l : list A) k x rest :
  drop k l = x :: rest -> l !! k = Some x /\ drop (S k) l = rest.
Proof.
  intros H. destruct (l !! k) as [y|] eqn:Hk.
  - rewrite (drop_S l y k Hk) in H. injection H as -> ->. auto.
  - apply lookup_ge_None in Hk. rewrite drop_ge in H by exact Hk.
    discriminate.
Qed.

Lemma at_lookup (s : Series) i : i < length s -> s !! i = Some (at_ s i).
Proof.
  intros Hi. unfold at_. rewrite nth_lookup.
  destruct (lookup_lt_is_Some_2 s i Hi) as [x ->]. reflexivity.
Qed.

Lemma iloc_of_nat (s : Series) i : iloc s (Z.of_nat i) = s !! i.
Proof.
  unfold iloc. destruct (Z.leb_spec 0 (Z.of_nat i)) as [_|?]; [|lia].
  rewrite Nat2Z.id. reflexivity.
Qed.

Lemma returns_fold data (h : nat) (Hnd : NoDup (index_of data)) sigs :
  forall k acc,
    map fst sigs = drop k (index_of data) ->
    fold_left (signal_step data (Z.of_nat h)) (signal_points sigs) (Some acc)
    = Some (acc ++ map (forward_return data h)
                       (map fst (List.filter
                          (fun x : nat * bool =>
                             snd x && (fst x + h <? length data))
                          (enumerate_from k (map snd sigs))))).
Proof.
  induction sigs as [|[lab b] rest IH]; intros k acc Hal.
  - simpl. rewrite app_nil_r. reflexivity.
  - simpl in Hal. symmetry in Hal.
    apply drop_head_lookup in Hal as [Hk Hrest]. symmetry in Hrest.
    unfold signal_points in *. cbn [map snd fst enumerate_from List.filter].
    destruct b; cbn [andb].
    + cbn [map fst fold_left]. unfold signal_step at 2.
      rewrite (get_loc_unique _ k lab Hnd Hk).
      assert (Hlt : k < length data).
      { apply lookup_lt_Some in Hk. unfold index_of in Hk.
        rewrite length_map in Hk. exact Hk. }
      assert (Hguard : (Z.of_nat k + Z.of_nat h <? Z.of_nat (length data))%Z
                       = (k + h <? length data)).
      { destruct (Nat.ltb_spec (k + h) (length data));
          [apply Z.ltb_lt|apply Z.ltb_ge]; lia. }
      rewrite Hguard. destruct (k + h <? length data) eqn:Hg.
      * apply Nat.ltb_lt in Hg.
        rewrite <- Nat2Z.inj_add, !iloc_of_nat.
        rewrite !at_lookup by (unfold close_of; rewrite length_map; lia).
        rewrite (IH (S k) _ Hrest). cbn [map fst].
        rewrite <- app_assoc. reflexivity.
      * rewrite (IH (S k) _ Hrest). reflexivity.
    + apply (IH (S k) acc Hrest).
Qed.

Lemma qualifying_in_from L h flags k i :
  In i (map fst (List.filter
                   (fun x : nat * bool => snd x && (fst x + h <? L))
                   (enumerate_from k flags)))
  <-> k <= i /\ nth (i - k) flags false = true /\ i + h < L.
Proof.
  revert k. induction flags as [|b flags IH]; intros k.
  - simpl. split; [intros []|]. intros (_ & H & _). destruct (i - k); discriminate.
  - cbn [enumerate_from List.filter snd fst].
    assert (Hrest : k <= i /\ i <> k /\ nth (i - k) (b :: flags) false = true
                    /\ i + h < L
                    <-> S k <= i /\ nth (i - S k) flags false = true /\ i + h < L).
    { split.
      - intros (H1 & H2 & H3 & H4). split; [lia|]. split; [|exact H4].
        replace (i - k) with (S (i - S k)) in H3 by lia. exact H3.
      - intros (H1 & H3 & H4). split; [lia|]. split; [lia|]. split; [|exact H4].
        replace (i - k) with (S (i - S k)) by lia. exact H3. }
    destruct (b && (k + h <? L)) eqn:Hq.
    + apply andb_true_iff in Hq as [-> Hq]. apply Nat.ltb_lt in Hq.
      cbn [map fst In]. rewrite IH. split.
      * intros [<- | H]; [rewrite Nat.sub_diag; simpl; auto|].
        apply Hrest in H. tauto.
      * intros (H1 & H2 & H3). destruct (decide (i = k)) as [->|Hne];
          [left; reflexivity|right]. apply Hrest. auto.
    + rewrite IH. split.
      * intros H. apply Hrest in H. tauto.
      * intros (H1 & H2 & H3). destruct (decide (i = k)) as [->|Hne].
        -- rewrite Nat.sub_diag in H2. simpl in H2. subst b.
           simpl in Hq. apply Nat.ltb_ge in Hq. lia.
        -- apply Hrest. auto.
Qed.

Lemma qualifying_in L h flags i :
  In i (map fst (List.filter
                   (fun x : nat * bool => snd x && (fst x + h <? L))
                   (enumerate_from 0 flags)))
  <-> nth i flags false = true /\ i + h < L.
Proof.
  rewrite qualifying_in_from. rewrite Nat.sub_0_r. split; [tauto|].
  intros H. split; [lia|exact H].
Qed.

(** *** The aggregates *)

Lemma fltb_fleb a b : fltb a b = true -> fleb a b = true.
Proof.
  destruct a, b; simpl; try discriminate; try reflexivity.
  intros H. apply Qle_bool_iff, Qlt_le_weak, Qltb_lt, H.
Qed.

Lemma fltb_false_fleb a b :
  a <> NaN -> b <> NaN -> fltb a b = false -> fleb b a = true.
Proof.
  intros Ha Hb H. destruct a, b; simpl in *; try congruence;
    try reflexivity.
  apply Qle_bool_iff. unfold Qltb in H. unfold Qle.
  apply Z.ltb_ge in H. exact H.
Qed.

Lemma fleb_reflexive a : a <> NaN -> fleb a a = true.
Proof.
  intros Ha. destruct a; simpl; try congruence; try reflexivity.
  apply Qle_bool_iff, Qle_refl.
Qed.

Lemma fleb_transitive a b c :
  fleb a b = true -> fleb b c = true -> fleb a c = true.
Proof.
  destruct a, b, c; simpl; try reflexivity; try discriminate.
  rewrite !Qle_bool_iff. apply Qle_trans.
Qed.

Lemma fold_np_max2_nan l : fold_left np_max2 l NaN = NaN.
Proof. induction l as [|b l IH]; [reflexivity|exact IH]. Qed.

Lemma fold_np_min2_nan l : fold_left np_min2 l NaN = NaN.
Proof. induction l as [|b l IH]; [reflexivity|exact IH]. Qed.

(** A NaN among the values makes [np.max] and [np.min] NaN. *)
Lemma np_extremes_nan l :
  In NaN l -> np_max l = NaN /\ np_min l = NaN.
Proof.
  destruct l as [|a l]; [intros []|]. unfold np_max, np_min.
  revert a. induction l as [|b l IH]; intros a Hin.
  - destruct Hin as [->|[]]. split; reflexivity.
  - cbn [fold_left]. destruct Hin as [->|Hin].
    + change (np_max2 NaN b) with NaN. change (np_min2 NaN b) with NaN.
      rewrite fold_np_max2_nan, fold_np_min2_nan. split; reflexivity.
    + destruct Hin as [->|Hin].
      * assert (E1 : np_max2 a NaN = NaN) by (destruct a; reflexivity).
        assert (E2 : np_min2 a NaN = NaN) by (destruct a; reflexivity).
        rewrite E1, E2, fold_np_max2_nan, fold_np_min2_nan.
        split; reflexivity.
      * split.
        -- apply (IH (np_max2 a b)). right. exact Hin.
        -- apply (IH (np_min2 a b)). right. exact Hin.
Qed.

(** Without NaN, [np.max] is a value of the list that no value exceeds. *)
Lemma fold_np_max2 l :
  forall a, a <> NaN -> Forall (fun r => r <> NaN) l ->
    fold_left np_max2 l a <> NaN /\
    In (fold_left np_max2 l a) (a :: l) /\
    fleb a (fold_left np_max2 l a) = true /\
    Forall (fun r => fleb r (fold_left np_max2 l a) = true) l.
Proof.
  induction l as [|b l IH]; intros a Ha Hl.
  - simpl. split; [exact Ha|]. split; [left; reflexivity|].
    split; [apply fleb_reflexive, Ha|constructor].
  - apply Forall_cons in Hl as [Hb Hl]. cbn [fold_left].
    assert (Hstep : np_max2 a b <> NaN /\
                    (np_max2 a b = a \/ np_max2 a b = b) /\
                    fleb a (np_max2 a b) = true /\
                    fleb b (np_max2 a b) = true).
    { unfold np_max2.
      assert (Ea : is_nan a = false) by (destruct a; first [reflexivity|congruence]).
      assert (Eb : is_nan b = false) by (destruct b; first [reflexivity|congruence]).
      rewrite Ea, Eb. simpl. destruct (fltb a b) eqn:E.
      - split; [exact Hb|]. split; [right; reflexivity|].
        split; [apply fltb_fleb, E|apply fleb_reflexive, Hb].
      - split; [exact Ha|]. split; [left; reflexivity|].
        split; [apply fleb_reflexive, Ha|apply fltb_false_fleb; assumption]. }
    destruct Hstep as (Hn & Hor & Hale & Hble).
    destruct (IH (np_max2 a b) Hn Hl) as (HM & Hin & Hle & Hall).
    split; [exact HM|]. split; [|split].
    + destruct Hin as [E|Hin]; [|right; right; exact Hin].
      rewrite <- E. destruct Hor as [-> | ->];
        [left; reflexivity|right; left; reflexivity].
    + exact (fleb_transitive _ _ _ Hale Hle).
    + constructor; [exact (fleb_transitive _ _ _ Hble Hle)|exact Hall].
Qed.

Lemma fold_np_min2 l :
  forall a, a <> NaN -> Forall (fun r => r <> NaN) l ->
    fold_left np_min2 l a <> NaN /\
    In (fold_left np_min2 l a) (a :: l) /\
    fleb (fold_left np_min2 l a) a = true /\
    Forall (fun r => fleb (fold_left np_min2 l a) r = true) l.
Proof.
  induction l as [|b l IH]; intros a Ha Hl.
  - simpl. split; [exact Ha|]. split; [left; reflexivity|].
    split; [apply fleb_reflexive, Ha|constructor].
  - apply Forall_cons in Hl as [Hb Hl]. cbn [fold_left].
    assert (Hstep : np_min2 a b <> NaN /\
                    (np_min2 a b = a \/ np_min2 a b = b) /\
                    fleb (np_min2 a b) a = true /\
                    fleb (np_min2 a b) b = true).
    { unfold np_min2.
      assert (Ea : is_nan a = false) by (destruct a; first [reflexivity|congruence]).
      assert (Eb : is_nan b = false) by (destruct b; first [reflexivity|congruence]).
      rewrite Ea, Eb. simpl. destruct (fltb b a) eqn:E.
      - split; [exact Hb|]. split; [right; reflexivity|].
        split; [apply fltb_fleb, E|apply fleb_reflexive, Hb].
      - split; [exact Ha|]. split; [left; reflexivity|].
        split; [apply fleb_reflexive, Ha|apply fltb_false_fleb; assumption]. }
    destruct Hstep as (Hn & Hor & Hale & Hble).
    destruct (IH (np_min2 a b) Hn Hl) as (HM & Hin & Hle & Hall).
    split; [exact HM|]. split; [|split].
    + destruct Hin as [E|Hin]; [|right; right; exact Hin].
      rewrite <- E. destruct Hor as [-> | ->];
        [left; reflexivity|right; left; reflexivity].
    + exact (fleb_transitive _ _ _ Hle Hale).
    + constructor; [exact (fleb_transitive _ _ _ Hle Hble)|exact Hall].
Qed.

Lemma np_extremes l :
  l <> [] -> Forall (fun r => r <> NaN) l ->
  In (np_max l) l /\ In (np_min l) l /\
  forall r, In r l -> fle r (np_max l) /\ fle (np_min l) r.
Proof.
  destruct l as [|a l]; [congruence|]. intros _ Hall.
  apply Forall_cons in Hall as [Ha Hl]. unfold np_max, np_min.
  destruct (fold_np_max2 l a Ha Hl) as (_ & HinM & HaM & HlM).
  destruct (fold_np_min2 l a Ha Hl) as (_ & Hinm & Ham & Hlm).
  split; [exact HinM|]. split; [exact Hinm|].
  rewrite List.Forall_forall in HlM, Hlm.
  intros r [<-|Hr]; split; apply fleb_fle; auto.
Qed.

Lemma stats_of_aggregates rl points :
  rl <> [] ->
  avg_return (stats_of rl points)
  = fmul (fdiv (fsum rl) (of_nat (length rl))) (Fin 100) /\
  win_rate (stats_of rl points)
  = fmul (fdiv (of_nat (length (List.filter (fun r => fgtb r (Fin 0)) rl)))
               (of_nat (length rl)))
         (Fin 100) /\
  max_return (stats_of rl points) = fmul (np_max rl) (Fin 100) /\
  min_return (stats_of rl points) = fmul (np_min rl) (Fin 100).
Proof.
  destruct rl as [|r rl]; [congruence|]. intros _.
  repeat split; reflexivity.
Qed.

(** C3.  Over a frame with distinct index labels, a signal series on the
    same index and a holding horizon [h >= 0]: a signal at bar [i] is
    booked exactly when [i + h < L], with return
    [(close[i+h] - close[i]) / close[i]]; the method does not raise, and
    the record it returns is the aggregate of exactly these returns:
    their number, a hundred times their mean, the percentage of those
    above zero, a hundred times their largest and smallest value
    (NaN as soon as one return is NaN), and the number of signals.  With no
    booked return (for instance a single signal at bar 9 of 10 bars with
    [h = 5]) every aggregate is 0. *)
Theorem signal_returns_spec (data : frame) (signal_series : list (Z * bool))
    (h : Z)
    (Hh : (0 <= h)%Z)
    (Hnd : NoDup (index_of data))
    (Hal : map fst signal_series = index_of data) :
  let booked :=
    qualifying (length data) (Z.to_nat h) (map snd signal_series) in
  let returns := map (forward_return data (Z.to_nat h)) booked in
  (forall i, In i booked <->
     nth i (map snd signal_series) false = true /\
     (Z.of_nat i + h < Z.of_nat (length data))%Z) /\
  returns_list_of data signal_series h = Some returns /\
  exists st,
    _calculate_signal_returns data signal_series h = Some st /\
    signal_count st = length booked /\
    total_trades st = count_signals (map snd signal_series) /\
    (booked = [] ->
       avg_return st = Fin 0 /\ win_rate st = Fin 0 /\
       max_return st = Fin 0 /\ min_return st = Fin 0) /\
    (booked <> [] ->
       avg_return st
       = fmul (fdiv (fsum returns) (of_nat (length booked))) (Fin 100) /\
       win_rate st
       = fmul (fdiv (of_nat (length (List.filter
                                       (fun r => fgtb r (Fin 0)) returns)))
                    (of_nat (length booked)))
              (Fin 100) /\
       (In NaN returns -> max_return st = NaN /\ min_return st = NaN) /\
       (~ In NaN returns ->
        exists hi lo,
          In hi returns /\ In lo returns /\
          (forall r, In r returns -> fle r hi /\ fle lo r) /\
          max_return st = fmul hi (Fin 100) /\
          min_return st = fmul lo (Fin 100))) /\
    (length data = 10 -> h = 5%Z ->
     (forall i, nth i (map snd signal_series) false = true -> i = 9) ->
     signal_count st = 0 /\
     avg_return st = Fin 0 /\ win_rate st = Fin 0 /\
     max_return st = Fin 0 /\ min_return st = Fin 0).
Proof.
  intros booked returns.
  assert (Hz : h = Z.of_nat (Z.to_nat h)) by (rewrite Z2Nat.id; lia).
  set (n := Z.to_nat h) in *.
  assert (Hin : forall i, In i booked <->
     nth i (map snd signal_series) false = true /\
     (Z.of_nat i + h < Z.of_nat (length data))%Z).
  { intros i. unfold booked, qualifying. rewrite qualifying_in.
    split; intros [H1 H2]; (split; [exact H1|lia]). }
  assert (Hrl : returns_list_of data signal_series h = Some returns).
  { unfold returns_list_of. rewrite Hz.
    rewrite (returns_fold data n Hnd signal_series 0 []).
    - reflexivity.
    - rewrite drop_0. exact Hal. }
  split; [exact Hin|]. split; [exact Hrl|].
  unfold _calculate_signal_returns. rewrite Hrl. eexists.
  split; [reflexivity|].
  assert (Hlen : length returns = length booked)
    by (unfold returns; apply length_map).
  assert (Hcount : signal_count
            (stats_of returns (length (signal_points signal_series)))
          = length booked).
  { unfold stats_of. destruct returns; simpl in *; lia. }
  assert (Hnil : booked = [] ->
     avg_return (stats_of returns (length (signal_points signal_series)))
       = Fin 0 /\
     win_rate (stats_of returns (length (signal_points signal_series)))
       = Fin 0 /\
     max_return (stats_of returns (length (signal_points signal_series)))
       = Fin 0 /\
     min_return (stats_of returns (length (signal_points signal_series)))
       = Fin 0).
  { intros E. unfold returns. rewrite E. simpl. repeat split; reflexivity. }
  split; [exact Hcount|]. split; [|split; [exact Hnil|split]].
  - assert (Htotal : forall rl,
              total_trades (stats_of rl (length (signal_points signal_series)))
              = length (signal_points signal_series))
      by (intros [|? ?]; reflexivity).
    rewrite Htotal. unfold signal_points, count_signals.
    rewrite length_map. clear. induction signal_series as [|[lab b] s IH];
      [reflexivity|]. simpl. destruct b; simpl; rewrite IH; reflexivity.
  - intros Hne.
    assert (Hrne : returns <> []).
    { intros E. apply Hne. apply length_zero_iff_nil.
      rewrite <- Hlen, E. reflexivity. }
    rewrite <- Hlen.
    destruct (stats_of_aggregates returns
                (length (signal_points signal_series)) Hrne)
      as (Havg & Hwin & Hmax & Hmin).
    split; [exact Havg|]. split; [exact Hwin|]. split.
    + intros Hnan. rewrite Hmax, Hmin.
      destruct (np_extremes_nan _ Hnan) as [-> ->]. split; reflexivity.
    + intros Hnone.
      assert (Hall : Forall (fun x => x <> NaN) returns).
      { apply List.Forall_forall. intros x Hx E. apply Hnone.
        rewrite <- E. exact Hx. }
      destruct (np_extremes returns Hrne Hall) as (HM & Hm & Hb).
      exists (np_max returns), (np_min returns). auto.
  - intros HL E5 Honly.
    assert (Hb : booked = []).
    { destruct booked as [|i l] eqn:Eb; [reflexivity|]. exfalso.
      assert (Hi : In i (i :: l)) by (left; reflexivity).
      apply Hin in Hi as [Hsig Hlt]. apply Honly in Hsig. lia. }
    split; [rewrite Hcount, Hb; reflexivity|]. apply Hnil, Hb.
Qed.

Lemma signal_returns_spec_witness :
  let data := [(1, Fin 10); (2, Fin 11); (3, Fin 12); (4, Fin 15)]%Z in
  let sig := [(1, true); (2, false); (3, true); (4, false)]%Z in
  (0 <= 2)%Z /\ NoDup (index_of data) /\ map fst sig = index_of data /\
  returns_list_of data sig 2
    = Some (map (forward_return data 2)
                (qualifying (length data) 2 (map snd sig))).
Proof.
  intros data sig.
  assert (Hh : (0 <= 2)%Z) by lia.
  assert (Hnd : NoDup (index_of data)).
  { apply (bool_decide_unpack (NoDup (index_of data))). vm_compute. exact I. }
  split; [exact Hh|]. split; [exact Hnd|]. split; [reflexivity|].
  exact (proj1 (proj2 (signal_returns_spec data sig 2 Hh Hnd eq_refl))).
Defined.

Example signal_at_last_bar_of_ten :
  let data := map (fun k => (Z.of_nat k, of_nat (100 + k))) (seq 0 10) in
  let sig := map (fun k => (Z.of_nat k, Nat.eqb k 9)) (seq 0 10) in
  _calculate_signal_returns data sig 5
  = Some {| signal_count := 0; avg_return := Fin 0; win_rate := Fin 0;
            max_return := Fin 0; min_return := Fin 0; total_trades := 1 |}.
Proof. reflexivity. Qed.

(** One signal at bar 0 of four bars, held for two bars: one trade, a
    return of 20%, every aggregate at 20. *)
Example signal_returns_sample :
  exists st,
    _calculate_signal_returns
      [(1, Fin 10); (2, Fin 11); (3, Fin 12); (4, Fin 15)]%Z
      [(1, true); (2, false); (3, false); (4, false)]%Z 2 = Some st /\
    signal_count st = 1 /\ total_trades st = 1 /\
    (exists a, avg_return st = Fin a /\ (a == 20)%Q) /\
    (exists w, win_rate st = Fin w /\ (w == 100)%Q) /\
    (exists m, max_return st = Fin m /\ (m == 20)%Q).
Proof.
  eexists. split; [vm_compute; reflexivity|]. cbn.
  split; [reflexivity|]. split; [reflexivity|].
  repeat split; eexists; (split; [reflexivity|vm_compute; reflexivity]).
Qed.

(** A horizon counts bars.  With a negative [holding_days] the guard always
    holds and [iloc] counts from the end: a signal at bar 0 held for -1
    bars is booked against the last bar. *)
Example negative_horizon_wraps :
  returns_list_of [(1, Fin 10); (2, Fin 11); (3, Fin 20)]%Z
                  [(1, true); (2, false); (3, false)]%Z (-1)
  = Some [fdiv (fsub (Fin 20) (Fin 10)) (Fin 10)].
Proof. reflexivity. Qed.

End Statistics.

(** ** Risk metrics ([QuantitativeStatistics.calculate_risk_metrics]) *)

Module RiskMetrics.

(** [Series.cumprod()]: NaN entries stay NaN and are left out of the
    running product. *)
Fixpoint cumprod_from (acc : fval) (s : Series) : Series :=
  match s with
  | [] => []
  | x :: s' =>
      if is_nan x then NaN :: cumprod_from acc s'
      else fmul acc x :: cumprod_from (fmul acc x) s'
  end.

Definition cumprod (s : Series) : Series := cumprod_from (Fin 1) s.

(** Maximum and minimum that skip NaN ([skipna=True]); NaN when there is
    no value at all. *)
Definition max_skipna (acc x : fval) : fval :=
  match acc, x with
  | NaN, _ => x
  | _, NaN => acc
  | _, _ => if fltb acc x then x else acc
  end.

Definition min_skipna (acc x : fval) : fval :=
  match acc, x with
  | NaN, _ => x
  | _, NaN => acc
  | _, _ => if fltb x acc then x else acc
  end.

(** [Series.expanding().max()]. *)
Fixpoint expanding_max_from (acc : fval) (s : Series) : Series :=
  match s with
  | [] => []
  | x :: s' => max_skipna acc x :: expanding_max_from (max_skipna acc x) s'
  end.

Definition expanding_max (s : Series) : Series := expanding_max_from NaN s.

(** [Series.min()]. *)
Definition series_min (s : Series) : fval := fold_left min_skipna s NaN.

Definition cumulative_returns (returns : Series) : Series :=
  cumprod (map (fadd (Fin 1)) returns).

Definition rolling_max (returns : Series) : Series :=
  expanding_max (cumulative_returns returns).

(** The two operands come from one series, so they are aligned. *)
Definition drawdown (returns : Series) : Series :=
  zip_with (fun c m => fdiv (fsub c m) m)
           (cumulative_returns returns) (rolling_max returns).

Definition max_drawdown (returns : Series) : fval :=
  fmul (series_min (drawdown returns)) (Fin 100).

(** The curve never falls from one bar to the next. *)
Definition non_decreasing (s : Series) : Prop :=
  forall i, S i < length s -> fle (at_ s i) (at_ s (S i)).

(** *** The computation on finite returns *)

Fixpoint cumprodQ (a : Q) (xs : list Q) : list Q :=
  match xs with
  | [] => []
  | x :: xs' => (a * x)%Q :: cumprodQ (a * x)%Q xs'
  end.

Fixpoint runmaxQ (m : Q) (cs : list Q) : list Q :=
  match cs with
  | [] => []
  | c :: cs' =>
      let m' := if Qltb m c then c else m in
      m' :: runmaxQ m' cs'
  end.

Lemma cumprod_from_fin a xs :
  cumprod_from (Fin a) (map Fin xs) = map Fin (cumprodQ a xs).
Proof.
  revert a. induction xs as [|x xs IH]; intros a; [reflexivity|].
  simpl. rewrite IH. reflexivity.
Qed.

Lemma expanding_max_from_fin m cs :
  expanding_max_from (Fin m) (map Fin cs) = map Fin (runmaxQ m cs).
Proof.
  revert m. induction cs as [|c cs IH]; intros m; [reflexivity|].
  simpl. destruct (Qltb m c); rewrite IH; reflexivity.
Qed.

Lemma cumulative_returns_fin r0 rs :
  cumulative_returns (map Fin (r0 :: rs))
  = map Fin ((1 * (1 + r0))%Q
             :: cumprodQ (1 * (1 + r0))%Q (map (Qplus 1) rs)).
Proof.
  unfold cumulative_returns, cumprod.
  replace (map (fadd (Fin 1)) (map Fin (r0 :: rs)))
    with (map Fin (map (Qplus 1) (r0 :: rs)))
    by (rewrite !map_map; reflexivity).
  rewrite cumprod_from_fin. reflexivity.
Qed.

Lemma rolling_max_fin r0 rs :
  let c0 := (1 * (1 + r0))%Q in
  let cs := cumprodQ c0 (map (Qplus 1) rs) in
  rolling_max (map Fin (r0 :: rs)) = map Fin (c0 :: runmaxQ c0 cs).
Proof.
  intros c0 cs. unfold rolling_max. rewrite cumulative_returns_fin.
  fold c0. fold cs. unfold expanding_max. cbn [map expanding_max_from].
  cbn [max_skipna]. rewrite expanding_max_from_fin. reflexivity.
Qed.

(** *** Order facts *)

Lemma Qltb_false_le x y : Qltb x y = false -> (y <= x)%Q.
Proof. unfold Qltb, Qle. intros H. apply Z.ltb_ge in H. exact H. Qed.

Lemma fleb_trans a b c :
  fleb a b = true -> fleb b c = true -> fleb a c = true.
Proof.
  destruct a, b, c; simpl; try reflexivity; try discriminate.
  rewrite !Qle_bool_iff. apply Qle_trans.
Qed.

Lemma min_skipna_l acc y :
  acc <> NaN ->
  min_skipna acc y <> NaN /\ fleb (min_skipna acc y) acc = true.
Proof.
  intros Hacc. destruct acc, y; simpl; try congruence;
    try (split; [discriminate|reflexivity]);
    try (split; [discriminate|apply Qle_bool_iff, Qle_refl]).
  destruct (Qltb q0 q) eqn:E; simpl.
  - split; [discriminate|]. apply Qle_bool_iff, Qlt_le_weak, Qltb_lt, E.
  - split; [discriminate|]. apply Qle_bool_iff, Qle_refl.
Qed.

Lemma min_skipna_r acc y :
  y <> NaN ->
  min_skipna acc y <> NaN /\ fleb (min_skipna acc y) y = true.
Proof.
  intros Hy. destruct acc, y; simpl; try congruence;
    try (split; [discriminate|reflexivity]);
    try (split; [discriminate|apply Qle_bool_iff, Qle_refl]).
  destruct (Qltb q0 q) eqn:E; simpl.
  - split; [discriminate|]. apply Qle_bool_iff, Qle_refl.
  - split; [discriminate|]. apply Qle_bool_iff, Qltb_false_le, E.
Qed.

Lemma fold_min_le s :
  forall acc,
    (acc <> NaN ->
       fold_left min_skipna s acc <> NaN /\
       fleb (fold_left min_skipna s acc) acc = true) /\
    (forall x, In x s -> x <> NaN ->
       fold_left min_skipna s acc <> NaN /\
       fleb (fold_left min_skipna s acc) x = true).
Proof.
  induction s as [|y s IH]; intros acc; simpl.
  - split; [|intros x []]. intros Hacc. split; [exact Hacc|].
    destruct acc; try congruence; simpl; try reflexivity.
    apply Qle_bool_iff, Qle_refl.
  - destruct (IH (min_skipna acc y)) as [IHacc IHin]. split.
    + intros Hacc. destruct (min_skipna_l acc y Hacc) as [Hn Hle].
      destruct (IHacc Hn) as [Hn' Hle']. split; [exact Hn'|].
      exact (fleb_trans _ _ _ Hle' Hle).
    + intros x [<- | Hx] Hxn.
      * destruct (min_skipna_r acc y Hxn) as [Hn Hle].
        destruct (IHacc Hn) as [Hn' Hle']. split; [exact Hn'|].
        exact (fleb_trans _ _ _ Hle' Hle).
      * apply IHin; assumption.
Qed.

Lemma scaled_nonpositive m z :
  is_zero z -> fleb m z = true -> fleb (fmul m (Fin 100)) (Fin 0) = true.
Proof.
  intros (q & -> & Hq) Hle. destruct m; simpl in *; try discriminate.
  - reflexivity.
  - apply Qle_bool_iff in Hle. apply Qle_bool_iff. rewrite Hq in Hle.
    lra.
Qed.

(** The first bar of the drawdown series is zero when the curve starts
    away from zero. *)
Lemma drawdown_first_zero c0 :
  ~ (c0 == 0)%Q -> is_zero (fdiv (fsub (Fin c0) (Fin c0)) (Fin c0)).
Proof.
  intros Hc. simpl. destruct (Qsign c0) eqn:E.
  - apply Qsign_eq in E. contradiction.
  - eexists. split; [reflexivity|]. field. exact Hc.
  - eexists. split; [reflexivity|]. field. exact Hc.
Qed.

(** *** A curve that never falls *)

Lemma non_decreasing_fin c cs :
  non_decreasing (map Fin (c :: cs)) -> nondecrQ c cs.
Proof.
  revert c. induction cs as [|c' cs IH]; intros c H; [exact I|].
  split.
  - specialize (H 0). simpl in H. unfold at_ in H. simpl in H.
    assert (Hle : fle (Fin c) (Fin c')) by (apply H; lia).
    inversion Hle; subst. assumption.
  - apply IH. intros i Hi. apply (H (S i)). simpl in *. lia.
Qed.

(** On a curve that never falls, the running maximum is the curve. *)
Lemma runmaxQ_nondecr cs :
  forall m c, (m == c)%Q -> nondecrQ c cs -> Forall2 Qeq (runmaxQ m cs) cs.
Proof.
  induction cs as [|c' cs IH]; intros m c Hm Hnd; [constructor|].
  destruct Hnd as [Hle Hnd]. simpl.
  assert (Hm' : ((if Qltb m c' then c' else m) == c')%Q).
  { destruct (Qltb m c') eqn:E; [reflexivity|].
    apply Qltb_false_le in E. apply Qle_antisym; [|exact E].
    rewrite Hm. exact Hle. }
  constructor; [exact Hm'|]. exact (IH _ c' Hm' Hnd).
Qed.

Definition nan_or_zero (a : fval) : Prop := a = NaN \/ is_zero a.

Lemma drawdown_at_peak c m :
  (m == c)%Q -> nan_or_zero (fdiv (fsub (Fin c) (Fin m)) (Fin m)).
Proof.
  intros Hm. simpl. destruct (Qsign m) eqn:E.
  - left. assert (Hz : Qsign (c + - m) = Eq) by (apply Qsign_eq; lra).
    rewrite Hz. reflexivity.
  - right. eexists. split; [reflexivity|]. rewrite Hm.
    assert (Hc : ~ (c == 0)%Q).
    { intros Hc. rewrite <- Hm in Hc. apply Qsign_eq in Hc. congruence. }
    field. exact Hc.
  - right. eexists. split; [reflexivity|]. rewrite Hm.
    assert (Hc : ~ (c == 0)%Q).
    { intros Hc. rewrite <- Hm in Hc. apply Qsign_eq in Hc. congruence. }
    field. exact Hc.
Qed.

Lemma drawdown_at_peaks ms cs :
  Forall2 Qeq ms cs ->
  Forall nan_or_zero
    (zip_with (fun c m => fdiv (fsub c m) m) (map Fin cs) (map Fin ms)).
Proof.
  induction 1 as [|m c ms cs Hm _ IH]; [constructor|].
  cbn [map zip_with]. constructor; [apply drawdown_at_peak, Hm|exact IH].
Qed.

Lemma min_skipna_zero acc y :
  nan_or_zero acc -> nan_or_zero y ->
  nan_or_zero (min_skipna acc y) /\
  (is_zero acc \/ is_zero y -> is_zero (min_skipna acc y)).
Proof.
  intros [-> | (a & -> & Ha)] [-> | (b & -> & Hb)]; simpl.
  - split; [left; reflexivity|]. intros [(q & H & _) | (q & H & _)]; discriminate.
  - split; [right|intros _]; exists b; auto.
  - split; [right|intros _]; exists a; auto.
  - destruct (Qltb b a); (split; [right|intros _]);
      first [exists b; auto; fail | exists a; auto].
Qed.

Lemma fold_min_zero s :
  forall acc, nan_or_zero acc -> Forall nan_or_zero s ->
    (is_zero acc \/ Exists is_zero s) ->
    is_zero (fold_left min_skipna s acc).
Proof.
  induction s as [|y s IH]; intros acc Hacc Hs Hex; simpl.
  - destruct Hex as [H | H]; [exact H|inversion H].
  - apply Forall_cons in Hs as [Hy Hs].
    destruct (min_skipna_zero acc y Hacc Hy) as [Hn Hz].
    apply IH; [exact Hn|exact Hs|].
    destruct Hex as [H | H]; [left; apply Hz; left; exact H|].
    apply Exists_cons in H as [H | H]; [left; apply Hz; right; exact H|].
    right. exact H.
Qed.

(** *** The first bar, and values that are not finite *)

Lemma cumulative_returns_cons r0 (rest : Series) :
  cumulative_returns (Fin r0 :: rest)
  = Fin (1 * (1 + r0))
    :: cumprod_from (Fin (1 * (1 + r0))) (map (fadd (Fin 1)) rest).
Proof. reflexivity. Qed.

Lemma drawdown_cons r0 (rest : Series) :
  let c0 := Fin (1 * (1 + r0)) in
  let cs := cumprod_from c0 (map (fadd (Fin 1)) rest) in
  drawdown (Fin r0 :: rest)
  = fdiv (fsub c0 c0) c0
    :: zip_with (fun c m => fdiv (fsub c m) m) cs (expanding_max_from c0 cs).
Proof. reflexivity. Qed.

(** Two values that stand for the same number: equal rationals, or twice
    plus infinity. *)
Definition same (m c : fval) : Prop :=
  match m, c with
  | Fin a, Fin b => (a == b)%Q
  | PInf, PInf => True
  | _, _ => False
  end.

(** A list that starts at or above [c] and never falls. *)
Fixpoint nondecrF (c : fval) (cs : Series) : Prop :=
  match cs with
  | [] => True
  | c' :: cs' => fle c c' /\ nondecrF c' cs'
  end.

Lemma non_decreasing_cons c (cs : Series) :
  non_decreasing (c :: cs) -> nondecrF c cs.
Proof.
  revert c. induction cs as [|c' cs IH]; intros c H; [exact I|].
  split.
  - apply (H 0). simpl. lia.
  - apply IH. intros i Hi. apply (H (S i)). simpl in *. lia.
Qed.

(** On a curve that never falls, the running maximum is the curve. *)
Lemma expanding_max_nondecr cs :
  forall m c, same m c -> nondecrF c cs ->
    Forall2 same (expanding_max_from m cs) cs.
Proof.
  induction cs as [|c' cs IH]; intros m c Hm Hnd; [constructor|].
  destruct Hnd as [Hle Hnd]. cbn [expanding_max_from].
  assert (Hm' : same (max_skipna m c') c').
  { destruct m as [| | |a], c as [| | |b]; simpl in Hm; try contradiction.
    - inversion Hle; subst; simpl; try exact I; congruence.
    - inversion Hle; subst.
      + simpl. destruct (Qltb a y) eqn:E; simpl; [reflexivity|].
        apply Qltb_false_le in E. apply Qle_antisym; [|exact E].
        rewrite Hm. assumption.
      + simpl. exact I. }
  constructor; [exact Hm'|]. exact (IH _ c' Hm' Hnd).
Qed.

Lemma drawdown_at_same m c :
  same m c -> nan_or_zero (fdiv (fsub c m) m).
Proof.
  destruct m as [| | |a], c as [| | |b]; simpl; try contradiction.
  - intros _. left. reflexivity.
  - intros H. apply (drawdown_at_peak b a H).
Qed.

Lemma drawdown_along_peaks ms cs :
  Forall2 same ms cs ->
  Forall nan_or_zero (zip_with (fun c m => fdiv (fsub c m) m) cs ms).
Proof.
  induction 1 as [|m c ms cs Hm _ IH]; [constructor|].
  cbn [zip_with]. constructor; [apply drawdown_at_same, Hm|exact IH].
Qed.

(** After a first return of -1 the curve holds zeros and NaN only. *)
Lemma cumprod_from_zero acc (s : Series) :
  nan_or_zero acc -> Forall nan_or_zero (cumprod_from acc s).
Proof.
  revert acc. induction s as [|x s IH]; intros acc Hacc; [constructor|].
  cbn [cumprod_from]. destruct (is_nan x).
  - constructor; [left; reflexivity|apply IH, Hacc].
  - assert (Hnext : nan_or_zero (fmul acc x)).
    { destruct Hacc as [->|(a & -> & Ha)]; [left; reflexivity|].
      destruct x as [| | |y].
      - left. reflexivity.
      - left. simpl. apply Qsign_eq in Ha. rewrite Ha. reflexivity.
      - left. simpl. apply Qsign_eq in Ha. rewrite Ha. reflexivity.
      - right. eexists. split; [reflexivity|]. rewrite Ha. ring. }
    constructor; [exact Hnext|apply IH, Hnext].
Qed.

Lemma expanding_max_from_zero m (cs : Series) :
  nan_or_zero m -> Forall nan_or_zero cs ->
  Forall nan_or_zero (expanding_max_from m cs).
Proof.
  intros Hm Hcs. revert m Hm. induction Hcs as [|c cs Hc _ IH]; intros m Hm;
    [constructor|].
  cbn [expanding_max_from].
  assert (Hnext : nan_or_zero (max_skipna m c)).
  { destruct Hm as [->|(a & -> & Ha)]; [exact Hc|].
    destruct Hc as [->|(b & -> & Hb)]; simpl.
    - right. exists a. auto.
    - destruct (Qltb a b); right; [exists b|exists a]; auto. }
  constructor; [exact Hnext|apply IH, Hnext].
Qed.

Lemma drawdown_over_zero c m :
  nan_or_zero c -> nan_or_zero m -> fdiv (fsub c m) m = NaN.
Proof.
  intros [->|(a & -> & Ha)] [->|(b & -> & Hb)]; try reflexivity.
  simpl. apply Qsign_eq in Hb. rewrite Hb.
  assert (E : Qsign (a + - b) = Eq).
  { apply Qsign_eq. apply Qsign_eq in Hb. rewrite Ha, Hb. ring. }
  rewrite E. reflexivity.
Qed.

Lemma drawdowns_over_zero (cs ms : Series) :
  Forall nan_or_zero cs -> Forall nan_or_zero ms ->
  Forall (fun d => d = NaN) (zip_with (fun c m => fdiv (fsub c m) m) cs ms).
Proof.
  intros Hcs. revert ms. induction Hcs as [|c cs Hc _ IH]; intros ms Hms;
    [constructor|].
  destruct Hms as [|m ms Hm Hms]; [constructor|].
  cbn [zip_with]. constructor; [apply drawdown_over_zero; assumption|].
  apply IH, Hms.
Qed.

Lemma fold_min_all_nan (s : Series) :
  Forall (fun d => d = NaN) s -> fold_left min_skipna s NaN = NaN.
Proof.
  induction 1 as [|d s -> _ IH]; [reflexivity|exact IH].
Qed.

(** C6, as the code has it.  For a return series whose first return is a
    finite number other than -1 (so that the compounded curve does not
    start at zero), whatever follows it, the max drawdown is <= 0, and it
    is zero when the compounded curve never falls.  For a series whose
    first return is -1, whatever follows it, every drawdown is 0/0 and the
    max drawdown is NaN. *)
Theorem max_drawdown_nonpositive (r0 : Q) (rest : Series) :
  let returns := Fin r0 :: rest in
  (~ (r0 == -1)%Q ->
   fle (max_drawdown returns) (Fin 0) /\
   (non_decreasing (cumulative_returns returns) ->
    is_zero (max_drawdown returns))) /\
  ((r0 == -1)%Q -> max_drawdown returns = NaN).
Proof.
  intros returns.
  set (c0 := (1 * (1 + r0))%Q).
  set (cs := cumprod_from (Fin c0) (map (fadd (Fin 1)) rest)).
  assert (Hdd : drawdown returns
    = fdiv (fsub (Fin c0) (Fin c0)) (Fin c0)
      :: zip_with (fun c m => fdiv (fsub c m) m) cs
           (expanding_max_from (Fin c0) cs))
    by (apply drawdown_cons).
  split.
  - intros Hr0.
    assert (Hc0 : ~ (c0 == 0)%Q) by (unfold c0; intros H; apply Hr0; lra).
    pose proof (drawdown_first_zero c0 Hc0) as Hz0.
    split.
    + apply fleb_fle. unfold max_drawdown.
      apply (scaled_nonpositive _ _ Hz0). unfold series_min.
      apply (proj2 (fold_min_le (drawdown returns) NaN)).
      * rewrite Hdd. left. reflexivity.
      * destruct Hz0 as (q & -> & _). discriminate.
    + intros Hmono. unfold returns in Hmono.
      rewrite cumulative_returns_cons in Hmono. fold c0 in Hmono.
      fold cs in Hmono. apply non_decreasing_cons in Hmono.
      assert (Hmin : is_zero (series_min (drawdown returns))).
      { unfold series_min. rewrite Hdd. apply fold_min_zero.
        - left. reflexivity.
        - constructor; [right; exact Hz0|].
          apply drawdown_along_peaks.
          apply (expanding_max_nondecr cs (Fin c0) (Fin c0));
            [simpl; reflexivity|exact Hmono].
        - right. apply Exists_cons. left. exact Hz0. }
      unfold max_drawdown. destruct Hmin as (q & -> & Hq). simpl.
      eexists. split; [reflexivity|]. rewrite Hq. lra.
  - intros Hr0.
    assert (Hc0 : nan_or_zero (Fin c0)).
    { right. exists c0. split; [reflexivity|]. unfold c0. rewrite Hr0. ring. }
    assert (Hcs : Forall nan_or_zero cs) by (apply cumprod_from_zero, Hc0).
    assert (Hall : Forall (fun d => d = NaN) (drawdown returns)).
    { rewrite Hdd. constructor.
      - apply drawdown_over_zero; exact Hc0.
      - apply drawdowns_over_zero; [exact Hcs|].
        apply expanding_max_from_zero; assumption. }
    unfold max_drawdown, series_min.
    rewrite (fold_min_all_nan _ Hall). reflexivity.
Qed.

Lemma max_drawdown_nonpositive_witness :
  ~ (1 # 10 == -1)%Q /\
  fle (max_drawdown (map Fin [(1 # 10)%Q; (- (1 # 2))%Q; (1 # 5)%Q])) (Fin 0).
Proof.
  assert (H : ~ (1 # 10 == -1)%Q) by (intros H; vm_compute in H; discriminate).
  split; [exact H|].
  exact (proj1 (proj1 (max_drawdown_nonpositive (1 # 10)%Q
                         (map Fin [(- (1 # 2))%Q; (1 # 5)%Q])) H)).
Defined.

(** A return of -1 (the price falls to zero) at the first bar makes every
    drawdown 0/0: the max drawdown is NaN, which is not <= 0, although the
    compounded curve (a single point) never falls. *)
Lemma max_drawdown_total_loss_nan :
  max_drawdown [Fin (-1)%Q] = NaN /\
  non_decreasing (cumulative_returns [Fin (-1)%Q]) /\
  ~ fle (max_drawdown [Fin (-1)%Q]) (Fin 0) /\
  ~ is_zero (max_drawdown [Fin (-1)%Q]).
Proof.
  split; [reflexivity|]. split; [|split].
  - intros i Hi. simpl in Hi. lia.
  - intros H. vm_compute in H. inversion H.
  - intros (q & H & _). vm_compute in H. discriminate.
Qed.

Example max_drawdown_sample :
  exists q, max_drawdown (map Fin [(1 # 10)%Q; (- (1 # 2))%Q; (1 # 5)%Q]) = Fin q
            /\ (q == - 50)%Q.
Proof. eexists. split; [vm_compute; reflexivity|]. vm_compute. reflexivity. Qed.

(** An infinite return later in the series leaves the bound in place: the
    drawdown is NaN from there on and the minimum skips it. *)
Example max_drawdown_after_infinity :
  exists q, max_drawdown [Fin (- (1 # 2))%Q; PInf; Fin (1 # 5)%Q] = Fin q
            /\ (q == 0)%Q.
Proof. eexists. split; [vm_compute; reflexivity|]. vm_compute. reflexivity. Qed.

End RiskMetrics.

(** ** Data loading ([StockDataLoader], [clean_stock_data]) *)

Module DataLoader.

(** One fetched row after the core columns have been selected: the parsed
    trade date (the index) and the five numeric columns.  The provider
    delivers floats, on which [pd.to_numeric] is the identity. *)
Record bar := {
  trade_date : Z;
  Open : fval;
  High : fval;
  Low : fval;
  Close : fval;
  Volume : fval
}.

Inductive exn : Type :=
| ValueError
| FetchError.

Definition columns (r : bar) : list fval :=
  [Open r; High r; Low r; Close r; Volume r].

Definition is_inf (a : fval) : bool :=
  match a with PInf | NInf => true | _ => false end.

(** Equality of two values that are not NaN, as [drop_duplicates] sees it. *)
Definition feqb (a b : fval) : bool :=
  match a, b with
  | PInf, PInf | NInf, NInf => true
  | Fin x, Fin y => Qeq_bool x y
  | _, _ => false
  end.

Definition same_columns (r1 r2 : bar) : bool :=
  forallb (fun p => feqb (fst p) (snd p)) (combine (columns r1) (columns r2)).

(** [df.dropna()]: rows with a NaN in some column go. *)
Definition dropna (df : list bar) : list bar :=
  List.filter (fun r => negb (existsb is_nan (columns r))) df.

(** [df.drop_duplicates()]: of the rows with equal column values (the index
    is not compared) the first one stays. *)
Fixpoint drop_duplicates_from (seen : list bar) (df : list bar) : list bar :=
  match df with
  | [] => []
  | r :: df' =>
      if existsb (same_columns r) seen then drop_duplicates_from seen df'
      else r :: drop_duplicates_from (r :: seen) df'
  end.

Definition drop_duplicates (df : list bar) : list bar :=
  drop_duplicates_from [] df.

(** [df.replace([np.inf, -np.inf], np.nan).dropna()]. *)
Definition drop_infinite (df : list bar) : list bar :=
  List.filter (fun r => negb (existsb is_inf (columns r))) (dropna df).

(** [clean_stock_data] of [utils/helpers.py].  Its first loop converts the
    columns named [open], [high], [low], [close], [vol] with
    [pd.to_numeric]; the frame it receives from [_preprocess_data] has them
    renamed to [Open], ..., [Volume], so that no column is converted. *)
Definition clean_stock_data (df : list bar) : list bar :=
  drop_infinite (drop_duplicates (dropna df)).

(** [sort_values('trade_date', ascending=True)], as an insertion sort. *)
Fixpoint insert_by_date (r : bar) (sorted : list bar) : list bar :=
  match sorted with
  | [] => [r]
  | r' :: rest =>
      if (trade_date r <=? trade_date r')%Z then r :: sorted
      else r' :: insert_by_date r rest
  end.

Definition sort_values (df : list bar) : list bar :=
  fold_right insert_by_date [] df.

(** The frame as it stands when its length is checked. *)
Definition cleaned (df : list bar) : list bar :=
  clean_stock_data (sort_values df).

(** [_preprocess_data]: sort, clean, then refuse fewer than 30 rows. *)
Definition _preprocess_data (df : list bar) : exn + list bar :=
  let df := sort_values df in
  let df := clean_stock_data df in
  if length df <? 30 then inl ValueError else inr df.

(** [get_daily_data], given the outcome of the provider call
    [self.pro.daily(...)]: an empty frame is refused, and any exception is
    printed and raised again. *)
Definition get_daily_data (fetched : exn + list bar) : exn + list bar :=
  match fetched with
  | inl e => inl e
  | inr df =>
      match df with
      | [] => inl ValueError
      | _ => _preprocess_data df
      end
  end.

(** C7.  When the cleaned frame has fewer than 30 bars, preprocessing and
    [get_daily_data] end in [ValueError] and hand no frame to the caller;
    when it has 30 bars or more, both return the cleaned frame. *)
Theorem preprocess_minimum_bars (df : list bar) :
  (length (cleaned df) < 30 ->
     _preprocess_data df = inl ValueError /\
     get_daily_data (inr df) = inl ValueError) /\
  (30 <= length (cleaned df) ->
     _preprocess_data df = inr (cleaned df) /\
     get_daily_data (inr df) = inr (cleaned df)).
Proof.
  unfold get_daily_data, _preprocess_data, cleaned. split; intros H.
  - apply Nat.ltb_lt in H. rewrite H. destruct df; split; reflexivity.
  - destruct df as [|r df]; [simpl in H; lia|].
    assert (H' : (length (clean_stock_data (sort_values (r :: df))) <? 30)
                 = false) by (apply Nat.ltb_ge; exact H).
    rewrite H'. split; reflexivity.
Qed.

Definition sample_bar (k : nat) : bar :=
  {| trade_date := 20240101 - Z.of_nat k;
     Open := Fin (inject_Z (Z.of_nat (10 + k)));
     High := Fin (inject_Z (Z.of_nat (12 + k)));
     Low := Fin (inject_Z (Z.of_nat (9 + k)));
     Close := Fin (inject_Z (Z.of_nat (11 + k)));
     Volume := Fin 1000 |}.

Definition sample_frame (n : nat) : list bar := map sample_bar (seq 0 n).

Lemma preprocess_minimum_bars_witness :
  (length (cleaned (sample_frame 29)) < 30 /\
   get_daily_data (inr (sample_frame 29)) = inl ValueError) /\
  (30 <= length (cleaned (sample_frame 30)) /\
   get_daily_data (inr (sample_frame 30)) = inr (cleaned (sample_frame 30))).
Proof.
  assert (H29 : length (cleaned (sample_frame 29)) < 30)
    by (vm_compute; lia).
  assert (H30 : 30 <= length (cleaned (sample_frame 30)))
    by (vm_compute; lia).
  split.
  - split; [exact H29|].
    exact (proj2 (proj1 (preprocess_minimum_bars (sample_frame 29)) H29)).
  - split; [exact H30|].
    exact (proj2 (proj2 (preprocess_minimum_bars (sample_frame 30)) H30)).
Defined.

(** Rows that repeat the column values of an earlier day are dropped
    before the count: thirty fetched rows may leave fewer than thirty. *)
Example duplicates_count_once :
  length (cleaned (map (fun k => {| trade_date := Z.of_nat k;
                                    Open := Fin 10; High := Fin 10;
                                    Low := Fin 10; Close := Fin 10;
                                    Volume := Fin 0 |}) (seq 0 30))) = 1.
Proof. vm_compute. reflexivity. Qed.

End DataLoader.

(** ** Indicator objects and the frames they hold

    A DataFrame is a mutable object: the store maps the address of every
    frame to its current content, so that the caller's frame and the copy an
    indicator object keeps in [self.data] are told apart. *)

Record DataFrame := mkDF {
  df_index : list Z;
  df_columns : gmap string Series
}.

Abbreviation store := (gmap nat DataFrame).

(** [data.copy()]: a new frame object with the same content. *)
Definition copy_frame (a : nat) (h : store) : option (nat * store) :=
  match h !! a with
  | Some df => let a' := fresh (dom h) in Some (a', <[a' := df]> h)
  | None => None
  end.

(** [data[key].values.astype(np.float64)]: a new array read off a column
    ([None]: [KeyError]). *)
Definition values_of (a : nat) (key : string) (h : store) : option Series :=
  match h !! a with
  | Some df => df_columns df !! key
  | None => None
  end.

Definition with_column (key : string) (s : Series) (df : DataFrame)
  : DataFrame :=
  mkDF (df_index df) (<[key := s]> (df_columns df)).

(** [frame[key] = series] on the frame at address [a]. *)
Definition set_column (a : nat) (key : string) (s : Series) (h : store)
  : store :=
  alter (with_column key s) a h.

(** [for key, series in d.items(): frame[key] = series]; the keys of a dict
    are distinct, so the order of the assignments is immaterial. *)
Definition set_columns (a : nat) (d : gmap string Series) (h : store)
  : store :=
  alter (fun df => mkDF (df_index df) (d ∪ df_columns df)) a h.

Definition has_column (a : nat) (key : string) (h : store) : bool :=
  match values_of a key h with Some _ => true | None => false end.

(** Element-wise arithmetic of Series over one index. *)
Definition series_sub (a b : Series) : Series := zip_with fsub a b.
Definition series_div (a b : Series) : Series := zip_with fdiv a b.

Lemma set_columns_other a d (h : store) b : a <> b ->
  set_columns a d h !! b = h !! b.
Proof. intros Hne. unfold set_columns. apply lookup_alter_ne. exact Hne. Qed.

Lemma set_column_other a key s (h : store) b : a <> b ->
  set_column a key s h !! b = h !! b.
Proof. intros Hne. unfold set_column. apply lookup_alter_ne. exact Hne. Qed.

Lemma set_columns_twice a d (h : store) :
  set_columns a d (set_columns a d h) = set_columns a d h.
Proof.
  unfold set_columns. apply map_eq. intros b.
  destruct (decide (a = b)) as [<-|Hne].
  - rewrite !lookup_alter_eq. destruct (h !! a) as [df|]; [|reflexivity].
    simpl. do 2 f_equal. rewrite (assoc_L (∪)). rewrite (idemp_L (∪)).
    reflexivity.
  - rewrite !lookup_alter_ne by exact Hne. reflexivity.
Qed.

Lemma set_column_twice a key s (h : store) :
  set_column a key s (set_column a key s h) = set_column a key s h.
Proof.
  unfold set_column. apply map_eq. intros b.
  destruct (decide (a = b)) as [<-|Hne].
  - rewrite !lookup_alter_eq. destruct (h !! a) as [df|]; [|reflexivity].
    simpl. unfold with_column. simpl. rewrite insert_insert_eq. reflexivity.
  - rewrite !lookup_alter_ne by exact Hne. reflexivity.
Qed.

Lemma copy_frame_spec a (h : store) a' h' df :
  h !! a = Some df -> copy_frame a h = Some (a', h') ->
  a' <> a /\ h' !! a = Some df /\ h' !! a' = Some df.
Proof.
  unfold copy_frame. intros Ha. rewrite Ha. intros [= <- <-].
  assert (Hfresh : fresh (dom h) <> a).
  { intros E. pose proof (is_fresh (dom h)) as Hf. rewrite E in Hf.
    apply Hf. apply elem_of_dom. eauto. }
  split; [exact Hfresh|]. split.
  - rewrite lookup_insert_ne by exact Hfresh. exact Ha.
  - apply lookup_insert_eq.
Qed.

(** ** Bollinger bands ([indicators/bollinger.py]) *)

Module Bollinger.

Record BollingerBands := mkBB {
  data : nat;                          (* address of [self.data] *)
  close : Series;                      (* [self.close] *)
  bollinger_data : gmap string Series  (* [self.bollinger_data] *)
}.

(** [BOLLINGER_CONFIG] of [utils/config.py]. *)
Definition config_period : nat := 20.
Definition config_std_dev : fval := Fin 2.

Section WithTALib.

(** [talib.BBANDS(real, timeperiod, nbdevup, nbdevdn, matype=0)], a routine
    of the TA-Lib library: any function of its arguments. *)
Variable BBANDS : Series -> nat -> fval -> fval -> Series * Series * Series.

(** The constructor; [None] with the store reached when it raises. *)
Definition __init__ (data_arg : nat) (h : store)
  : option BollingerBands * store :=
  match copy_frame data_arg h with
  | Some (a, h') =>
      match values_of data_arg "Close" h' with
      | Some c =>
          (Some {| data := a; close := c; bollinger_data := ∅ |}, h')
      | None => (None, h')
      end
  | None => (None, h)
  end.

Definition calculate_bollinger_bands (period : option nat)
    (std_dev : option fval) (self : BollingerBands) (h : store)
  : gmap string Series * BollingerBands * store :=
  let period := default config_period period in
  let std_dev := default config_std_dev std_dev in
  let '(upper, middle, lower) :=
    BBANDS (close self) period std_dev std_dev in
  let d : gmap string Series :=
    <["BB_Lower" := lower]> (<["BB_Middle" := middle]>
      (<["BB_Upper" := upper]> ∅)) in
  (d,
   {| data := data self; close := close self; bollinger_data := d |},
   set_columns (data self) d h).

(** [if not self.bollinger_data: self.calculate_bollinger_bands()]. *)
Definition ensure_bands (self : BollingerBands) (h : store)
  : BollingerBands * store :=
  if decide (bollinger_data self = ∅) then
    let '(_, self', h') := calculate_bollinger_bands None None self h in
    (self', h')
  else (self, h).

(** The result is [None] when a key is missing from the dict
    ([KeyError]); the object and the store are those reached by then. *)
Definition calculate_band_width (self : BollingerBands) (h : store)
  : option Series * BollingerBands * store :=
  let '(self, h) := ensure_bands self h in
  match bollinger_data self !! "BB_Upper",
        bollinger_data self !! "BB_Lower",
        bollinger_data self !! "BB_Middle" with
  | Some upper, Some lower, Some middle =>
      let band_width := series_div (series_sub upper lower) middle in
      (Some band_width, self,
       set_column (data self) "BB_Width" band_width h)
  | _, _, _ => (None, self, h)
  end.

Definition calculate_percent_b (self : BollingerBands) (h : store)
  : option Series * BollingerBands * store :=
  let '(self, h) := ensure_bands self h in
  let close_prices := close self in
  match bollinger_data self !! "BB_Upper",
        bollinger_data self !! "BB_Lower" with
  | Some upper, Some lower =>
      let percent_b :=
        series_div (series_sub close_prices lower) (series_sub upper lower) in
      (Some percent_b, self,
       set_column (data self) "Percent_B" percent_b h)
  | _, _ => (None, self, h)
  end.

End WithTALib.

(** *** The bands, from their definition *)

(** Square root of a rational, rounded down to a multiple of
    [1 / (10^8 * den)]; it vanishes only at zero (and below). *)
Definition Qsqrt (q : Q) : Q :=
  Z.sqrt (Qnum q * Zpos (Qden q) * 10 ^ 16) # (Qden q * 10 ^ 8).

Definition fsqrt (a : fval) : fval :=
  match a with
  | Fin q => if Qltb q 0 then NaN else Fin (Qsqrt q)
  | PInf => PInf
  | _ => NaN
  end.

(** The [period] values that end at position [i]. *)
Definition window {A} (s : list A) (period i : nat) : list A :=
  firstn period (skipn (S i - period) s).

Definition variance (w : Series) : fval :=
  let mu := mean w in
  mean (map (fun x => fmul (fsub x mu) (fsub x mu)) w).

Definition rolling_std (w : Series) : fval := fsqrt (variance w).

Definition band_at (s : Series) (period : nat) (nbdevup nbdevdn : fval)
    (i : nat) : fval * fval * fval :=
  if S i <? period then (NaN, NaN, NaN)
  else
    let w := window s period i in
    let middle := mean w in
    let sd := rolling_std w in
    (fadd middle (fmul nbdevup sd), middle, fsub middle (fmul nbdevdn sd)).

(** Modelled from the spec: [talib.BBANDS] is not part of the sources.
    Spec, section 4.2: middle = SMA(period); upper/lower = middle +-
    k * rolling_std(period); values are undefined (NaN) through the warm-up
    window of [period - 1] bars.  The standard deviation is the population
    one. *)
Definition BBANDS_model (s : Series) (period : nat) (nbdevup nbdevdn : fval)
  : Series * Series * Series :=
  let rows := map (band_at s period nbdevup nbdevdn) (seq 0 (length s)) in
  (map (fun r => fst (fst r)) rows,
   map (fun r => snd (fst r)) rows,
   map snd rows).

(** A whole session: the caller's frame with a [Close] column, the
    object built on it, the bands, then %B.  The result lists the upper
    band, the lower band and %B. *)
Definition caller_frame (closes : Series) : store :=
  {[ 0 := mkDF (map Z.of_nat (seq 0 (length closes)))
               {[ "Close" := closes ]} ]}.

Definition percent_b_session (period : nat) (std_dev : fval)
    (closes : Series) : option (Series * Series * Series) :=
  match __init__ 0 (caller_frame closes) with
  | (Some self, h) =>
      let '(bands, self1, h1) :=
        calculate_bollinger_bands BBANDS_model (Some period) (Some std_dev)
                                  self h in
      match bands !! "BB_Upper", bands !! "BB_Lower",
            calculate_percent_b BBANDS_model self1 h1 with
      | Some upper, Some lower, (Some percent_b, _, _) =>
          Some (upper, lower, percent_b)
      | _, _, _ => None
      end
  | (None, _) => None
  end.

(** *** Positions and signs *)

Lemma Qsign_of_nat_pos n :
  0 < n -> Qsign (inject_Z (Z.of_nat n)) = Gt.
Proof. intros Hn. unfold Qsign. simpl. apply Z.compare_gt_iff. lia. Qed.

Lemma inject_nat_pos n : 0 < n -> (0 < inject_Z (Z.of_nat n))%Q.
Proof. intros Hn. unfold Qlt. simpl. lia. Qed.

Lemma at_overflow (s : Series) i : length s <= i -> at_ s i = NaN.
Proof. intros H. unfold at_. apply nth_overflow. exact H. Qed.

Lemma at_zip_with (f : fval -> fval -> fval) (a b : Series) i :
  i < length a -> i < length b ->
  at_ (zip_with f a b) i = f (at_ a i) (at_ b i).
Proof.
  revert b i. induction a as [|x a IH]; intros [|y b] i Ha Hb;
    simpl in *; try lia.
  destruct i as [|i]; [reflexivity|]. unfold at_ in *. simpl.
  apply IH; lia.
Qed.

Lemma at_map_fin (qs : list Q) i :
  i < length qs -> at_ (map Fin qs) i = Fin (nth i qs 0%Q).
Proof.
  intros Hi. unfold at_.
  rewrite (nth_indep _ NaN (Fin 0)) by (rewrite length_map; exact Hi).
  apply map_nth.
Qed.

Lemma bands_nonempty (upper middle lower : Series) :
  (<["BB_Lower" := lower]> (<["BB_Middle" := middle]>
     (<["BB_Upper" := upper]> (∅ : gmap string Series)))) <> ∅.
Proof. apply insert_non_empty. Qed.

Lemma bands_held (self : BollingerBands) key (s : Series) :
  bollinger_data self !! key = Some s -> bollinger_data self <> ∅.
Proof. intros H E. rewrite E, lookup_empty in H. discriminate. Qed.

Lemma Qsign_positive x : (0 < x)%Q -> Qsign x = Gt.
Proof.
  destruct x as [n d]. unfold Qlt, Qsign. simpl. intros H.
  apply Z.compare_gt_iff. lia.
Qed.

Lemma Qsign_negative x : (x < 0)%Q -> Qsign x = Lt.
Proof.
  destruct x as [n d]. unfold Qlt, Qsign. simpl. intros H.
  apply Z.compare_lt_iff. lia.
Qed.

(** The quotient %B at one bar whose two bands are the same number. *)
Lemma percent_b_value (c u l : Q) :
  (u == l)%Q ->
  ((c == l)%Q ->
   fdiv (fsub (Fin c) (Fin l)) (fsub (Fin u) (Fin l)) = NaN) /\
  ((l < c)%Q ->
   fdiv (fsub (Fin c) (Fin l)) (fsub (Fin u) (Fin l)) = PInf) /\
  ((c < l)%Q ->
   fdiv (fsub (Fin c) (Fin l)) (fsub (Fin u) (Fin l)) = NInf).
Proof.
  intros Hul. simpl.
  assert (Hden : Qsign (u + - l) = Eq) by (apply Qsign_eq; lra).
  rewrite Hden.
  split; [|split]; intros H.
  - assert (E : Qsign (c + - l) = Eq) by (apply Qsign_eq; lra).
    rewrite E. reflexivity.
  - assert (E : Qsign (c + - l) = Gt) by (apply Qsign_positive; lra).
    rewrite E. reflexivity.
  - assert (E : Qsign (c + - l) = Lt) by (apply Qsign_negative; lra).
    rewrite E. reflexivity.
Qed.

(** C4, as the code has it.  [calculate_percent_b] divides without a
    guard.  For an object that holds its bands (each of the length of the
    close series), whatever routine computed them, the method returns a
    series of that length and does not raise; at every position where the
    upper and the lower band are the same number, %B is NaN when the close
    is that number (0/0), plus infinity when the close lies above it and
    minus infinity when the close lies below it. *)
Theorem percent_b_on_zero_width
    (BBANDS : Series -> nat -> fval -> fval -> Series * Series * Series)
    (self : BollingerBands) (h : store) (upper lower : Series)
    (Hupper : bollinger_data self !! "BB_Upper" = Some upper)
    (Hlower : bollinger_data self !! "BB_Lower" = Some lower)
    (Hlu : length upper = length (close self))
    (Hll : length lower = length (close self)) :
  exists percent_b h',
    calculate_percent_b BBANDS self h = (Some percent_b, self, h') /\
    length percent_b = length (close self) /\
    forall i u l c,
      at_ upper i = Fin u -> at_ lower i = Fin l -> (u == l)%Q ->
      at_ (close self) i = Fin c ->
      ((c == l)%Q -> at_ percent_b i = NaN) /\
      ((l < c)%Q -> at_ percent_b i = PInf) /\
      ((c < l)%Q -> at_ percent_b i = NInf).
Proof.
  unfold calculate_percent_b, ensure_bands.
  destruct (decide (bollinger_data self = ∅)) as [E|_];
    [exfalso; exact (bands_held self _ _ Hupper E)|].
  rewrite Hupper, Hlower. do 2 eexists. split; [reflexivity|]. split.
  - unfold series_div, series_sub. rewrite !length_zip_with. lia.
  - intros i u l c HU HL Hul Hc.
    assert (Hi : i < length (close self)).
    { destruct (Nat.lt_ge_cases i (length (close self))) as [?|Hge];
        [assumption|].
      rewrite at_overflow in Hc by exact Hge. discriminate. }
    unfold series_div, series_sub.
    rewrite !at_zip_with by (rewrite ?length_zip_with; lia).
    rewrite HU, HL, Hc. apply percent_b_value, Hul.
Qed.

Lemma percent_b_on_zero_width_witness :
  let self := {| data := 0; close := map Fin [1%Q; 3%Q; 2%Q; 1%Q];
                 bollinger_data :=
                   <["BB_Lower" := [NaN; Fin 2; Fin 2; Fin 2]]>
                     (<["BB_Upper" := [NaN; Fin 2; Fin 2; Fin 2]]> ∅) |} in
  exists percent_b h',
    calculate_percent_b BBANDS_model self {[ 0 := mkDF [] ∅ ]}
      = (Some percent_b, self, h') /\
    at_ percent_b 1 = PInf /\ at_ percent_b 2 = NaN /\
    at_ percent_b 3 = NInf.
Proof.
  intros self.
  destruct (percent_b_on_zero_width BBANDS_model self {[ 0 := mkDF [] ∅ ]}
              [NaN; Fin 2; Fin 2; Fin 2] [NaN; Fin 2; Fin 2; Fin 2]
              eq_refl eq_refl eq_refl eq_refl)
    as (pb & h' & Hrun & _ & Hat).
  exists pb, h'. split; [exact Hrun|].
  assert (H22 : (2 == 2)%Q) by reflexivity.
  split; [|split].
  - apply (proj1 (proj2 (Hat 1 2%Q 2%Q 3%Q eq_refl eq_refl H22 eq_refl))).
    reflexivity.
  - apply (proj1 (Hat 2 2%Q 2%Q 2%Q eq_refl eq_refl H22 eq_refl)).
    reflexivity.
  - apply (proj2 (proj2 (Hat 3 2%Q 2%Q 1%Q eq_refl eq_refl H22 eq_refl))).
    reflexivity.
Defined.

(** With the multiplier 0 both bands are the moving average: at bar 1 of
    the closes 1, 3 they are numbers and equal (2), the close is 3, and %B
    is 1/0, an infinity and not NaN. *)
Lemma percent_b_infinite_on_zero_width :
  exists upper lower percent_b u l,
    percent_b_session 2 (Fin 0) [Fin 1; Fin 3]
      = Some (upper, lower, percent_b) /\
    at_ upper 1 = Fin u /\ at_ lower 1 = Fin l /\ (u == l)%Q /\
    at_ percent_b 1 = PInf /\ at_ percent_b 1 <> NaN.
Proof.
  do 5 eexists. split; [vm_compute; reflexivity|].
  split; [vm_compute; reflexivity|]. split; [vm_compute; reflexivity|].
  split; [vm_compute; reflexivity|]. split; [reflexivity|discriminate].
Qed.

(** *** Running a calculator twice *)

Section Twice.

Variable BBANDS : Series -> nat -> fval -> fval -> Series * Series * Series.

Lemma calculate_bollinger_bands_twice period std_dev self h :
  let '(r1, self1, h1) := calculate_bollinger_bands BBANDS period std_dev self h in
  let '(r2, self2, h2) := calculate_bollinger_bands BBANDS period std_dev self1 h1 in
  r2 = r1 /\ self2 = self1 /\ h2 = h1.
Proof.
  unfold calculate_bollinger_bands.
  destruct (BBANDS _ _ _ _) as [[U M] L] eqn:E. cbn [close data].
  rewrite E. split; [reflexivity|]. split; [reflexivity|].
  apply set_columns_twice.
Qed.

Lemma ensure_bands_nonempty self h :
  bollinger_data (fst (ensure_bands BBANDS self h)) <> ∅.
Proof.
  unfold ensure_bands. destruct (decide _) as [_|Hne]; [|exact Hne].
  unfold calculate_bollinger_bands.
  destruct (BBANDS _ _ _ _) as [[U M] L]. apply insert_non_empty.
Qed.

Lemma ensure_bands_skip self h :
  bollinger_data self <> ∅ -> ensure_bands BBANDS self h = (self, h).
Proof.
  intros Hne. unfold ensure_bands.
  destruct (decide _) as [E|_]; [contradiction|reflexivity].
Qed.

Lemma calculate_band_width_twice self h :
  let '(r1, self1, h1) := calculate_band_width BBANDS self h in
  let '(r2, self2, h2) := calculate_band_width BBANDS self1 h1 in
  r2 = r1 /\ self2 = self1 /\ h2 = h1.
Proof.
  unfold calculate_band_width.
  pose proof (ensure_bands_nonempty self h) as Hne.
  destruct (ensure_bands BBANDS self h) as [s1 h1]. simpl in Hne.
  destruct (bollinger_data s1 !! "BB_Upper") as [U|] eqn:EU;
    destruct (bollinger_data s1 !! "BB_Lower") as [L|] eqn:EL;
    destruct (bollinger_data s1 !! "BB_Middle") as [M|] eqn:EM;
    rewrite (ensure_bands_skip s1 _ Hne); rewrite ?EU, ?EL, ?EM;
    (split; [reflexivity|]); (split; [reflexivity|]); try reflexivity.
  apply set_column_twice.
Qed.

Lemma calculate_percent_b_twice self h :
  let '(r1, self1, h1) := calculate_percent_b BBANDS self h in
  let '(r2, self2, h2) := calculate_percent_b BBANDS self1 h1 in
  r2 = r1 /\ self2 = self1 /\ h2 = h1.
Proof.
  unfold calculate_percent_b.
  pose proof (ensure_bands_nonempty self h) as Hne.
  destruct (ensure_bands BBANDS self h) as [s1 h1]. simpl in Hne.
  destruct (bollinger_data s1 !! "BB_Upper") as [U|] eqn:EU;
    destruct (bollinger_data s1 !! "BB_Lower") as [L|] eqn:EL;
    rewrite (ensure_bands_skip s1 _ Hne); rewrite ?EU, ?EL;
    (split; [reflexivity|]); (split; [reflexivity|]); try reflexivity.
  apply set_column_twice.
Qed.

(** The calculators write to the frame at [self.data] and nowhere else. *)
Definition writes_only_own (self self' : BollingerBands) (h h' : store)
  : Prop :=
  data self' = data self /\ forall b, b <> data self -> h' !! b = h !! b.

Lemma calculate_bollinger_bands_frame period std_dev self h :
  let '(_, self', h') :=
    calculate_bollinger_bands BBANDS period std_dev self h in
  writes_only_own self self' h h'.
Proof.
  unfold calculate_bollinger_bands.
  destruct (BBANDS _ _ _ _) as [[U M] L]. split; [reflexivity|].
  intros b Hb. apply set_columns_other. congruence.
Qed.

Lemma ensure_bands_frame self h :
  let '(self', h') := ensure_bands BBANDS self h in
  writes_only_own self self' h h'.
Proof.
  unfold ensure_bands. destruct (decide _) as [_|_].
  - pose proof (calculate_bollinger_bands_frame None None self h) as H.
    destruct (calculate_bollinger_bands BBANDS None None self h)
      as [[r self'] h']. exact H.
  - split; [reflexivity|]. intros b _. reflexivity.
Qed.

Lemma calculate_band_width_frame self h :
  let '(_, self', h') := calculate_band_width BBANDS self h in
  writes_only_own self self' h h'.
Proof.
  unfold calculate_band_width.
  pose proof (ensure_bands_frame self h) as H.
  destruct (ensure_bands BBANDS self h) as [self1 h1].
  destruct H as [Hd Hh].
  destruct (bollinger_data self1 !! "BB_Upper");
    destruct (bollinger_data self1 !! "BB_Lower");
    destruct (bollinger_data self1 !! "BB_Middle");
    (split; [exact Hd|]); intros b Hb; try (apply Hh; exact Hb).
  rewrite set_column_other by congruence. apply Hh. exact Hb.
Qed.

Lemma calculate_percent_b_frame self h :
  let '(_, self', h') := calculate_percent_b BBANDS self h in
  writes_only_own self self' h h'.
Proof.
  unfold calculate_percent_b.
  pose proof (ensure_bands_frame self h) as H.
  destruct (ensure_bands BBANDS self h) as [self1 h1].
  destruct H as [Hd Hh].
  destruct (bollinger_data self1 !! "BB_Upper");
    destruct (bollinger_data self1 !! "BB_Lower");
    (split; [exact Hd|]); intros b Hb; try (apply Hh; exact Hb).
  rewrite set_column_other by congruence. apply Hh. exact Hb.
Qed.

End Twice.

End Bollinger.

(** ** KDJ and RSI ([indicators/kdj_rsi.py]) *)

Module KDJ.

Record KDJIndicator := mkKDJ {
  data : nat;
  high : Series;
  low : Series;
  close : Series;
  kdj_data : gmap string Series
}.

(** [KDJ_CONFIG]. *)
Definition config_fastk_period : nat := 9.
Definition config_slowk_period : nat := 3.
Definition config_slowd_period : nat := 3.

Definition __init__ (data_arg : nat) (h : store)
  : option KDJIndicator * store :=
  match copy_frame data_arg h with
  | Some (a, h') =>
      match values_of data_arg "High" h', values_of data_arg "Low" h',
            values_of data_arg "Close" h' with
      | Some hi, Some lo, Some c =>
          (Some {| data := a; high := hi; low := lo; close := c;
                   kdj_data := ∅ |}, h')
      | _, _, _ => (None, h')
      end
  | None => (None, h)
  end.

Section WithTALib.

(** [talib.STOCH(high, low, close, fastk_period, slowk_period,
    slowk_matype=0, slowd_period, slowd_matype=0)]. *)
Variable STOCH :
  Series -> Series -> Series -> nat -> nat -> nat -> Series * Series.

Definition calculate_kdj (fastk_period slowk_period slowd_period : option nat)
    (self : KDJIndicator) (h : store)
  : gmap string Series * KDJIndicator * store :=
  let fastk_period := default config_fastk_period fastk_period in
  let slowk_period := default config_slowk_period slowk_period in
  let slowd_period := default config_slowd_period slowd_period in
  let '(k_values, d_values) :=
    STOCH (high self) (low self) (close self)
          fastk_period slowk_period slowd_period in
  let j_values :=
    zip_with (fun k d => fsub (fmul (Fin 3) k) (fmul (Fin 2) d))
             k_values d_values in
  let d : gmap string Series :=
    <["J" := j_values]> (<["D" := d_values]> (<["K" := k_values]> ∅)) in
  (d,
   {| data := data self; high := high self; low := low self;
      close := close self; kdj_data := d |},
   set_columns (data self) d h).

Lemma calculate_kdj_twice fk sk sd self h :
  let '(r1, self1, h1) := calculate_kdj fk sk sd self h in
  let '(r2, self2, h2) := calculate_kdj fk sk sd self1 h1 in
  r2 = r1 /\ self2 = self1 /\ h2 = h1.
Proof.
  unfold calculate_kdj.
  destruct (STOCH _ _ _ _ _ _) as [K D] eqn:E. cbn [high low close data].
  rewrite E. split; [reflexivity|]. split; [reflexivity|].
  apply set_columns_twice.
Qed.

Lemma calculate_kdj_frame fk sk sd self h :
  let '(_, self', h') := calculate_kdj fk sk sd self h in
  data self' = data self /\ forall b, b <> data self -> h' !! b = h !! b.
Proof.
  unfold calculate_kdj. destruct (STOCH _ _ _ _ _ _) as [K D].
  split; [reflexivity|]. intros b Hb. apply set_columns_other. congruence.
Qed.

End WithTALib.

End KDJ.

Module RSI.

Record RSIIndicator := mkRSI {
  data : nat;
  close : Series
}.

(** [RSI_CONFIG]. *)
Definition config_period : nat := 14.

Definition __init__ (data_arg : nat) (h : store)
  : option RSIIndicator * store :=
  match copy_frame data_arg h with
  | Some (a, h') =>
      match values_of data_arg "Close" h' with
      | Some c => (Some {| data := a; close := c |}, h')
      | None => (None, h')
      end
  | None => (None, h)
  end.

Section WithTALib.

(** [talib.RSI(real, timeperiod)]. *)
Variable RSI : Series -> nat -> Series.

Definition calculate_rsi (period : option nat) (self : RSIIndicator)
    (h : store) : Series * RSIIndicator * store :=
  let period := default config_period period in
  let rsi_values := RSI (close self) period in
  let rsi_series := rsi_values in
  (rsi_series, self, set_column (data self) "RSI" rsi_series h).

Lemma calculate_rsi_twice period self h :
  let '(r1, self1, h1) := calculate_rsi period self h in
  let '(r2, self2, h2) := calculate_rsi period self1 h1 in
  r2 = r1 /\ self2 = self1 /\ h2 = h1.
Proof.
  unfold calculate_rsi. split; [reflexivity|]. split; [reflexivity|].
  apply set_column_twice.
Qed.

Lemma calculate_rsi_frame period self h :
  let '(_, self', h') := calculate_rsi period self h in
  data self' = data self /\ forall b, b <> data self -> h' !! b = h !! b.
Proof.
  unfold calculate_rsi. split; [reflexivity|].
  intros b Hb. apply set_column_other. congruence.
Qed.

End WithTALib.

End RSI.

(** ** Moving averages ([indicators/ma_system.py]) *)

Module MA.

Record MovingAverageSystem := mkMA {
  data : nat;
  close : Series;
  ma_data : gmap string Series;
  signals : gmap string (list bool)
}.

(** [MA_PERIODS]. *)
Definition config_sma : list nat := [5; 10; 20; 60].
Definition config_ema : list nat := [12; 26].

Definition __init__ (data_arg : nat) (h : store)
  : option MovingAverageSystem * store :=
  match copy_frame data_arg h with
  | Some (a, h') =>
      match values_of data_arg "Close" h' with
      | Some c =>
          (Some {| data := a; close := c; ma_data := ∅; signals := ∅ |}, h')
      | None => (None, h')
      end
  | None => (None, h)
  end.

Section WithTALib.

(** [talib.SMA(real, timeperiod)] and [talib.EMA(real, timeperiod)]. *)
Variables SMA EMA : Series -> nat -> Series.

Definition calculate_sma (periods : option (list nat))
    (self : MovingAverageSystem) : gmap string Series :=
  let periods := default config_sma periods in
  foldl (fun sma_results period =>
           <["SMA_" +:+ pretty period := SMA (close self) period]> sma_results)
        ∅ periods.

Definition calculate_ema (periods : option (list nat))
    (self : MovingAverageSystem) : gmap string Series :=
  let periods := default config_ema periods in
  foldl (fun ema_results period =>
           <["EMA_" +:+ pretty period := EMA (close self) period]> ema_results)
        ∅ periods.

(** [dict.update]: the entries of [other] replace those of the dict. *)
Definition update (d other : gmap string Series) : gmap string Series :=
  other ∪ d.

Definition calculate_all_ma (self : MovingAverageSystem) (h : store)
  : gmap string Series * MovingAverageSystem * store :=
  let sma_results := calculate_sma None self in
  let ma := update (ma_data self) sma_results in
  let ema_results := calculate_ema None self in
  let ma := update ma ema_results in
  (ma,
   {| data := data self; close := close self; ma_data := ma;
      signals := signals self |},
   set_columns (data self) ma h).

Lemma update_twice (d a b : gmap string Series) :
  update (update (update (update d a) b) a) b = update (update d a) b.
Proof.
  unfold update. apply map_eq. intros k. rewrite !lookup_union.
  destruct (a !! k), (b !! k), (d !! k); reflexivity.
Qed.

Lemma calculate_all_ma_twice self h :
  let '(r1, self1, h1) := calculate_all_ma self h in
  let '(r2, self2, h2) := calculate_all_ma self1 h1 in
  r2 = r1 /\ self2 = self1 /\ h2 = h1.
Proof.
  unfold calculate_all_ma, calculate_sma, calculate_ema.
  cbn [data close ma_data signals]. rewrite update_twice.
  split; [reflexivity|]. split; [reflexivity|]. apply set_columns_twice.
Qed.

Lemma calculate_all_ma_frame self h :
  let '(_, self', h') := calculate_all_ma self h in
  data self' = data self /\ forall b, b <> data self -> h' !! b = h !! b.
Proof.
  unfold calculate_all_ma. split; [reflexivity|].
  intros b Hb. apply set_columns_other. congruence.
Qed.

End WithTALib.

End MA.

(** ** MACD ([indicators/macd.py]) *)

Module MACD.

Record MACDIndicator := mkMACD {
  data : nat;
  close : Series;
  macd_data : gmap string Series
}.

(** [MACD_CONFIG]. *)
Definition config_fast_period : nat := 12.
Definition config_slow_period : nat := 26.
Definition config_signal_period : nat := 9.

Definition __init__ (data_arg : nat) (h : store)
  : option MACDIndicator * store :=
  match copy_frame data_arg h with
  | Some (a, h') =>
      match values_of data_arg "Close" h' with
      | Some c => (Some {| data := a; close := c; macd_data := ∅ |}, h')
      | None => (None, h')
      end
  | None => (None, h)
  end.

Section WithTALib.

(** [talib.MACD(real, fastperiod, slowperiod, signalperiod)]. *)
Variable MACD : Series -> nat -> nat -> nat -> Series * Series * Series.

Definition calculate_macd (fast_period slow_period signal_period : option nat)
    (self : MACDIndicator) (h : store)
  : gmap string Series * MACDIndicator * store :=
  let fast_period := default config_fast_period fast_period in
  let slow_period := default config_slow_period slow_period in
  let signal_period := default config_signal_period signal_period in
  let '(macd_line, signal_line, histogram) :=
    MACD (close self) fast_period slow_period signal_period in
  let d : gmap string Series :=
    <["Histogram" := histogram]> (<["Signal" := signal_line]>
      (<["MACD" := macd_line]> ∅)) in
  (d,
   {| data := data self; close := close self; macd_data := d |},
   set_columns (data self) d h).

Lemma calculate_macd_twice f sl sg self h :
  let '(r1, self1, h1) := calculate_macd f sl sg self h in
  let '(r2, self2, h2) := calculate_macd f sl sg self1 h1 in
  r2 = r1 /\ self2 = self1 /\ h2 = h1.
Proof.
  unfold calculate_macd.
  destruct (MACD _ _ _ _) as [[m s] hist] eqn:E. cbn [close data].
  rewrite E. split; [reflexivity|]. split; [reflexivity|].
  apply set_columns_twice.
Qed.

Lemma calculate_macd_frame f sl sg self h :
  let '(_, self', h') := calculate_macd f sl sg self h in
  data self' = data self /\ forall b, b <> data self -> h' !! b = h !! b.
Proof.
  unfold calculate_macd. destruct (MACD _ _ _ _) as [[m s] hist].
  split; [reflexivity|]. intros b Hb. apply set_columns_other. congruence.
Qed.

End WithTALib.

End MACD.

(** ** Calculators as methods of indicator objects *)

Section Calculators.

(** The TA-Lib routines the calculators call: any functions. *)
Variable BBANDS : Series -> nat -> fval -> fval -> Series * Series * Series.
Variable STOCH :
  Series -> Series -> Series -> nat -> nat -> nat -> Series * Series.
Variable RSI_ : Series -> nat -> Series.
Variables SMA EMA : Series -> nat -> Series.
Variable MACD_ : Series -> nat -> nat -> nat -> Series * Series * Series.

(** C8.  A calculator called twice in succession on one object with the
    same parameters returns the same series both times (and leaves the
    object and its frame as the first call left them): Bollinger bands,
    band width, %B, KDJ, RSI, the moving averages and MACD. *)
Theorem calculators_idempotent :
  (forall period std_dev self h,
     let '(r1, self1, h1) :=
       Bollinger.calculate_bollinger_bands BBANDS period std_dev self h in
     let '(r2, self2, h2) :=
       Bollinger.calculate_bollinger_bands BBANDS period std_dev self1 h1 in
     r2 = r1 /\ self2 = self1 /\ h2 = h1) /\
  (forall fastk slowk slowd self h,
     let '(r1, self1, h1) := KDJ.calculate_kdj STOCH fastk slowk slowd self h in
     let '(r2, self2, h2) :=
       KDJ.calculate_kdj STOCH fastk slowk slowd self1 h1 in
     r2 = r1 /\ self2 = self1 /\ h2 = h1) /\
  (forall self h,
     let '(r1, self1, h1) := Bollinger.calculate_band_width BBANDS self h in
     let '(r2, self2, h2) := Bollinger.calculate_band_width BBANDS self1 h1 in
     r2 = r1 /\ self2 = self1 /\ h2 = h1) /\
  (forall self h,
     let '(r1, self1, h1) := Bollinger.calculate_percent_b BBANDS self h in
     let '(r2, self2, h2) := Bollinger.calculate_percent_b BBANDS self1 h1 in
     r2 = r1 /\ self2 = self1 /\ h2 = h1) /\
  (forall period self h,
     let '(r1, self1, h1) := RSI.calculate_rsi RSI_ period self h in
     let '(r2, self2, h2) := RSI.calculate_rsi RSI_ period self1 h1 in
     r2 = r1 /\ self2 = self1 /\ h2 = h1) /\
  (forall self h,
     let '(r1, self1, h1) := MA.calculate_all_ma SMA EMA self h in
     let '(r2, self2, h2) := MA.calculate_all_ma SMA EMA self1 h1 in
     r2 = r1 /\ self2 = self1 /\ h2 = h1) /\
  (forall fast slow signal self h,
     let '(r1, self1, h1) := MACD.calculate_macd MACD_ fast slow signal self h in
     let '(r2, self2, h2) :=
       MACD.calculate_macd MACD_ fast slow signal self1 h1 in
     r2 = r1 /\ self2 = self1 /\ h2 = h1).
Proof.
  split; [exact (Bollinger.calculate_bollinger_bands_twice BBANDS)|].
  split; [exact (KDJ.calculate_kdj_twice STOCH)|].
  split; [exact (Bollinger.calculate_band_width_twice BBANDS)|].
  split; [exact (Bollinger.calculate_percent_b_twice BBANDS)|].
  split; [exact (RSI.calculate_rsi_twice RSI_)|].
  split; [exact (MA.calculate_all_ma_twice SMA EMA)|].
  exact (MACD.calculate_macd_twice MACD_).
Qed.

End Calculators.

(** ** The caller's frame *)

Inductive indicator : Type :=
| BollingerObj (o : Bollinger.BollingerBands)
| MAObj (o : MA.MovingAverageSystem)
| KDJObj (o : KDJ.KDJIndicator)
| RSIObj (o : RSI.RSIIndicator)
| MACDObj (o : MACD.MACDIndicator).

Inductive indicator_class : Type :=
| ClassBollingerBands
| ClassMovingAverageSystem
| ClassKDJIndicator
| ClassRSIIndicator
| ClassMACDIndicator.

(** The calculators: the methods that assign into a frame. *)
Inductive calculation : Type :=
| Call_calculate_bollinger_bands (period : option nat) (std_dev : option fval)
| Call_calculate_band_width
| Call_calculate_percent_b
| Call_calculate_all_ma
| Call_calculate_kdj (fastk_period slowk_period slowd_period : option nat)
| Call_calculate_rsi (period : option nat)
| Call_calculate_macd (fast_period slow_period signal_period : option nat).

(** Address of the object's own frame, [self.data]. *)
Definition self_data (obj : indicator) : nat :=
  match obj with
  | BollingerObj o => Bollinger.data o
  | MAObj o => MA.data o
  | KDJObj o => KDJ.data o
  | RSIObj o => RSI.data o
  | MACDObj o => MACD.data o
  end.

(** [cls(data)] for the caller's frame at address [a]. *)
Definition construct (cls : indicator_class) (a : nat) (h : store)
  : option indicator * store :=
  match cls with
  | ClassBollingerBands =>
      let '(o, h') := Bollinger.__init__ a h in (BollingerObj <$> o, h')
  | ClassMovingAverageSystem =>
      let '(o, h') := MA.__init__ a h in (MAObj <$> o, h')
  | ClassKDJIndicator =>
      let '(o, h') := KDJ.__init__ a h in (KDJObj <$> o, h')
  | ClassRSIIndicator =>
      let '(o, h') := RSI.__init__ a h in (RSIObj <$> o, h')
  | ClassMACDIndicator =>
      let '(o, h') := MACD.__init__ a h in (MACDObj <$> o, h')
  end.

(** Construction copies the caller's frame to a new address. *)
Lemma construct_spec cls a (h : store) df :
  h !! a = Some df ->
  snd (construct cls a h) !! a = Some df /\
  forall obj, fst (construct cls a h) = Some obj ->
    self_data obj <> a /\
    snd (construct cls a h) !! self_data obj = Some df.
Proof.
  intros Ha.
  destruct (copy_frame a h) as [[a' h']|] eqn:E;
    [|unfold copy_frame in E; rewrite Ha in E; discriminate].
  destruct (copy_frame_spec a h a' h' df Ha E) as (Hne & Hold & Hnew).
  destruct cls; unfold construct, Bollinger.__init__, MA.__init__,
    KDJ.__init__, RSI.__init__, MACD.__init__; rewrite E;
    repeat match goal with
           | |- context [values_of ?x ?k ?s] => destruct (values_of x k s)
           end;
    simpl; (split; [exact Hold|]); intros obj Hobj;
    try discriminate; injection Hobj as <-; simpl; auto.
Qed.

Section Frames.

Variable BBANDS : Series -> nat -> fval -> fval -> Series * Series * Series.
Variable STOCH :
  Series -> Series -> Series -> nat -> nat -> nat -> Series * Series.
Variable RSI_ : Series -> nat -> Series.
Variables SMA EMA : Series -> nat -> Series.
Variable MACD_ : Series -> nat -> nat -> nat -> Series * Series * Series.

(** One method call, whether it returns or raises: the object and the
    store afterwards.  A method the class does not have raises
    [AttributeError] before anything is done. *)
Definition run (c : calculation) (obj : indicator) (h : store)
  : indicator * store :=
  match c, obj with
  | Call_calculate_bollinger_bands period std_dev, BollingerObj o =>
      let '(_, o', h') :=
        Bollinger.calculate_bollinger_bands BBANDS period std_dev o h in
      (BollingerObj o', h')
  | Call_calculate_band_width, BollingerObj o =>
      let '(_, o', h') := Bollinger.calculate_band_width BBANDS o h in
      (BollingerObj o', h')
  | Call_calculate_percent_b, BollingerObj o =>
      let '(_, o', h') := Bollinger.calculate_percent_b BBANDS o h in
      (BollingerObj o', h')
  | Call_calculate_all_ma, MAObj o =>
      let '(_, o', h') := MA.calculate_all_ma SMA EMA o h in (MAObj o', h')
  | Call_calculate_kdj fk sk sd, KDJObj o =>
      let '(_, o', h') := KDJ.calculate_kdj STOCH fk sk sd o h in
      (KDJObj o', h')
  | Call_calculate_rsi period, RSIObj o =>
      let '(_, o', h') := RSI.calculate_rsi RSI_ period o h in (RSIObj o', h')
  | Call_calculate_macd f sl sg, MACDObj o =>
      let '(_, o', h') := MACD.calculate_macd MACD_ f sl sg o h in
      (MACDObj o', h')
  | _, _ => (obj, h)
  end.

Fixpoint run_all (calls : list calculation) (obj : indicator) (h : store)
  : indicator * store :=
  match calls with
  | [] => (obj, h)
  | c :: calls' => let '(obj', h') := run c obj h in run_all calls' obj' h'
  end.

Lemma run_frame c obj h :
  self_data (fst (run c obj h)) = self_data obj /\
  forall b, b <> self_data obj -> snd (run c obj h) !! b = h !! b.
Proof.
  destruct c, obj as [o|o|o|o|o]; unfold run;
    try (split; [reflexivity | intros; reflexivity]).
  - pose proof (Bollinger.calculate_bollinger_bands_frame BBANDS period std_dev o h) as H.
    destruct (Bollinger.calculate_bollinger_bands _ _ _ _ _) as [[r o'] h'].
    exact H.
  - pose proof (Bollinger.calculate_band_width_frame BBANDS o h) as H.
    destruct (Bollinger.calculate_band_width _ _ _) as [[r o'] h']. exact H.
  - pose proof (Bollinger.calculate_percent_b_frame BBANDS o h) as H.
    destruct (Bollinger.calculate_percent_b _ _ _) as [[r o'] h']. exact H.
  - pose proof (MA.calculate_all_ma_frame SMA EMA o h) as H.
    destruct (MA.calculate_all_ma _ _ _ _) as [[r o'] h']. exact H.
  - pose proof (KDJ.calculate_kdj_frame STOCH fastk_period slowk_period
                  slowd_period o h) as H.
    destruct (KDJ.calculate_kdj _ _ _ _ _ _) as [[r o'] h']. exact H.
  - pose proof (RSI.calculate_rsi_frame RSI_ period o h) as H.
    destruct (RSI.calculate_rsi _ _ _ _) as [[r o'] h']. exact H.
  - pose proof (MACD.calculate_macd_frame MACD_ fast_period slow_period
                  signal_period o h) as H.
    destruct (MACD.calculate_macd _ _ _ _ _ _) as [[r o'] h']. exact H.
Qed.

Lemma run_all_frame calls :
  forall obj h,
    self_data (fst (run_all calls obj h)) = self_data obj /\
    forall b, b <> self_data obj -> snd (run_all calls obj h) !! b = h !! b.
Proof.
  induction calls as [|c calls IH]; intros obj h; simpl.
  - split; [reflexivity|]. intros b _. reflexivity.
  - destruct (run_frame c obj h) as [Hd Hh].
    destruct (run c obj h) as [obj' h']. simpl in Hd, Hh.
    destruct (IH obj' h') as [Hd' Hh']. split; [congruence|].
    intros b Hb. rewrite Hh' by congruence. apply Hh. exact Hb.
Qed.

(** C9.  Building an indicator object on the caller's frame and running
    any sequence of its calculators leaves the caller's frame as it was:
    the object works on a copy at another address, and the calculators
    write to that copy only. *)
Theorem caller_frame_untouched (cls : indicator_class) (a : nat) (h : store)
    (df : DataFrame) (Ha : h !! a = Some df) :
  snd (construct cls a h) !! a = Some df /\
  forall obj, fst (construct cls a h) = Some obj ->
    self_data obj <> a /\
    forall calls,
      snd (run_all calls obj (snd (construct cls a h))) !! a = Some df /\
      forall b, b <> self_data obj ->
        snd (run_all calls obj (snd (construct cls a h))) !! b
        = snd (construct cls a h) !! b.
Proof.
  destruct (construct_spec cls a h df Ha) as [H0 Hobj].
  split; [exact H0|]. intros obj Ho. destruct (Hobj obj Ho) as [Hne _].
  split; [exact Hne|]. intros calls.
  destruct (run_all_frame calls obj (snd (construct cls a h))) as [_ Hh].
  split.
  - rewrite Hh by congruence. exact H0.
  - exact Hh.
Qed.

End Frames.

Definition sample_caller_frame : DataFrame :=
  mkDF [1; 2; 3]%Z
       (<["Close" := [Fin 5; Fin 7; Fin 6]]>
          (<["High" := [Fin 6; Fin 8; Fin 7]]>
             (<["Low" := [Fin 4; Fin 6; Fin 5]]> ∅))).

Lemma caller_frame_untouched_witness :
  let h : store := {[ 0 := sample_caller_frame ]} in
  h !! 0 = Some sample_caller_frame /\
  forall obj, fst (construct ClassBollingerBands 0 h) = Some obj ->
    snd (run_all Bollinger.BBANDS_model
           (fun _ _ _ _ _ _ => ([], [])) (fun _ _ => [])
           (fun _ _ => []) (fun _ _ => []) (fun _ _ _ _ => ([], [], []))
           [Call_calculate_bollinger_bands (Some 2) None;
            Call_calculate_percent_b]
           obj (snd (construct ClassBollingerBands 0 h))) !! 0
    = Some sample_caller_frame.
Proof.
  intros h. split; [reflexivity|]. intros obj Ho.
  pose proof (caller_frame_untouched Bollinger.BBANDS_model
                (fun _ _ _ _ _ _ => ([], [])) (fun _ _ => [])
                (fun _ _ => []) (fun _ _ => []) (fun _ _ _ _ => ([], [], []))
                ClassBollingerBands 0 h sample_caller_frame eq_refl)
    as [_ H].
  destruct (H obj Ho) as [_ Hcalls].
  exact (proj1 (Hcalls [Call_calculate_bollinger_bands (Some 2) None;
                        Call_calculate_percent_b])).
Defined.

(** The copy does receive the derived columns. *)
Example private_copy_gets_columns :
  let h : store := {[ 0 := sample_caller_frame ]} in
  match construct ClassBollingerBands 0 h with
  | (Some obj, h0) =>
      let '(_, h') :=
        run_all Bollinger.BBANDS_model
          (fun _ _ _ _ _ _ => ([], [])) (fun _ _ => [])
          (fun _ _ => []) (fun _ _ => []) (fun _ _ _ _ => ([], [], []))
          [Call_calculate_percent_b] obj h0 in
      has_column (self_data obj) "Percent_B" h' = true /\
      has_column 0 "Percent_B" h' = false
  | _ => False
  end.
Proof. vm_compute. split; reflexivity. Qed.

(** ** RSI, from its definition *)

Module RSIModel.

(** Bar-over-bar change [close[i] - close[i-1]], for [i = 1, 2, ...]. *)
Definition changes (s : Series) : Series := zip_with fsub (tail s) s.

Definition gain (d : fval) : fval := if fltb d (Fin 0) then Fin 0 else d.
Definition loss (d : fval) : fval := if fltb d (Fin 0) then fneg d else Fin 0.

(** Wilder's smoothing: the average of the first [period] values, then
    [avg' = (avg * (period - 1) + x) / period] for each later value. *)
Fixpoint wilder_from (period : nat) (avg : fval) (xs : Series) : Series :=
  match xs with
  | [] => []
  | x :: xs' =>
      let avg' :=
        fdiv (fadd (fmul avg (of_nat (period - 1))) x) (of_nat period) in
      avg' :: wilder_from period avg' xs'
  end.

Definition wilder (period : nat) (xs : Series) : Series :=
  if length xs <? period then []
  else
    let seed := mean (firstn period xs) in
    seed :: wilder_from period seed (skipn period xs).

(** [RSI = 100 - 100 / (1 + RS)], [RS = avg_gain / avg_loss], in float
    arithmetic: with gains and no loss [RS] is plus infinity and the value
    is 100; with neither gain nor loss [RS] is 0/0 and the value is NaN
    (spec, section 8: a flat series gives an RSI of 50 or NaN). *)
Definition rsi_value (avg_gain avg_loss : fval) : fval :=
  let rs := fdiv avg_gain avg_loss in
  fsub (Fin 100) (fdiv (Fin 100) (fadd (Fin 1) rs)).

Definition avg_gains (s : Series) (period : nat) : Series :=
  wilder period (map gain (changes s)).

Definition avg_losses (s : Series) (period : nat) : Series :=
  wilder period (map loss (changes s)).

(** The values of the series: NaN through the warm-up window, here the
    first [period] bars, then the value of the two trailing averages. *)
Definition RSI_values (s : Series) (period : nat) : Series :=
  firstn (length s) (repeat NaN period)
  ++ zip_with rsi_value (avg_gains s period) (avg_losses s period).

(** Modelled from the spec: [talib.RSI] is not part of the sources.  Spec,
    section 4.2: average gain / average loss over trailing [period] bars
    using Wilder-style smoothing; RSI = 100 - 100/(1+RS), RS =
    avg_gain/avg_loss; when avg_loss = 0, RSI = 100 (here: what the
    formula gives when there is a gain; section 8 has 50 or NaN for a flat
    series).  The routine takes a period from 2 on and raises on a smaller
    one; [None] stands for that exception. *)
Definition RSI_model (s : Series) (period : nat) : option Series :=
  if period <? 2 then None else Some (RSI_values s period).

(** [calculate_rsi] with this routine: when the routine raises, so does
    the method, before it writes anything. *)
Definition calculate_rsi (period : option nat) (self : RSI.RSIIndicator)
    (h : store) : option (Series * RSI.RSIIndicator * store) :=
  match RSI_model (RSI.close self) (default RSI.config_period period) with
  | Some rsi_values =>
      Some (RSI.calculate_rsi (fun _ _ => rsi_values) period self h)
  | None => None
  end.






Example rsi_rising :
  RSI_model (map Fin [1%Q; 2%Q; 4%Q; 7%Q]) 2
  = Some [NaN; NaN; Fin 100; Fin 100].
Proof. vm_compute. reflexivity. Qed.

Example rsi_flat :
  RSI_model (map Fin [3%Q; 3%Q; 3%Q; 3%Q]) 2 = Some [NaN; NaN; NaN; NaN].
Proof. vm_compute. reflexivity. Qed.







(** *** Smoothing a series of zeros *)








(** *** Smoothing a series of positive values *)












(** A down move keeps the average loss above zero from then on, and the
    value below 100. *)
Example rsi_after_a_loss :
  exists r v, RSI_model (map Fin [1%Q; 3%Q; 2%Q; 4%Q]) 2 = Some r /\
              at_ r 3 = Fin v /\ (v < 100)%Q.
Proof.
  do 2 eexists. split; [reflexivity|].
  split; [vm_compute; reflexivity|]. vm_compute. reflexivity.
Qed.

End RSIModel.

(** ** What cleaning and loading guarantee *)

Module CleaningFacts.

Import DataLoader.

Definition is_finite (v : fval) : Prop := exists q, v = Fin q.

Definition finite_row (r : bar) : Prop := Forall is_finite (columns r).

(** No row repeats the column values of an earlier one. *)
Fixpoint distinct_rows (df : list bar) : Prop :=
  match df with
  | [] => True
  | r :: df' =>
      Forall (fun r' => same_columns r' r = false) df' /\ distinct_rows df'
  end.

Definition by_date (r r' : bar) : Prop := (trade_date r <= trade_date r')%Z.

Lemma finite_iff v : is_finite v <-> is_nan v = false /\ is_inf v = false.
Proof.
  split.
  - intros (q & ->). split; reflexivity.
  - intros [Hn Hi]. destruct v; try discriminate. exists q. reflexivity.
Qed.

Lemma existsb_false_Forall {A} (f : A -> bool) l :
  existsb f l = false <-> Forall (fun x => f x = false) l.
Proof.
  induction l as [|x l IH]; simpl.
  - split; [constructor|reflexivity].
  - rewrite orb_false_iff, Forall_cons, IH. reflexivity.
Qed.

Lemma filter_sublist {A} (f : A -> bool) l : List.filter f l `sublist_of` l.
Proof.
  induction l as [|x l IH]; simpl; [constructor|].
  destruct (f x); [apply sublist_skip|apply sublist_cons]; exact IH.
Qed.

Lemma filter_all {A} (f : A -> bool) l :
  Forall (fun x => f x = true) l -> List.filter f l = l.
Proof.
  induction 1 as [|x l Hx _ IH]; simpl; [reflexivity|].
  rewrite Hx, IH. reflexivity.
Qed.

Lemma drop_duplicates_from_sublist seen df :
  drop_duplicates_from seen df `sublist_of` df.
Proof.
  revert seen. induction df as [|r df IH]; intros seen; simpl; [constructor|].
  destruct (existsb (same_columns r) seen);
    [apply sublist_cons|apply sublist_skip]; apply IH.
Qed.

Lemma clean_sublist df : clean_stock_data df `sublist_of` df.
Proof.
  unfold clean_stock_data, drop_infinite, drop_duplicates.
  etrans; [apply filter_sublist|].
  etrans; [apply filter_sublist|].
  etrans; [apply drop_duplicates_from_sublist|].
  apply filter_sublist.
Qed.

Lemma distinct_rows_sublist l1 l2 :
  l1 `sublist_of` l2 -> distinct_rows l2 -> distinct_rows l1.
Proof.
  induction 1 as [|x l1 l2 Hs IH|x l1 l2 Hs IH]; simpl; [trivial| |].
  - intros [Hx Hd]. split; [|apply IH, Hd].
    rewrite Forall_forall in Hx |- *. intros r Hr. apply Hx.
    eapply sublist_subseteq; eassumption.
  - intros [_ Hd]. apply IH, Hd.
Qed.

(** What [drop_duplicates_from] keeps differs from everything seen and
    from everything kept before. *)
Lemma drop_duplicates_from_distinct seen df :
  Forall (fun r' => Forall (fun s => same_columns r' s = false) seen)
         (drop_duplicates_from seen df) /\
  distinct_rows (drop_duplicates_from seen df).
Proof.
  revert seen. induction df as [|r df IH]; intros seen; simpl.
  - split; [constructor|exact I].
  - destruct (existsb (same_columns r) seen) eqn:E; [apply IH|].
    destruct (IH (r :: seen)) as [Hseen Hd]. simpl. split; [|split].
    + constructor; [apply existsb_false_Forall, E|].
      eapply Forall_impl; [exact Hseen|]. simpl. intros r' Hr'.
      apply Forall_cons in Hr' as [_ H]. exact H.
    + eapply Forall_impl; [exact Hseen|]. simpl. intros r' Hr'.
      apply Forall_cons in Hr' as [H _]. exact H.
    + exact Hd.
Qed.

Lemma clean_finite df : Forall finite_row (clean_stock_data df).
Proof.
  apply Forall_forall. intros r Hr. apply list_elem_of_In in Hr.
  unfold clean_stock_data, drop_infinite in Hr.
  apply filter_In in Hr as [Hr Hinf]. apply filter_In in Hr as [_ Hnan].
  apply negb_true_iff, existsb_false_Forall in Hinf.
  apply negb_true_iff, existsb_false_Forall in Hnan.
  unfold finite_row. rewrite Forall_forall in Hinf, Hnan |- *.
  intros v Hv. apply finite_iff. auto.
Qed.

Lemma clean_distinct df : distinct_rows (clean_stock_data df).
Proof.
  unfold clean_stock_data, drop_infinite, drop_duplicates.
  eapply distinct_rows_sublist;
    [etrans; [apply filter_sublist|apply filter_sublist]|].
  apply drop_duplicates_from_distinct.
Qed.

(** X1.  On a frame of the five float columns [Open], [High], [Low],
    [Close], [Volume], which is the frame [_preprocess_data] passes and on
    which the conversion loop of [clean_stock_data] finds none of the
    column names it converts: every value of every row that
    [clean_stock_data] returns is a finite number, no returned row repeats
    the column values of another, and the returned rows are rows of the
    input in their input order. *)
Theorem clean_stock_data_output (df : list bar) :
  Forall finite_row (clean_stock_data df) /\
  distinct_rows (clean_stock_data df) /\
  clean_stock_data df `sublist_of` df /\
  length (clean_stock_data df) <= length df.
Proof.
  split; [apply clean_finite|]. split; [apply clean_distinct|].
  split; [apply clean_sublist|]. apply sublist_length, clean_sublist.
Qed.

Lemma drop_duplicates_from_id seen df :
  Forall (fun r' => Forall (fun s => same_columns r' s = false) seen) df ->
  distinct_rows df ->
  drop_duplicates_from seen df = df.
Proof.
  revert seen. induction df as [|r df IH]; intros seen Hseen Hd;
    [reflexivity|].
  apply Forall_cons in Hseen as [Hr Hseen]. destruct Hd as [Hrd Hd]. simpl.
  apply existsb_false_Forall in Hr. rewrite Hr. f_equal.
  apply IH; [|exact Hd].
  rewrite Forall_forall in Hseen, Hrd |- *. intros r' Hr'.
  constructor; [apply Hrd, Hr'|apply Hseen, Hr'].
Qed.

Lemma clean_fixed df :
  Forall finite_row df -> distinct_rows df -> clean_stock_data df = df.
Proof.
  intros Hfin Hd.
  assert (Hnan : dropna df = df).
  { apply filter_all. eapply Forall_impl; [exact Hfin|]. cbv beta.
    intros r Hr. apply negb_true_iff, existsb_false_Forall.
    eapply Forall_impl; [exact Hr|]. cbv beta. intros v Hv.
    apply finite_iff in Hv. tauto. }
  unfold clean_stock_data, drop_infinite, drop_duplicates.
  rewrite Hnan. rewrite (drop_duplicates_from_id [] df); [|  |exact Hd].
  - rewrite Hnan. apply filter_all. eapply Forall_impl; [exact Hfin|]. cbv beta.
    intros r Hr. apply negb_true_iff, existsb_false_Forall.
    eapply Forall_impl; [exact Hr|]. cbv beta. intros v Hv.
    apply finite_iff in Hv. tauto.
  - apply Forall_forall. intros r _. constructor.
Qed.

(** X2.  Cleaning is idempotent: a frame that has been cleaned is left as
    it is by a second cleaning. *)
Theorem clean_stock_data_idempotent (df : list bar) :
  clean_stock_data (clean_stock_data df) = clean_stock_data df.
Proof. apply clean_fixed; [apply clean_finite|apply clean_distinct]. Qed.

(** *** Sorting by date *)

Lemma insert_by_date_elem r sorted x :
  x ∈ insert_by_date r sorted <-> x = r \/ x ∈ sorted.
Proof.
  induction sorted as [|r' rest IH]; simpl.
  - rewrite list_elem_of_singleton, elem_of_nil. tauto.
  - destruct (trade_date r <=? trade_date r')%Z.
    + rewrite elem_of_cons. tauto.
    + rewrite !elem_of_cons, IH. tauto.
Qed.

Lemma insert_by_date_sorted r sorted :
  StronglySorted by_date sorted ->
  StronglySorted by_date (insert_by_date r sorted).
Proof.
  induction 1 as [|r' rest Hs IH Hall]; simpl.
  - repeat constructor.
  - destruct (Z.leb_spec (trade_date r) (trade_date r')) as [Hle|Hgt].
    + constructor; [constructor; assumption|].
      constructor; [exact Hle|].
      eapply Forall_impl; [exact Hall|]. unfold by_date. simpl. intros; lia.
    + constructor; [exact IH|].
      apply Forall_forall. intros x Hx. apply insert_by_date_elem in Hx.
      destruct Hx as [->|Hx]; [unfold by_date; lia|].
      rewrite Forall_forall in Hall. apply Hall, Hx.
Qed.

Lemma length_insert_by_date r sorted :
  length (insert_by_date r sorted) = S (length sorted).
Proof.
  induction sorted as [|r' rest IH]; simpl; [reflexivity|].
  destruct (trade_date r <=? trade_date r')%Z; simpl; [reflexivity|].
  rewrite IH. reflexivity.
Qed.

Lemma sort_values_sorted df : StronglySorted by_date (sort_values df).
Proof.
  induction df as [|r df IH]; simpl; [constructor|].
  apply insert_by_date_sorted, IH.
Qed.

Lemma length_sort_values df : length (sort_values df) = length df.
Proof.
  induction df as [|r df IH]; simpl; [reflexivity|].
  rewrite length_insert_by_date, IH. reflexivity.
Qed.

Lemma sorted_sublist l1 l2 :
  l1 `sublist_of` l2 -> StronglySorted by_date l2 -> StronglySorted by_date l1.
Proof.
  induction 1 as [|x l1 l2 Hs IH|x l1 l2 Hs IH]; intros Hsorted;
    [constructor| |].
  - apply StronglySorted_inv in Hsorted as [Hl2 Hall].
    constructor; [apply IH, Hl2|].
    rewrite Forall_forall in Hall |- *. intros y Hy. apply Hall.
    eapply sublist_subseteq; eassumption.
  - apply StronglySorted_inv in Hsorted as [Hl2 _]. apply IH, Hl2.
Qed.

(** X3.  A frame that [_preprocess_data] or [get_daily_data] hands to the
    caller has at least 30 rows, ascending trade dates, finite values only
    and no repeated rows, and the provider delivered at least as many rows;
    a provider error, or an empty answer, ends in an error. *)
Theorem loaded_frame_is_clean (df out : list bar)
    (Hout : get_daily_data (inr df) = inr out) :
  _preprocess_data df = inr out /\
  30 <= length out /\ length out <= length df /\
  StronglySorted by_date out /\
  Forall finite_row out /\ distinct_rows out /\
  get_daily_data (inr []) = inl ValueError /\
  forall e, get_daily_data (inl e) = inl e.
Proof.
  assert (Hpre : _preprocess_data df = inr out).
  { destruct df; [discriminate|exact Hout]. }
  split; [exact Hpre|].
  unfold _preprocess_data in Hpre.
  destruct (Nat.ltb_spec (length (clean_stock_data (sort_values df))) 30)
    as [?|Hge]; [discriminate|].
  injection Hpre as <-.
  split; [exact Hge|]. split.
  { etrans; [apply sublist_length, clean_sublist|].
    rewrite length_sort_values. reflexivity. }
  split.
  { eapply sorted_sublist; [apply clean_sublist|apply sort_values_sorted]. }
  split; [apply clean_finite|]. split; [apply clean_distinct|].
  split; [reflexivity|]. intros e. reflexivity.
Qed.

Lemma loaded_frame_is_clean_witness :
  get_daily_data (inr (sample_frame 31)) = inr (cleaned (sample_frame 31)) /\
  StronglySorted by_date (cleaned (sample_frame 31)).
Proof.
  assert (H : get_daily_data (inr (sample_frame 31))
              = inr (cleaned (sample_frame 31))) by (vm_compute; reflexivity).
  split; [exact H|].
  exact (proj1 (proj2 (proj2 (proj2
           (loaded_frame_is_clean (sample_frame 31) _ H))))).
Defined.

End CleaningFacts.

(** ** Returns of a price series ([calculate_returns]) *)

(** ** Library versions

    Two operations the sources use differ between pandas 2 and pandas 3,
    and the repository fixes no version.  [pct_change] fills NaN forward by
    default in pandas 2 and does not in pandas 3.  [fillna(False)] on the
    object series that [shift(1)] makes of a boolean series gives a boolean
    series in pandas 2, on which [~] is the negation; in pandas 3 the series
    keeps its object dtype, [~] maps its entries to the integers -1 and -2,
    and [&] reads each of them as true. *)
Inductive pandas_version : Type := Pandas2 | Pandas3.

Module Returns.

(** Forward fill: a NaN takes the last value before it that is not NaN. *)
Fixpoint ffill_from (last : fval) (s : Series) : Series :=
  match s with
  | [] => []
  | x :: s' =>
      if is_nan x then last :: ffill_from last s'
      else x :: ffill_from x s'
  end.

Definition ffill (s : Series) : Series := ffill_from NaN s.

(** The filling [pct_change] does by default: forward ([fill_method='pad'])
    in pandas 2, none in pandas 3. *)
Definition fill (v : pandas_version) (s : Series) : Series :=
  match v with
  | Pandas2 => ffill s
  | Pandas3 => s
  end.

(** [Series.pct_change()] with its defaults: the series, filled as the
    version has it, over itself shifted by one bar, minus 1. *)
Definition pct_change (v : pandas_version) (s : Series) : Series :=
  let filled := fill v s in
  zip_with (fun x p => fsub (fdiv x p) (Fin 1)) filled (shift1 filled).

(** [Series.dropna()]. *)
Definition dropna (s : Series) : Series :=
  List.filter (fun x => negb (is_nan x)) s.

(** [calculate_returns] of [utils/helpers.py]. *)
Definition calculate_returns (v : pandas_version) (prices : Series)
  : Series :=
  dropna (pct_change v prices).

Lemma ffill_from_fin last qs : ffill_from last (map Fin qs) = map Fin qs.
Proof.
  revert last. induction qs as [|q qs IH]; intros last; [reflexivity|].
  simpl. rewrite IH. reflexivity.
Qed.

Lemma length_ffill_from last s : length (ffill_from last s) = length s.
Proof.
  revert last. induction s as [|x s IH]; intros last; [reflexivity|].
  simpl. destruct (is_nan x); simpl; rewrite IH; reflexivity.
Qed.

Lemma fill_fin v qs : fill v (map Fin qs) = map Fin qs.
Proof. destruct v; [apply ffill_from_fin|reflexivity]. Qed.

Lemma length_fill v s : length (fill v s) = length s.
Proof. destruct v; [apply length_ffill_from|reflexivity]. Qed.

Lemma zip_with_removelast {A C} (f : A -> A -> C) l x :
  zip_with f l (removelast (x :: l)) = zip_with f l (x :: l).
Proof.
  revert x. induction l as [|a l IH]; intros x; [reflexivity|].
  change (removelast (x :: a :: l)) with (x :: removelast (a :: l)).
  simpl. f_equal. apply IH.
Qed.

Lemma removelast_map {A B} (f : A -> B) l :
  removelast (map f l) = map f (removelast l).
Proof.
  induction l as [|a [|b l] IH]; [reflexivity|reflexivity|].
  change (removelast (map f (a :: b :: l)))
    with (f a :: removelast (map f (b :: l))).
  rewrite IH. reflexivity.
Qed.

Lemma shift1_fin p ps :
  shift1 (map Fin (p :: ps)) = NaN :: map Fin (removelast (p :: ps)).
Proof.
  unfold shift1. change (map Fin (p :: ps)) with (Fin p :: map Fin ps) at 1.
  cbv iota. f_equal. apply removelast_map.
Qed.

Lemma ratios_fin (xs ys : list Q) :
  Forall (fun y => ~ (y == 0)%Q) ys ->
  zip_with (fun x p => fsub (fdiv x p) (Fin 1)) (map Fin xs) (map Fin ys)
  = map Fin (zip_with (fun x y => x / y + - 1)%Q xs ys).
Proof.
  intros Hys. revert xs. induction Hys as [|y ys Hy _ IH]; intros [|x xs];
    try reflexivity.
  simpl. rewrite IH. f_equal.
  destruct (Qsign y) eqn:E; [apply Qsign_eq in E; contradiction| |];
    reflexivity.
Qed.

Lemma dropna_fin qs : dropna (map Fin qs) = map Fin qs.
Proof.
  unfold dropna. induction qs as [|q qs IH]; [reflexivity|].
  simpl. f_equal. exact IH.
Qed.

Lemma nth_zip_with_Q (f : Q -> Q -> Q) xs ys i :
  i < length xs -> i < length ys ->
  nth i (zip_with f xs ys) 0%Q = f (nth i xs 0%Q) (nth i ys 0%Q).
Proof.
  revert ys i. induction xs as [|x xs IH]; intros [|y ys] i Hx Hy;
    simpl in *; try lia.
  destruct i as [|i]; [reflexivity|]. apply IH; lia.
Qed.

(** On finite prices none of which is zero, the series of the quotients
    minus one. *)
Lemma calculate_returns_fin v (p : Q) (ps : list Q) :
  Forall (fun y => ~ (y == 0)%Q) (p :: ps) ->
  calculate_returns v (map Fin (p :: ps))
  = map Fin (zip_with (fun x y => x / y + - 1)%Q ps (p :: ps)).
Proof.
  intros Hnz. unfold calculate_returns, pct_change.
  rewrite fill_fin, shift1_fin.
  change (map Fin (p :: ps)) with (Fin p :: map Fin ps).
  cbn [zip_with]. change (fsub (fdiv (Fin p) NaN) (Fin 1)) with NaN.
  unfold dropna at 1. cbn [List.filter is_nan negb].
  fold (dropna (zip_with (fun x p0 => fsub (fdiv x p0) (Fin 1))
                   (map Fin ps) (map Fin (removelast (p :: ps))))).
  rewrite ratios_fin.
  - rewrite dropna_fin, zip_with_removelast. reflexivity.
  - apply Forall_forall. intros y Hy. rewrite Forall_forall in Hnz.
    apply Hnz. apply list_elem_of_In. apply list_elem_of_In in Hy.
    revert Hy. generalize (p :: ps). intros l. clear.
    induction l as [|a [|b l] IH]; simpl; [tauto|tauto|].
    intros [->|H]; [left; reflexivity|right; apply IH, H].
Qed.

(** The sign of [x / y - 1] over a positive [y]. *)
Lemma ratio_sign (x y : Q) :
  (0 < y)%Q -> (0 <= x)%Q ->
  ((0 < x / y + - 1)%Q <-> (y < x)%Q) /\
  ((x / y + - 1 < 0)%Q <-> (x < y)%Q) /\
  (- 1 <= x / y + - 1)%Q.
Proof.
  intros Hy Hx.
  assert (Hup : (y < x)%Q -> (1 < x / y)%Q)
    by (intros H; apply Qlt_shift_div_l; [exact Hy|lra]).
  assert (Hdown : (x < y)%Q -> (x / y < 1)%Q)
    by (intros H; apply Qlt_shift_div_r; [exact Hy|lra]).
  assert (Hflat : (x == y)%Q -> (x / y == 1)%Q)
    by (intros H; rewrite H; field; lra).
  assert (Hlow : (0 <= x / y)%Q)
    by (apply Qle_shift_div_l; [exact Hy|lra]).
  set (t := (x / y)%Q) in *.
  destruct (Q_dec x y) as [[Hlt|Hgt]|Heq].
  - specialize (Hdown Hlt). repeat split; intros; lra.
  - specialize (Hup Hgt). repeat split; intros; lra.
  - specialize (Hflat Heq). repeat split; intros; lra.
Qed.

(** X4.  Under either pandas version, [calculate_returns] never returns a
    NaN and returns fewer values than it is given prices.  On finite
    prices none of which is zero it returns exactly one value per bar
    after the first.  On positive prices the value for a bar is above zero
    exactly when the price rose from the bar before, below zero exactly
    when it fell, and never below -1. *)
Theorem calculate_returns_spec (v : pandas_version) :
  (forall prices : Series,
     Forall (fun r => r <> NaN) (calculate_returns v prices) /\
     length (calculate_returns v prices) <= length prices - 1) /\
  (forall (p : Q) (ps : list Q),
     Forall (fun y => ~ (y == 0)%Q) (p :: ps) ->
     length (calculate_returns v (map Fin (p :: ps))) = length ps) /\
  (forall (p : Q) (ps : list Q),
     Forall (fun y => (0 < y)%Q) (p :: ps) ->
     forall i, i < length ps ->
       let r := at_ (calculate_returns v (map Fin (p :: ps))) i in
       (fltb (Fin 0) r = true <-> (nth i (p :: ps) 0 < nth i ps 0)%Q) /\
       (fltb r (Fin 0) = true <-> (nth i ps 0 < nth i (p :: ps) 0)%Q) /\
       fleb (Fin (- 1)) r = true).
Proof.
  split; [|split].
  - intros prices. split.
    + apply Forall_forall. intros r Hr. apply list_elem_of_In in Hr.
      unfold calculate_returns, dropna in Hr. apply filter_In in Hr as [_ Hr].
      intros ->. discriminate.
    + unfold calculate_returns, dropna, pct_change.
      destruct (fill v prices) as [|x f] eqn:E.
      * simpl. lia.
      * assert (Hlen : length prices = S (length f)).
        { apply (f_equal length) in E.
          rewrite length_fill in E. exact E. }
        unfold shift1. cbn [zip_with].
        replace (fsub (fdiv x NaN) (Fin 1)) with NaN
          by (destruct x; reflexivity).
        cbn [List.filter is_nan negb].
        etrans; [apply sublist_length, CleaningFacts.filter_sublist|].
        rewrite length_zip_with. lia.
  - intros p ps Hnz. rewrite (calculate_returns_fin v p ps Hnz).
    rewrite length_map, length_zip_with. simpl. lia.
  - intros p ps Hpos i Hi r.
    assert (Hnz : Forall (fun y => ~ (y == 0)%Q) (p :: ps)).
    { eapply Forall_impl; [exact Hpos|]. simpl. intros y Hy E.
      rewrite E in Hy. lra. }
    assert (Hr : r = Fin (nth i ps 0 / nth i (p :: ps) 0 + - 1)%Q).
    { unfold r. rewrite (calculate_returns_fin v p ps Hnz).
      rewrite Bollinger.at_map_fin by (rewrite length_zip_with; simpl; lia).
      rewrite nth_zip_with_Q by (simpl; lia). reflexivity. }
    rewrite Hr. cbn [fltb fleb].
    rewrite Forall_forall in Hpos.
    assert (Hy : (0 < nth i (p :: ps) 0)%Q).
    { apply Hpos, list_elem_of_In, nth_In. simpl. lia. }
    assert (Hx : (0 < nth i ps 0)%Q).
    { apply Hpos, list_elem_of_In. right. apply nth_In. exact Hi. }
    destruct (ratio_sign (nth i ps 0%Q) (nth i (p :: ps) 0%Q) Hy
                (Qlt_le_weak _ _ Hx)) as (Hup & Hdown & Hlow).
    rewrite !Qltb_lt. split; [exact Hup|]. split; [exact Hdown|].
    apply Qle_bool_iff. exact Hlow.
Qed.

Lemma calculate_returns_spec_witness :
  Forall (fun y => (0 < y)%Q) [10%Q; 11%Q; 9%Q] /\
  length (calculate_returns Pandas3 (map Fin [10%Q; 11%Q; 9%Q])) = 2 /\
  fltb (Fin 0)
       (at_ (calculate_returns Pandas3 (map Fin [10%Q; 11%Q; 9%Q])) 0)
  = true /\
  fltb (at_ (calculate_returns Pandas3 (map Fin [10%Q; 11%Q; 9%Q])) 1)
       (Fin 0)
  = true.
Proof.
  assert (H : Forall (fun y => (0 < y)%Q) [10%Q; 11%Q; 9%Q])
    by (repeat constructor).
  assert (Hnz : Forall (fun y => ~ (y == 0)%Q) [10%Q; 11%Q; 9%Q]).
  { repeat constructor; intros E; vm_compute in E; discriminate. }
  split; [exact H|].
  split; [exact (proj1 (proj2 (calculate_returns_spec Pandas3))
                   10%Q [11%Q; 9%Q] Hnz)|].
  pose proof (proj2 (proj2 (calculate_returns_spec Pandas3))
                10%Q [11%Q; 9%Q] H) as Hs.
  split.
  - apply (proj1 (Hs 0 ltac:(simpl; lia))). reflexivity.
  - apply (proj1 (proj2 (Hs 1 ltac:(simpl; lia)))). reflexivity.
Defined.

(** A price of zero is not refused: the return after it is an infinity,
    which [dropna] keeps, or 0/0, which it drops. *)
Example returns_after_zero_price :
  (exists q, calculate_returns Pandas3 [Fin 10; Fin 0; Fin 5]
             = [Fin q; PInf] /\ (q == -1)%Q) /\
  length (calculate_returns Pandas3 [Fin 10; Fin 0; Fin 0]) = 1.
Proof.
  split; [|vm_compute; reflexivity].
  eexists. split; vm_compute; reflexivity.
Qed.

End Returns.

(** ** Shape of the recorded squeeze episodes *)

Module SqueezeFacts.

Import Squeeze.

(** [p] ends at least two bars before [p'] starts. *)
Definition apart (p p' : nat * nat) : Prop := S (snd p) < fst p'.

Lemma closed_runs_apart cond s e s' e' :
  closed_run cond s e -> closed_run cond s' e' -> (s, e) <> (s', e') ->
  S e < s' \/ S e' < s.
Proof.
  intros (Hse & Hall & Hl & Hn) (Hse' & Hall' & Hl' & Hn') Hne.
  destruct (Nat.lt_trichotomy s s') as [Hlt | [<- | Hgt]].
  - left. destruct (Nat.lt_ge_cases (S e) s') as [?|Hge]; [assumption|].
    exfalso. destruct (decide (s' = S e)) as [->|Hneq].
    + rewrite (Hall' (S e)) in Hn by lia. discriminate.
    + destruct Hl' as [?|Hf]; [lia|].
      rewrite (Hall (s' - 1)) in Hf by lia. discriminate.
  - exfalso. destruct (Nat.lt_trichotomy e e') as [H | [<- | H]].
    + rewrite (Hall' (S e)) in Hn by lia. discriminate.
    + apply Hne. reflexivity.
    + rewrite (Hall (S e')) in Hn' by lia. discriminate.
  - right. destruct (Nat.lt_ge_cases (S e') s) as [?|Hge]; [assumption|].
    exfalso. destruct (decide (s = S e')) as [->|Hneq].
    + rewrite (Hall (S e')) in Hn' by lia. discriminate.
    + destruct Hl as [?|Hf]; [lia|].
      rewrite (Hall' (s - 1)) in Hf by lia. discriminate.
Qed.

Lemma periods_in_order cond : StronglySorted apart (periods_of cond).
Proof.
  unfold periods_of. induction cond as [|b cond IH] using rev_ind;
    [constructor|].
  pose proof (scan_inv_holds (cond ++ [b])) as Hnew.
  pose proof (scan_inv_holds cond) as Hold.
  rewrite scan_snoc in Hnew |- *. unfold scan_step in *.
  destruct (b && negb (in_squeeze (scan cond))); [exact IH|].
  destruct (negb b && in_squeeze (scan cond)) eqn:Hclose; [|exact IH].
  cbn [squeeze_periods] in *.
  destruct (squeeze_start (scan cond)) as [s0|]; [|exact IH].
  apply andb_true_iff in Hclose as [Hb _]. apply negb_true_iff in Hb.
  subst b.
  apply StronglySorted_app. split; [|split];
    [|exact IH|repeat constructor].
  intros [s e] p' Hp Hp'. apply list_elem_of_In in Hp.
  apply list_elem_of_singleton in Hp'. subst p'. unfold apart. simpl.
  pose proof (inv_periods _ _ Hold s e) as Hrun. apply Hrun in Hp.
  assert (He : S e < length cond).
  { destruct Hp as (_ & _ & _ & H). apply lookup_lt_Some in H. exact H. }
  assert (H1 : closed_run (cond ++ [false]) s e)
    by (apply closed_run_snoc_false; left; exact Hp).
  assert (H2 : closed_run (cond ++ [false]) s0 (length cond - 1)).
  { apply (inv_periods _ _ Hnew). cbn [squeeze_periods].
    apply in_app_iff. right. left. reflexivity. }
  destruct (closed_runs_apart _ _ _ _ _ H1 H2) as [H|H].
  - intros [= -> E]. lia.
  - exact H.
  - destruct Hp as (Hse & _). lia.
Qed.

Lemma falling_edges_half cond :
  2 * falling_edges cond <= length cond /\
  (head cond = Some false -> 2 * falling_edges cond <= length cond - 1).
Proof.
  induction cond as [|b tl IH]; [simpl; split; [lia|discriminate]|].
  destruct IH as [IH1 IH2].
  destruct tl as [|c tl]; [simpl; split; intros; lia|].
  destruct c.
  - change (falling_edges (b :: true :: tl))
      with (falling_edges (true :: tl)).
    cbn [length] in *. split; intros; lia.
  - change (falling_edges (b :: false :: tl))
      with ((if b then 1 else 0) + falling_edges (false :: tl)).
    specialize (IH2 eq_refl). cbn [length head] in *.
    destruct b; split; intros; try discriminate; lia.
Qed.

(** X5.  The squeeze episodes [(start, end)] that
    [analyze_squeeze_pattern] records are well formed ([start <= end], and
    the bar after [end] exists), are listed in increasing order, never
    overlap and never touch (a bar outside any recorded episode lies
    between two of them); hence there are at most half as many episodes as
    bars. *)
Theorem squeeze_periods_well_formed (squeeze_condition : list bool) :
  (forall s e, In (s, e) (periods_of squeeze_condition) ->
     s <= e /\ S e < length squeeze_condition) /\
  StronglySorted apart (periods_of squeeze_condition) /\
  2 * total_squeezes squeeze_condition <= length squeeze_condition.
Proof.
  pose proof (scan_inv_holds squeeze_condition) as Hinv.
  split; [|split].
  - intros s e Hin. apply (inv_periods _ _ Hinv) in Hin.
    destruct Hin as (Hse & _ & _ & Hn). split; [exact Hse|].
    apply lookup_lt_Some in Hn. exact Hn.
  - apply periods_in_order.
  - unfold total_squeezes, periods_of. rewrite (inv_count _ _ Hinv).
    apply falling_edges_half.
Qed.

End SqueezeFacts.

(** ** Counting entries into a region ([KDJIndicator._count_entries]) *)

Module Entries.

(** [condition_series.shift(1).fillna(False)] on a boolean series. *)
Definition shift_fill (c : list bool) : list bool :=
  match c with
  | [] => []
  | _ => false :: removelast c
  end.

(** [~prev_condition] as the [&] that follows reads it.  In pandas 2
    [prev_condition] is a boolean series and [~] negates it.  In pandas 3
    it has object dtype: [~] turns False and True into the integers -1 and
    -2, and [&] reads a non-zero integer as true. *)
Definition invert (v : pandas_version) (prev : list bool) : list bool :=
  match v with
  | Pandas2 => map negb prev
  | Pandas3 => map (fun _ => true) prev
  end.

(** [_count_entries]: [entries = condition_series & (~prev_condition)],
    then [entries.sum()]. *)
Definition _count_entries (v : pandas_version)
    (condition_series : list bool) : nat :=
  let prev_condition := shift_fill condition_series in
  let entries :=
    zip_with andb condition_series (invert v prev_condition) in
  count_signals entries.

Lemma length_shift_fill c : length (shift_fill c) = length c.
Proof.
  destruct c as [|x c]; [reflexivity|]. unfold shift_fill.
  cbn [length]. f_equal.
  rewrite removelast_firstn_len, length_firstn. cbn [length]. lia.
Qed.

(** Under pandas 2 an entry is a bar where the condition holds and did
    not hold at the bar before. *)
Lemma entries_negated (c prev : list bool) :
  zip_with andb c (invert Pandas2 prev)
  = zip_with (fun x p => x && negb p) c prev.
Proof.
  revert prev. induction c as [|x c IH]; intros [|p prev];
    try reflexivity.
  simpl. f_equal. apply IH.
Qed.

(** Under pandas 3 every bar where the condition holds is an entry. *)
Lemma entries_all (c prev : list bool) :
  length prev = length c -> zip_with andb c (invert Pandas3 prev) = c.
Proof.
  revert prev. induction c as [|x c IH]; intros [|p prev] Hlen;
    try reflexivity; try discriminate.
  simpl. rewrite andb_true_r. f_equal. apply IH.
  simpl in Hlen. lia.
Qed.

Fixpoint count_from (prev : bool) (c : list bool) : nat :=
  match c with
  | [] => 0
  | x :: c' => (if x && negb prev then 1 else 0) + count_from x c'
  end.

Lemma count_entries_from c : _count_entries Pandas2 c = count_from false c.
Proof.
  unfold _count_entries. rewrite entries_negated.
  unfold shift_fill, count_signals.
  destruct c as [|x c]; [reflexivity|].
  change (zip_with (fun c0 p => c0 && negb p) (x :: c)
            (false :: removelast (x :: c)))
    with ((x && negb false)
          :: zip_with (fun c0 p => c0 && negb p) c (removelast (x :: c))).
  rewrite Returns.zip_with_removelast.
  generalize false. revert x. induction c as [|y c IH]; intros x p.
  - simpl. destruct (x && negb p); reflexivity.
  - change (count_from p (x :: y :: c))
      with ((if x && negb p then 1 else 0) + count_from x (y :: c)).
    rewrite <- IH. cbn [zip_with List.filter].
    destruct (x && negb p); reflexivity.
Qed.

Lemma rising_falling p c :
  count_from p c + (if p then 1 else 0)
  = Squeeze.falling_edges (p :: c)
    + (if default false (last (p :: c)) then 1 else 0).
Proof.
  revert p. induction c as [|x c IH]; intros p.
  - simpl. lia.
  - change (count_from p (x :: c))
      with ((if x && negb p then 1 else 0) + count_from x c).
    change (last (p :: x :: c)) with (last (x :: c)).
    specialize (IH x).
    change (Squeeze.falling_edges (p :: x :: c))
      with (match x with
            | false => (if p then 1 else 0) + Squeeze.falling_edges (x :: c)
            | true => Squeeze.falling_edges (x :: c)
            end).
    destruct p, x; simpl andb; simpl negb; cbv iota; lia.
Qed.

Lemma count_from_le p c : count_from p c <= count_signals c.
Proof.
  revert p. induction c as [|x c IH]; intros p; [reflexivity|].
  cbn [count_from]. specialize (IH x). unfold count_signals in *.
  destruct x, p; simpl in *; lia.
Qed.

(** X6.  Under pandas 2, [_count_entries] counts the maximal runs of bars
    on which the condition holds, a run still in progress at the last bar
    included; the squeeze scan of [analyze_squeeze_pattern] counts the same
    runs except that one: the two counts differ by one exactly when the
    series ends inside a run.  Under pandas 3, [_count_entries] counts the
    bars on which the condition holds.  Under either version its result
    lies between the number of runs and the number of such bars. *)
Theorem count_entries_and_squeezes (condition_series : list bool) :
  let runs :=
    Squeeze.total_squeezes condition_series
    + (if default false (last condition_series) then 1 else 0) in
  _count_entries Pandas2 condition_series = runs /\
  _count_entries Pandas3 condition_series
  = count_signals condition_series /\
  forall v,
    runs <= _count_entries v condition_series /\
    _count_entries v condition_series <= count_signals condition_series.
Proof.
  intros runs.
  assert (H2 : _count_entries Pandas2 condition_series = runs).
  { unfold runs. rewrite count_entries_from.
    pose proof (rising_falling false condition_series) as H.
    unfold Squeeze.total_squeezes, Squeeze.periods_of.
    rewrite (Squeeze.inv_count _ _ (Squeeze.scan_inv_holds condition_series)).
    destruct condition_series as [|x c]; [reflexivity|].
    change (last (false :: x :: c)) with (last (x :: c)) in H.
    change (Squeeze.falling_edges (false :: x :: c))
      with (match x with
            | false => 0 + Squeeze.falling_edges (x :: c)
            | true => Squeeze.falling_edges (x :: c)
            end) in H.
    destruct x; lia. }
  assert (H3 : _count_entries Pandas3 condition_series
               = count_signals condition_series).
  { unfold _count_entries.
    rewrite entries_all by apply length_shift_fill. reflexivity. }
  assert (Hle : runs <= count_signals condition_series).
  { rewrite <- H2, count_entries_from. apply count_from_le. }
  split; [exact H2|]. split; [exact H3|].
  intros [|]; [rewrite H2|rewrite H3]; lia.
Qed.

Example entries_count_open_run :
  _count_entries Pandas2
    [false; true; true; false; false; true; true; true] = 2 /\
  _count_entries Pandas3
    [false; true; true; false; false; true; true; true] = 5 /\
  Squeeze.total_squeezes
    [false; true; true; false; false; true; true; true] = 1.
Proof. repeat split; reflexivity. Qed.

End Entries.

(** ** Band breakouts ([BollingerBands.identify_breakout_signals]) *)

Module Breakout.

Import Bollinger.

Record breakout_signals := {
  upper_breakout : list bool;
  lower_breakout : list bool;
  upper_breakout_points : list bool;
  lower_breakout_points : list bool;
  upper_count : nat;
  lower_count : nat
}.

(** [breakout & (~breakout.shift(1).fillna(False))]. *)
Definition entry_points (v : pandas_version) (breakout : list bool)
  : list bool :=
  zip_with andb breakout (Entries.invert v (Entries.shift_fill breakout)).

(** The signals from the close and the two bands, three series over the
    index of [self.data]; a comparison with NaN is false, so that
    [fillna(False)] changes nothing. *)
Definition signals_of (v : pandas_version)
    (close_prices upper lower : Series) : breakout_signals :=
  let upper_breakout := zip_with fgtb close_prices upper in
  let lower_breakout := zip_with fltb close_prices lower in
  let upper_breakout_points := entry_points v upper_breakout in
  let lower_breakout_points := entry_points v lower_breakout in
  {| upper_breakout := upper_breakout;
     lower_breakout := lower_breakout;
     upper_breakout_points := upper_breakout_points;
     lower_breakout_points := lower_breakout_points;
     upper_count := count_signals upper_breakout_points;
     lower_count := count_signals lower_breakout_points |}.

Section WithTALib.

Variable v : pandas_version.
Variable BBANDS : Series -> nat -> fval -> fval -> Series * Series * Series.

Definition identify_breakout_signals (self : BollingerBands) (h : store)
  : option breakout_signals * BollingerBands * store :=
  let '(self, h) := ensure_bands BBANDS self h in
  let close_prices := close self in
  match bollinger_data self !! "BB_Upper",
        bollinger_data self !! "BB_Lower" with
  | Some upper, Some lower =>
      (Some (signals_of v close_prices upper lower), self, h)
  | _, _ => (None, self, h)
  end.

End WithTALib.

Definition before (s : list bool) (i : nat) : bool :=
  match i with
  | 0 => false
  | S j => nth j s false
  end.

Lemma nth_points_tail c x j :
  nth j (zip_with (fun c0 p => c0 && negb p) c (x :: c)) false
  = nth j c false && negb (nth j (x :: c) false).
Proof.
  revert x j. induction c as [|y c IH]; intros x j.
  - destruct j; reflexivity.
  - destruct j as [|j]; [reflexivity|]. cbn [zip_with nth]. apply IH.
Qed.

Lemma nth_entry_points s i :
  nth i (entry_points Pandas2 s) false = nth i s false && negb (before s i).
Proof.
  unfold entry_points. rewrite Entries.entries_negated.
  unfold Entries.shift_fill. destruct s as [|x c].
  - destruct i; reflexivity.
  - change (zip_with (fun c0 p => c0 && negb p) (x :: c)
              (false :: removelast (x :: c)))
      with ((x && negb false)
            :: zip_with (fun c0 p => c0 && negb p) c (removelast (x :: c))).
    rewrite Returns.zip_with_removelast.
    destruct i as [|j]; [reflexivity|]. cbn [nth before].
    rewrite nth_points_tail. reflexivity.
Qed.

Lemma nth_zip_with_bool (f : fval -> fval -> bool) (a b : Series) i :
  (forall y, f NaN y = false) -> (forall x, f x NaN = false) ->
  nth i (zip_with f a b) false = f (at_ a i) (at_ b i).
Proof.
  intros Hl Hr. revert b i. induction a as [|x a IH]; intros b i.
  - simpl. unfold at_ at 1. destruct i; simpl; rewrite Hl; reflexivity.
  - destruct b as [|y b].
    + simpl. unfold at_ at 2. destruct i; simpl; rewrite Hr; reflexivity.
    + destruct i as [|i]; [reflexivity|]. unfold at_ in *. simpl. apply IH.
Qed.

Lemma between_bands c u l :
  fgtb c u = true -> fltb c l = true -> fleb l u = true -> False.
Proof.
  unfold fgtb. destruct c, u, l; simpl; try discriminate.
  intros H1 H2 H3. apply Qltb_lt in H1, H2. apply Qle_bool_iff in H3. lra.
Qed.

Lemma entry_points_edges s :
  (forall i, nth i (entry_points Pandas2 s) false = true <->
             nth i s false = true /\ before s i = false) /\
  (forall i, ~ (nth i (entry_points Pandas2 s) false = true /\
                nth (S i) (entry_points Pandas2 s) false = true)).
Proof.
  split.
  - intros i. rewrite nth_entry_points, andb_true_iff, negb_true_iff.
    reflexivity.
  - intros i [H1 H2]. rewrite nth_entry_points in H1, H2.
    apply andb_true_iff in H1 as [H1 _].
    apply andb_true_iff in H2 as [_ H2]. apply negb_true_iff in H2.
    simpl in H2. congruence.
Qed.

Lemma entry_points_all s : entry_points Pandas3 s = s.
Proof.
  unfold entry_points. apply Entries.entries_all, Entries.length_shift_fill.
Qed.

(** Under either version, the points lie between the rising edges and the
    bars in breakout. *)
Lemma entry_points_between v s :
  (forall i, nth i s false = true -> before s i = false ->
             nth i (entry_points v s) false = true) /\
  (forall i, nth i (entry_points v s) false = true -> nth i s false = true).
Proof.
  destruct v.
  - split; intros i.
    + intros H1 H2. apply (proj1 (entry_points_edges s) i). auto.
    + intros H. apply (proj1 (entry_points_edges s) i) in H. tauto.
  - rewrite entry_points_all. split; auto.
Qed.

(** X7.  In the result of [identify_breakout_signals], with the bands the
    object holds.  Under pandas 2 a breakout point is a bar that is in
    breakout while the bar before it is not, so two consecutive bars are
    never both breakout points.  Under pandas 3 every bar in breakout is a
    breakout point.  Under either version a bar in breakout after a bar
    that is not is a breakout point, and a breakout point is a bar in
    breakout; a bar whose band is NaN (the warm-up window) is no breakout;
    and where the lower band is not above the upper band, a bar is never
    an upper and a lower breakout at once. *)
Theorem breakout_points_are_edges (v : pandas_version)
    (BBANDS : Series -> nat -> fval -> fval -> Series * Series * Series)
    (self : BollingerBands) (h : store) :
  let '(res, self', h') := identify_breakout_signals v BBANDS self h in
  forall sig upper lower,
    res = Some sig ->
    bollinger_data self' !! "BB_Upper" = Some upper ->
    bollinger_data self' !! "BB_Lower" = Some lower ->
    (v = Pandas2 ->
     (forall i, nth i (upper_breakout_points sig) false = true <->
        nth i (upper_breakout sig) false = true /\
        before (upper_breakout sig) i = false) /\
     (forall i, nth i (lower_breakout_points sig) false = true <->
        nth i (lower_breakout sig) false = true /\
        before (lower_breakout sig) i = false) /\
     (forall i, ~ (nth i (upper_breakout_points sig) false = true /\
                   nth (S i) (upper_breakout_points sig) false = true)) /\
     (forall i, ~ (nth i (lower_breakout_points sig) false = true /\
                   nth (S i) (lower_breakout_points sig) false = true))) /\
    (v = Pandas3 ->
     upper_breakout_points sig = upper_breakout sig /\
     lower_breakout_points sig = lower_breakout sig) /\
    (forall i, nth i (upper_breakout sig) false = true ->
       before (upper_breakout sig) i = false ->
       nth i (upper_breakout_points sig) false = true) /\
    (forall i, nth i (lower_breakout sig) false = true ->
       before (lower_breakout sig) i = false ->
       nth i (lower_breakout_points sig) false = true) /\
    (forall i, nth i (upper_breakout_points sig) false = true ->
       nth i (upper_breakout sig) false = true) /\
    (forall i, nth i (lower_breakout_points sig) false = true ->
       nth i (lower_breakout sig) false = true) /\
    (forall i, at_ upper i = NaN -> nth i (upper_breakout sig) false = false) /\
    (forall i, at_ lower i = NaN -> nth i (lower_breakout sig) false = false) /\
    (forall i, fle (at_ lower i) (at_ upper i) ->
       ~ (nth i (upper_breakout sig) false = true /\
          nth i (lower_breakout sig) false = true)).
Proof.
  unfold identify_breakout_signals.
  destruct (ensure_bands BBANDS self h) as [s1 h1].
  destruct (bollinger_data s1 !! "BB_Upper") as [U|] eqn:EU;
    destruct (bollinger_data s1 !! "BB_Lower") as [L|] eqn:EL;
    intros sig upper lower Hres HU HL; try discriminate.
  injection Hres as <-. rewrite EU in HU. rewrite EL in HL.
  injection HU as <-. injection HL as <-.
  unfold signals_of. cbn [upper_breakout lower_breakout
    upper_breakout_points lower_breakout_points].
  assert (Hup : forall i, nth i (zip_with fgtb (close s1) U) false
                          = fgtb (at_ (close s1) i) (at_ U i)).
  { intros i. apply nth_zip_with_bool.
    - intros y. unfold fgtb. apply fltb_nan_r.
    - intros x. reflexivity. }
  assert (Hlo : forall i, nth i (zip_with fltb (close s1) L) false
                          = fltb (at_ (close s1) i) (at_ L i)).
  { intros i. apply nth_zip_with_bool.
    - intros y. reflexivity.
    - intros x. apply fltb_nan_r. }
  split.
  { intros ->. split; [apply entry_points_edges|].
    split; [apply entry_points_edges|].
    split; apply entry_points_edges. }
  split.
  { intros ->. split; apply entry_points_all. }
  split; [apply entry_points_between|]. split; [apply entry_points_between|].
  split; [apply entry_points_between|]. split; [apply entry_points_between|].
  split; [|split].
  - intros i Hn. rewrite Hup, Hn. reflexivity.
  - intros i Hn. rewrite Hlo, Hn. apply fltb_nan_r.
  - intros i Hle [H1 H2]. rewrite Hup in H1. rewrite Hlo in H2.
    apply fleb_fle in Hle. exact (between_bands _ _ _ H1 H2 Hle).
Qed.

(** An object that holds its bands: the close is above the upper band at
    the bars 1 and 2 and below the lower band at the bar 4. *)
Definition sample_bands : BollingerBands :=
  {| data := 0; close := map Fin [1%Q; 5%Q; 6%Q; 2%Q; 0%Q];
     bollinger_data :=
       <["BB_Lower" := [NaN; Fin 1; Fin 1; Fin 1; Fin 1]]>
         (<["BB_Upper" := [NaN; Fin 4; Fin 4; Fin 4; Fin 4]]> ∅) |}.

Lemma breakout_points_are_edges_witness :
  exists sig,
    fst (fst (identify_breakout_signals Pandas2 BBANDS_model
                sample_bands ∅)) = Some sig /\
    nth 1 (upper_breakout sig) false = true /\
    nth 2 (upper_breakout sig) false = true /\
    nth 1 (upper_breakout_points sig) false = true /\
    ~ (nth 1 (upper_breakout_points sig) false = true /\
       nth 2 (upper_breakout_points sig) false = true).
Proof.
  pose proof (breakout_points_are_edges Pandas2 BBANDS_model
                sample_bands ∅) as H.
  destruct (identify_breakout_signals Pandas2 BBANDS_model sample_bands ∅)
    as [[res s1] h1] eqn:E.
  assert (Hres : res = Some (signals_of Pandas2 (close sample_bands)
                               [NaN; Fin 4; Fin 4; Fin 4; Fin 4]
                               [NaN; Fin 1; Fin 1; Fin 1; Fin 1])
                 /\ s1 = sample_bands).
  { unfold identify_breakout_signals, ensure_bands in E.
    destruct (decide (bollinger_data sample_bands = ∅)) as [E0|_].
    - exfalso. apply (f_equal (fun d => d !! "BB_Upper")) in E0.
      discriminate E0.
    - change (bollinger_data sample_bands !! "BB_Upper")
        with (Some [NaN; Fin 4; Fin 4; Fin 4; Fin 4]) in E.
      change (bollinger_data sample_bands !! "BB_Lower")
        with (Some [NaN; Fin 1; Fin 1; Fin 1; Fin 1]) in E.
      injection E as <- <- _. split; reflexivity. }
  destruct Hres as [-> ->].
  destruct (H _ [NaN; Fin 4; Fin 4; Fin 4; Fin 4]
              [NaN; Fin 1; Fin 1; Fin 1; Fin 1] eq_refl eq_refl eq_refl)
    as (H2 & _ & Hedge & _).
  destruct (H2 eq_refl) as (_ & _ & Hnot & _).
  eexists. split; [reflexivity|].
  split; [reflexivity|]. split; [reflexivity|].
  split; [apply Hedge; reflexivity|apply Hnot].
Defined.

(** The same object under pandas 3: both bars in breakout are points. *)
Example breakout_points_pandas3 :
  exists sig,
    fst (fst (identify_breakout_signals Pandas3 BBANDS_model
                sample_bands ∅)) = Some sig /\
    upper_breakout_points sig = [false; true; true; false; false] /\
    upper_count sig = 2.
Proof. eexists. split; [reflexivity|]. split; reflexivity. Qed.

End Breakout.

(** ** MACD: the histogram split for plotting
    ([MACDIndicator.prepare_for_plotting]) *)

Module MACDPlot.

Import MACD.

Record plot_data := {
  plot_MACD : Series;
  plot_Signal : Series;
  Histogram_Positive : Series;
  Histogram_Negative : Series
}.

(** [s = series.copy(); s[mask(s)] = np.nan]: a new series, NaN where the
    mask holds. *)
Definition blank_where (mask : fval -> bool) (series : Series) : Series :=
  map (fun x => if mask x then NaN else x) series.

Section WithTALib.

Variable MACD_ : Series -> nat -> nat -> nat -> Series * Series * Series.

(** [if not self.macd_data: self.calculate_macd()]. *)
Definition ensure_macd (self : MACDIndicator) (h : store)
  : MACDIndicator * store :=
  if decide (macd_data self = ∅) then
    let '(_, self', h') := calculate_macd MACD_ None None None self h in
    (self', h')
  else (self, h).

Definition prepare_for_plotting (self : MACDIndicator) (h : store)
  : option plot_data * MACDIndicator * store :=
  let '(self, h) := ensure_macd self h in
  match macd_data self !! "Histogram" with
  | Some histogram =>
      let histogram_positive :=
        blank_where (fun x => fltb x (Fin 0)) histogram in
      let histogram_negative :=
        blank_where (fun x => fgeb x (Fin 0)) histogram in
      match macd_data self !! "MACD", macd_data self !! "Signal" with
      | Some m, Some sg =>
          (Some {| plot_MACD := m; plot_Signal := sg;
                   Histogram_Positive := histogram_positive;
                   Histogram_Negative := histogram_negative |}, self, h)
      | _, _ => (None, self, h)
      end
  | None => (None, self, h)
  end.

End WithTALib.

(** The value plotted at a bar: the positive part, else the negative. *)
Definition recombine (pos neg : Series) : Series :=
  zip_with (fun p n => if is_nan p then n else p) pos neg.

Lemma split_value (x : fval) :
  let p := if fltb x (Fin 0) then NaN else x in
  let n := if fgeb x (Fin 0) then NaN else x in
  (if is_nan p then n else p) = x /\
  (p = NaN \/ n = NaN) /\
  (p <> NaN -> fle (Fin 0) p) /\
  (n <> NaN -> flt n (Fin 0)).
Proof.
  unfold fgeb. destruct x as [| | |q]; simpl.
  - repeat split; auto; congruence.
  - repeat split; auto; try congruence. intros _. constructor. discriminate.
  - repeat split; auto; try congruence. intros _. constructor.
  - destruct (Qltb q 0) eqn:E.
    + apply Qltb_lt in E.
      assert (E' : Qle_bool 0 q = false).
      { destruct (Qle_bool 0 q) eqn:E2; [|reflexivity].
        apply Qle_bool_iff in E2. lra. }
      rewrite E'. simpl. repeat split; auto; try congruence.
      intros _. constructor. exact E.
    + apply RiskMetrics.Qltb_false_le in E.
      assert (E' : Qle_bool 0 q = true) by (apply Qle_bool_iff; exact E).
      rewrite E'. simpl. repeat split; auto; try congruence.
      intros _. constructor. exact E.
Qed.

Lemma split_series (hist : Series) :
  let pos := blank_where (fun x => fltb x (Fin 0)) hist in
  let neg := blank_where (fun x => fgeb x (Fin 0)) hist in
  recombine pos neg = hist /\
  (forall i, at_ pos i = NaN \/ at_ neg i = NaN) /\
  (forall i, at_ pos i <> NaN -> fle (Fin 0) (at_ pos i)) /\
  (forall i, at_ neg i <> NaN -> flt (at_ neg i) (Fin 0)).
Proof.
  induction hist as [|x hist IH].
  - simpl. split; [reflexivity|]. split; [left; destruct i; reflexivity|].
    split; intros i H; exfalso; apply H; destruct i; reflexivity.
  - destruct IH as (IH1 & IH2 & IH3 & IH4).
    destruct (split_value x) as (S1 & S2 & S3 & S4).
    unfold blank_where in *. cbn [map]. cbv zeta in *.
    split; [|split; [|split]].
    + unfold recombine in *. cbn [zip_with]. rewrite S1. f_equal. exact IH1.
    + intros [|i]; [exact S2|apply IH2].
    + intros [|i]; [exact S3|apply IH3].
    + intros [|i]; [exact S4|apply IH4].
Qed.

(** X8.  [prepare_for_plotting] splits the histogram into two series of
    its length: at every bar at most one of them is not NaN, the positive
    one holds only values [>= 0], the negative one only values [< 0], and
    taking the positive value where there is one and the negative one
    elsewhere gives the histogram back; on an object that already holds
    MACD data, neither the object nor any frame is changed. *)
Theorem histogram_split
    (MACD_ : Series -> nat -> nat -> nat -> Series * Series * Series)
    (self : MACDIndicator) (h : store) :
  let '(res, self', h') := prepare_for_plotting MACD_ self h in
  (macd_data self <> ∅ -> self' = self /\ h' = h) /\
  forall pd hist,
    res = Some pd -> macd_data self' !! "Histogram" = Some hist ->
    length (Histogram_Positive pd) = length hist /\
    length (Histogram_Negative pd) = length hist /\
    recombine (Histogram_Positive pd) (Histogram_Negative pd) = hist /\
    (forall i, at_ (Histogram_Positive pd) i = NaN \/
               at_ (Histogram_Negative pd) i = NaN) /\
    (forall i, at_ (Histogram_Positive pd) i <> NaN ->
               fle (Fin 0) (at_ (Histogram_Positive pd) i)) /\
    (forall i, at_ (Histogram_Negative pd) i <> NaN ->
               flt (at_ (Histogram_Negative pd) i) (Fin 0)).
Proof.
  unfold prepare_for_plotting.
  assert (Hskip : macd_data self <> ∅ -> ensure_macd MACD_ self h = (self, h)).
  { intros Hne. unfold ensure_macd.
    destruct (decide _) as [E|_]; [contradiction|reflexivity]. }
  destruct (ensure_macd MACD_ self h) as [s1 h1].
  assert (Hsame : macd_data self <> ∅ -> s1 = self /\ h1 = h).
  { intros Hne. specialize (Hskip Hne). injection Hskip as -> ->. auto. }
  destruct (macd_data s1 !! "Histogram") as [H|] eqn:EH;
    [|split; [exact Hsame|discriminate]].
  destruct (macd_data s1 !! "MACD") as [m|];
    [|split; [exact Hsame|discriminate]].
  destruct (macd_data s1 !! "Signal") as [sg|];
    [|split; [exact Hsame|discriminate]].
  split; [exact Hsame|].
  intros pd hist Hres Hh. injection Hres as <-. rewrite EH in Hh.
  injection Hh as <-. cbn [Histogram_Positive Histogram_Negative].
  split; [apply length_map|]. split; [apply length_map|].
  apply split_series.
Qed.

Lemma histogram_split_witness :
  let self := {| data := 0; close := [];
                 macd_data := <["Histogram" := [Fin 1; Fin (-2); NaN; Fin 0]]>
                                (<["Signal" := []]> (<["MACD" := []]> ∅)) |} in
  exists pd,
    fst (fst (prepare_for_plotting (fun _ _ _ _ => ([], [], [])) self ∅))
      = Some pd /\
    recombine (Histogram_Positive pd) (Histogram_Negative pd)
      = [Fin 1; Fin (-2); NaN; Fin 0].
Proof.
  intros self.
  pose proof (histogram_split (fun _ _ _ _ => ([], [], [])) self ∅) as H.
  destruct (prepare_for_plotting _ self ∅) as [[res s1] h1] eqn:E.
  vm_compute in E. injection E as <- <- <-.
  eexists. split; [reflexivity|].
  exact (proj1 (proj2 (proj2 (proj2 H _ _ eq_refl eq_refl)))).
Defined.

End MACDPlot.

(** ** MACD by hand ([MACDIndicator.calculate_macd_manual]) *)

Module MACDManual.

Import MACD.

Record manual_macd := {
  EMA_Fast : Series;
  EMA_Slow : Series;
  MACD_Manual : Series;
  Signal_Manual : Series;
  Histogram_Manual : Series
}.

(** The smoothing factor of [ewm(span=...)]: [2 / (span + 1)]. *)
Definition alpha (span : nat) : Q := 2 / (inject_Z (Z.of_nat span) + 1).

Fixpoint ewm_from (a : Q) (y : fval) (s : Series) : Series :=
  match s with
  | [] => []
  | x :: s' =>
      let y' := fadd (fmul (Fin (1 - a)) y) (fmul (Fin a) x) in
      y' :: ewm_from a y' s'
  end.

(** [series.ewm(span=span, adjust=False).mean()] on a series without NaN:
    [y[0] = x[0]], [y[t] = (1 - alpha) * y[t-1] + alpha * x[t]].  A span
    below 1 is refused ([ValueError], here [None]). *)
Definition ewm_mean (span : nat) (s : Series) : option Series :=
  if span <? 1 then None
  else
    match s with
    | [] => Some []
    | x :: s' => Some (x :: ewm_from (alpha span) x s')
    end.

(** The method reads [self.close] and writes nothing. *)
Definition calculate_macd_manual
    (fast_period slow_period signal_period : option nat)
    (self : MACDIndicator) : option manual_macd :=
  let fast_period := default config_fast_period fast_period in
  let slow_period := default config_slow_period slow_period in
  let signal_period := default config_signal_period signal_period in
  let close_series := close self in
  match ewm_mean fast_period close_series,
        ewm_mean slow_period close_series with
  | Some ema_fast, Some ema_slow =>
      let macd_line := series_sub ema_fast ema_slow in
      match ewm_mean signal_period macd_line with
      | Some signal_line =>
          let histogram := series_sub macd_line signal_line in
          Some {| EMA_Fast := ema_fast; EMA_Slow := ema_slow;
                  MACD_Manual := macd_line; Signal_Manual := signal_line;
                  Histogram_Manual := histogram |}
      | None => None
      end
  | _, _ => None
  end.

(** A finite value equal to [c]. *)
Definition near (c : Q) (x : fval) : Prop := exists q, x = Fin q /\ (q == c)%Q.

Lemma ewm_from_near a c y s :
  near c y -> Forall (near c) s -> Forall (near c) (ewm_from a y s).
Proof.
  revert y. induction s as [|x s IH]; intros y Hy Hs; [constructor|].
  apply Forall_cons in Hs as [Hx Hs]. simpl.
  assert (Hy' : near c (fadd (fmul (Fin (1 - a)) y) (fmul (Fin a) x))).
  { destruct Hy as (p & -> & Hp), Hx as (q & -> & Hq). simpl.
    eexists. split; [reflexivity|]. rewrite Hp, Hq. ring. }
  constructor; [exact Hy'|]. apply IH; assumption.
Qed.

Lemma ewm_mean_near span c s :
  1 <= span -> Forall (near c) s ->
  exists r, ewm_mean span s = Some r /\ length r = length s /\
            Forall (near c) r.
Proof.
  intros Hspan Hs. unfold ewm_mean.
  destruct (Nat.ltb_spec span 1) as [?|_]; [lia|].
  destruct s as [|x s]; [exists []; auto|].
  apply Forall_cons in Hs as [Hx Hs]. eexists. split; [reflexivity|]. split.
  - simpl. f_equal. clear. generalize x. induction s as [|z s IH];
      intros y; simpl; [reflexivity|]. f_equal. apply IH.
  - constructor; [exact Hx|]. apply ewm_from_near; assumption.
Qed.

Lemma series_sub_near a b (s t : Series) :
  Forall (near a) s -> Forall (near b) t ->
  Forall (near (a - b)) (series_sub s t).
Proof.
  intros Hs. revert t. induction Hs as [|x s Hx _ IH]; intros t Ht;
    [constructor|].
  destruct Ht as [|y t Hy Ht]; [constructor|].
  unfold series_sub in *. cbn [zip_with]. constructor; [|apply IH, Ht].
  destruct Hx as (p & -> & Hp), Hy as (q & -> & Hq). simpl.
  eexists. split; [reflexivity|]. rewrite Hp, Hq. ring.
Qed.

Lemma near_zero_is_zero (s : Series) c :
  (c == 0)%Q -> Forall (near c) s -> Forall is_zero s.
Proof.
  intros Hc Hs. eapply Forall_impl; [exact Hs|]. simpl.
  intros x (q & -> & Hq). exists q. split; [reflexivity|].
  rewrite Hq. exact Hc.
Qed.

(** X9.  On a flat close series (every bar at the same finite price) and
    spans of at least 1, [calculate_macd_manual] returns, for every bar
    from the first on, both moving averages equal to the price and a MACD
    line, signal line and histogram equal to zero: there is no warm-up
    window and no NaN. *)
Theorem macd_manual_flat (c : Q) (n fast slow signal : nat)
    (self : MACDIndicator)
    (Hfast : 1 <= fast) (Hslow : 1 <= slow) (Hsignal : 1 <= signal)
    (Hflat : close self = repeat (Fin c) n) :
  exists r,
    calculate_macd_manual (Some fast) (Some slow) (Some signal) self = Some r /\
    length (Histogram_Manual r) = n /\ length (MACD_Manual r) = n /\
    length (Signal_Manual r) = n /\
    Forall (near c) (EMA_Fast r) /\ Forall (near c) (EMA_Slow r) /\
    Forall is_zero (MACD_Manual r) /\ Forall is_zero (Signal_Manual r) /\
    Forall is_zero (Histogram_Manual r).
Proof.
  unfold calculate_macd_manual.
  change (default config_fast_period (Some fast)) with fast.
  change (default config_slow_period (Some slow)) with slow.
  change (default config_signal_period (Some signal)) with signal.
  rewrite Hflat.
  assert (Hc : Forall (near c) (repeat (Fin c) n)).
  { apply Forall_forall. intros x Hx. apply list_elem_of_In in Hx.
    apply repeat_spec in Hx. subst x. exists c. split; reflexivity. }
  destruct (ewm_mean_near fast c _ Hfast Hc) as (ef & -> & Lf & Nf).
  destruct (ewm_mean_near slow c _ Hslow Hc) as (es & -> & Ls & Ns).
  rewrite repeat_length in Lf, Ls.
  pose proof (series_sub_near c c ef es Nf Ns) as Nm.
  destruct (ewm_mean_near signal (c - c) _ Hsignal Nm) as (sg & -> & Lg & Ng).
  pose proof (series_sub_near _ _ _ _ Nm Ng) as Nh.
  assert (Lm : length (series_sub ef es) = n)
    by (unfold series_sub; rewrite length_zip_with; lia).
  eexists. split; [reflexivity|]. cbn [Histogram_Manual MACD_Manual
    Signal_Manual EMA_Fast EMA_Slow].
  split; [unfold series_sub at 1; rewrite length_zip_with; lia|].
  split; [exact Lm|]. split; [lia|].
  split; [exact Nf|]. split; [exact Ns|].
  split; [apply (near_zero_is_zero _ (c - c)); [ring|exact Nm]|].
  split; [apply (near_zero_is_zero _ (c - c)); [ring|exact Ng]|].
  apply (near_zero_is_zero _ (c - c - (c - c))); [ring|exact Nh].
Qed.

Lemma macd_manual_flat_witness :
  let self := {| data := 0; close := repeat (Fin 7) 4; macd_data := ∅ |} in
  1 <= 2 /\ 1 <= 3 /\ close self = repeat (Fin 7) 4 /\
  exists r, calculate_macd_manual (Some 2) (Some 3) (Some 2) self = Some r /\
            Forall is_zero (Histogram_Manual r).
Proof.
  intros self.
  assert (H2 : 1 <= 2) by lia. assert (H3 : 1 <= 3) by lia.
  split; [exact H2|]. split; [exact H3|]. split; [reflexivity|].
  destruct (macd_manual_flat 7 4 2 3 2 self H2 H3 H2 eq_refl)
    as (r & Hr & _ & _ & _ & _ & _ & _ & _ & Hh).
  exists r. split; assumption.
Defined.

Example ewm_span_zero_refused : ewm_mean 0 [Fin 1; Fin 2] = None.
Proof. reflexivity. Qed.

End MACDManual.

(** ** The comparator and its three frames ([KDJRSIComparator]) *)

Module Comparator.

Record KDJRSIComparator := mkCmp {
  data : nat;
  kdj : KDJ.KDJIndicator;
  rsi : RSI.RSIIndicator
}.

(** [self.data = data.copy(); self.kdj = KDJIndicator(data);
    self.rsi = RSIIndicator(data)]. *)
Definition __init__ (data_arg : nat) (h : store)
  : option KDJRSIComparator * store :=
  match copy_frame data_arg h with
  | Some (a, h1) =>
      match KDJ.__init__ data_arg h1 with
      | (Some k, h2) =>
          match RSI.__init__ data_arg h2 with
          | (Some r, h3) => (Some {| data := a; kdj := k; rsi := r |}, h3)
          | (None, h3) => (None, h3)
          end
      | (None, h2) => (None, h2)
      end
  | None => (None, h)
  end.

Section WithTALib.

Variable STOCH :
  Series -> Series -> Series -> nat -> nat -> nat -> Series * Series.
Variable RSI_ : Series -> nat -> Series.

(** The result is the frame [self.data], by its address; [None] stands for
    a [KeyError] on [self.rsi.data['RSI']]. *)
Definition calculate_all_indicators (self : KDJRSIComparator) (h : store)
  : option nat * KDJRSIComparator * store :=
  let '(_, kdj', h1) := KDJ.calculate_kdj STOCH None None None (kdj self) h in
  let '(_, rsi', h2) := RSI.calculate_rsi RSI_ None (rsi self) h1 in
  let self' := {| data := data self; kdj := kdj'; rsi := rsi' |} in
  let h3 := set_columns (data self) (KDJ.kdj_data kdj') h2 in
  match values_of (RSI.data rsi') "RSI" h3 with
  | Some series => (Some (data self), self',
                    set_column (data self) "RSI" series h3)
  | None => (None, self', h3)
  end.

End WithTALib.

Lemma copy_frame_fresh a (h : store) a' h' :
  copy_frame a h = Some (a', h') ->
  exists df, h !! a = Some df /\ h !! a' = None /\ h' = <[a' := df]> h.
Proof.
  unfold copy_frame. destruct (h !! a) as [df|] eqn:E; [|discriminate].
  intros [= <- <-]. exists df. split; [reflexivity|]. split; [|reflexivity].
  apply not_elem_of_dom. apply is_fresh.
Qed.

Lemma values_of_set_column a key s (h : store) df :
  h !! a = Some df -> values_of a key (set_column a key s h) = Some s.
Proof.
  intros Ha. unfold values_of, set_column. rewrite lookup_alter_eq, Ha.
  simpl. apply lookup_insert_eq.
Qed.

Lemma values_of_set_columns a d key s (h : store) df :
  h !! a = Some df -> d !! key = Some s ->
  values_of a key (set_columns a d h) = Some s.
Proof.
  intros Ha Hd. unfold values_of, set_columns. rewrite lookup_alter_eq, Ha.
  simpl. apply lookup_union_Some_l. exact Hd.
Qed.

Lemma values_of_other (b : nat) key (h h' : store) :
  h' !! b = h !! b -> values_of b key h' = values_of b key h.
Proof. intros E. unfold values_of. rewrite E. reflexivity. Qed.

Lemma copy_frame_ok a (h : store) df :
  h !! a = Some df ->
  exists a', copy_frame a h = Some (a', <[a' := df]> h) /\ h !! a' = None.
Proof.
  intros Ha. destruct (copy_frame a h) as [[a' h']|] eqn:E.
  - destruct (copy_frame_fresh a h a' h' E) as (df' & Ha' & Hf & ->).
    rewrite Ha in Ha'. injection Ha' as <-. exists a'. auto.
  - unfold copy_frame in E. rewrite Ha in E. discriminate.
Qed.

Ltac store_lookup :=
  unfold values_of, set_columns, set_column;
  repeat first
    [ rewrite lookup_alter_eq
    | rewrite lookup_alter_ne by congruence
    | rewrite lookup_insert_eq
    | rewrite lookup_insert_ne by congruence ].

(** X10.  A comparator built on a caller's frame that has the columns
    High, Low and Close keeps three private frames (its own, the KDJ
    object's, the RSI object's) at three distinct addresses, none of them
    the caller's.  [calculate_all_indicators] then returns the comparator's
    own frame, which holds the K, D, J and RSI series computed from the
    caller's columns, and the caller's frame is still what it was. *)
Theorem comparator_frames
    (STOCH : Series -> Series -> Series -> nat -> nat -> nat -> Series * Series)
    (RSI_ : Series -> nat -> Series)
    (a : nat) (h : store) (df : DataFrame) (hi lo c : Series)
    (Ha : h !! a = Some df)
    (Hhi : df_columns df !! "High" = Some hi)
    (Hlo : df_columns df !! "Low" = Some lo)
    (Hc : df_columns df !! "Close" = Some c) :
  exists self h0,
    __init__ a h = (Some self, h0) /\
    NoDup [a; data self; KDJ.data (kdj self); RSI.data (rsi self)] /\
    h0 !! a = Some df /\
    exists self' h',
      calculate_all_indicators STOCH RSI_ self h0
        = (Some (data self), self', h') /\
      h' !! a = Some df /\
      values_of (data self) "RSI" h' = Some (RSI_ c RSI.config_period) /\
      (let '(K, D) := STOCH hi lo c KDJ.config_fastk_period
                        KDJ.config_slowk_period KDJ.config_slowd_period in
       values_of (data self) "K" h' = Some K /\
       values_of (data self) "D" h' = Some D /\
       values_of (data self) "J" h'
         = Some (zip_with (fun k d => fsub (fmul (Fin 3) k) (fmul (Fin 2) d))
                          K D)) /\
      forall b, b <> data self -> b <> KDJ.data (kdj self) ->
                b <> RSI.data (rsi self) -> h' !! b = h0 !! b.
Proof.
  destruct (copy_frame_ok a h df Ha) as (a1 & E1 & F1).
  assert (N1 : a1 <> a) by congruence.
  assert (Ha1 : (<[a1 := df]> h : store) !! a = Some df)
    by (rewrite lookup_insert_ne by exact N1; exact Ha).
  destruct (copy_frame_ok a _ df Ha1) as (a2 & E2 & F2).
  assert (N2 : a2 <> a) by congruence.
  assert (N21 : a2 <> a1) by (intros ->; rewrite lookup_insert_eq in F2; discriminate).
  assert (Ha2 : (<[a2 := df]> (<[a1 := df]> h) : store) !! a = Some df)
    by (rewrite lookup_insert_ne by exact N2; exact Ha1).
  destruct (copy_frame_ok a _ df Ha2) as (a3 & E3 & F3).
  assert (N3 : a3 <> a) by congruence.
  assert (N32 : a3 <> a2) by (intros ->; rewrite lookup_insert_eq in F3; discriminate).
  assert (N31 : a3 <> a1).
  { intros ->. rewrite lookup_insert_ne, lookup_insert_eq in F3 by congruence.
    discriminate. }
  set (h3 := (<[a3 := df]> (<[a2 := df]> (<[a1 := df]> h)) : store)) in *.
  assert (Ha3 : h3 !! a = Some df)
    by (unfold h3; rewrite lookup_insert_ne by exact N3; exact Ha2).
  assert (Hinit : __init__ a h
    = (Some {| data := a1;
               kdj := {| KDJ.data := a2; KDJ.high := hi; KDJ.low := lo;
                         KDJ.close := c; KDJ.kdj_data := ∅ |};
               rsi := {| RSI.data := a3; RSI.close := c |} |}, h3)).
  { unfold __init__, KDJ.__init__, RSI.__init__. rewrite E1, E2.
    unfold values_of at 1 2 3. rewrite Ha2, Hhi, Hlo, Hc. rewrite E3.
    unfold values_of. fold h3. rewrite Ha3, Hc. reflexivity. }
  eexists _, h3. split; [exact Hinit|]. cbn [data kdj rsi KDJ.data RSI.data].
  split.
  { repeat constructor; rewrite ?elem_of_cons, ?elem_of_nil; intuition congruence. }
  split; [exact Ha3|].
  assert (H1 : h3 !! a1 = Some df)
    by (unfold h3; rewrite lookup_insert_ne, lookup_insert_ne, lookup_insert_eq
          by congruence; reflexivity).
  assert (H2 : h3 !! a2 = Some df)
    by (unfold h3; rewrite lookup_insert_ne, lookup_insert_eq by congruence;
        reflexivity).
  assert (H3 : h3 !! a3 = Some df)
    by (unfold h3; rewrite lookup_insert_eq; reflexivity).
  unfold calculate_all_indicators, KDJ.calculate_kdj, RSI.calculate_rsi.
  cbn [data kdj rsi KDJ.data KDJ.high KDJ.low KDJ.close KDJ.kdj_data
       RSI.data RSI.close default].
  change (default KDJ.config_fastk_period None) with KDJ.config_fastk_period.
  change (default KDJ.config_slowk_period None) with KDJ.config_slowk_period.
  change (default KDJ.config_slowd_period None) with KDJ.config_slowd_period.
  change (default RSI.config_period None) with RSI.config_period.
  destruct (STOCH hi lo c KDJ.config_fastk_period KDJ.config_slowk_period
              KDJ.config_slowd_period) as [K D].
  cbn [data kdj rsi KDJ.data KDJ.kdj_data RSI.data].
  set (J := zip_with (fun k d => fsub (fmul (Fin 3) k) (fmul (Fin 2) d)) K D).
  set (kd := (<["J" := J]> (<["D" := D]> (<["K" := K]> ∅))
              : gmap string Series)).
  assert (Hrsi : values_of a3 "RSI"
                   (set_columns a1 kd
                      (set_column a3 "RSI" (RSI_ c RSI.config_period)
                         (set_columns a2 kd h3)))
                 = Some (RSI_ c RSI.config_period)).
  { store_lookup. rewrite H3. simpl. apply lookup_insert_eq. }
  rewrite Hrsi. do 2 eexists. split; [reflexivity|].
  split; [store_lookup; exact Ha3|].
  split; [store_lookup; rewrite H1; simpl; apply lookup_insert_eq|].
  split.
  { split; [|split]; store_lookup; rewrite H1; simpl;
      rewrite lookup_insert_ne by discriminate;
      apply lookup_union_Some_l; reflexivity. }
  intros b B1 B2 B3. store_lookup. reflexivity.
Qed.

Lemma comparator_frames_witness :
  let h : store := {[ 0 := sample_caller_frame ]} in
  exists self h0,
    __init__ 0 h = (Some self, h0) /\
    NoDup [0; data self; KDJ.data (kdj self); RSI.data (rsi self)] /\
    h0 !! 0 = Some sample_caller_frame.
Proof.
  intros h.
  destruct (comparator_frames (fun _ _ _ _ _ _ => ([], [])) (fun _ _ => [])
              0 h sample_caller_frame
              [Fin 6; Fin 8; Fin 7] [Fin 4; Fin 6; Fin 5] [Fin 5; Fin 7; Fin 6]
              eq_refl eq_refl eq_refl eq_refl)
    as (self & h0 & Hi & Hnd & H0 & _).
  exists self, h0. auto.
Defined.

End Comparator.

(** ** How many crossings there can be
    ([identify_cross_signals] with [count_signals]) *)

Module CrossCounts.

Lemma exclusive_counts (g d : list bool) :
  length g = length d ->
  (forall i, ~ (nth i g false = true /\ nth i d false = true)) ->
  count_signals g + count_signals d <= length g.
Proof.
  unfold count_signals. revert d. induction g as [|x g IH]; intros [|y d] Hlen Hex;
    simpl in Hlen; try discriminate; [simpl; lia|].
  injection Hlen as Hlen.
  assert (IH' : length (List.filter (fun b : bool => b) g)
                + length (List.filter (fun b : bool => b) d) <= length g).
  { apply IH; [exact Hlen|]. intros i. apply (Hex (S i)). }
  specialize (Hex 0). simpl in Hex.
  destruct x, y; simpl; first [lia | exfalso; apply Hex; auto].
Qed.

(** X11.  For two series of one length, the golden crosses and the death
    crosses that [count_signals] counts in the result of
    [identify_cross_signals] add up to at most the number of bars minus
    one: the first bar is never a crossing and no bar is both. *)
Theorem crossings_at_most_bars_minus_one (fast slow : Series)
    (Hlen : length fast = length slow) :
  exists golden death,
    identify_cross_signals fast slow = Some (golden, death) /\
    count_signals golden + count_signals death <= length fast - 1.
Proof.
  destruct (identify_cross_signals_pointwise fast slow Hlen)
    as (g & d & Hrun & Lg & Ld & Hpt).
  exists g, d. split; [exact Hrun|].
  assert (Hex : forall i, ~ (nth i g false = true /\ nth i d false = true)).
  { intros i [Hg Hd].
    destruct (Nat.lt_ge_cases i (length fast)) as [Hi|Hi].
    - destruct (Hpt i Hi) as [Eg Ed]. rewrite Eg in Hg. rewrite Ed in Hd.
      apply andb_true_iff in Hg as [Hg _]. apply andb_true_iff in Hd as [Hd _].
      unfold fgtb in Hg. apply fltb_asym in Hg. congruence.
    - rewrite nth_overflow in Hg by lia. discriminate. }
  destruct g as [|g0 g], d as [|d0 d]; simpl in Lg, Ld; try lia.
  - unfold count_signals. simpl. lia.
  - assert (Hg0 : g0 = false).
    { destruct (Hpt 0) as [E _]; [lia|]. simpl in E. rewrite E.
      apply andb_false_r. }
    assert (Hd0 : d0 = false).
    { destruct (Hpt 0) as [_ E]; [lia|]. simpl in E. rewrite E.
      unfold fgeb. simpl. apply andb_false_r. }
    subst g0 d0. unfold count_signals. cbn [List.filter].
    fold (count_signals g). fold (count_signals d).
    assert (H : count_signals g + count_signals d <= length g).
    { apply exclusive_counts; [lia|]. intros i. apply (Hex (S i)). }
    lia.
Qed.

Lemma crossings_at_most_bars_minus_one_witness :
  length [Fin 1; Fin 3; Fin 1; Fin 3] = length [Fin 2; Fin 2; Fin 2; Fin 2] /\
  exists golden death,
    identify_cross_signals [Fin 1; Fin 3; Fin 1; Fin 3]
                           [Fin 2; Fin 2; Fin 2; Fin 2]
      = Some (golden, death) /\
    count_signals golden + count_signals death <= 3.
Proof.
  split; [reflexivity|].
  exact (crossings_at_most_bars_minus_one [Fin 1; Fin 3; Fin 1; Fin 3]
           [Fin 2; Fin 2; Fin 2; Fin 2] eq_refl).
Defined.

End CrossCounts.

(** ** Bounds on the signal statistics
    ([QuantitativeStatistics._calculate_signal_returns]) *)

Module StatisticsFacts.

Import Statistics.

Lemma booked_among_signals L h flags k :
  length (List.filter (fun x : nat * bool => snd x && (fst x + h <? L))
                      (enumerate_from k flags))
  <= count_signals flags /\
  (length (List.filter (fun x : nat * bool => snd x && (fst x + h <? L))
                       (enumerate_from k flags))
   = count_signals flags <->
   forall j, nth j flags false = true -> k + j + h < L).
Proof.
  unfold count_signals. revert k. induction flags as [|b fl IH]; intros k.
  - simpl. split; [lia|]. split; [|reflexivity].
    intros _ j Hj. destruct j; discriminate.
  - destruct (IH (S k)) as [IHle IHeq].
    cbn [enumerate_from List.filter snd fst]. destruct b; cbn [andb].
    + destruct (Nat.ltb_spec (k + h) L) as [Hlt|Hge]; cbn [length].
      * split; [lia|]. split.
        -- intros E j Hj. destruct j as [|j]; [lia|].
           assert (E' : S k + j + h < L) by (apply IHeq; [lia|exact Hj]).
           lia.
        -- intros Hall. f_equal. apply IHeq. intros j Hj.
           specialize (Hall (S j) Hj). lia.
      * split; [lia|]. split; [lia|].
        intros Hall. specialize (Hall 0 eq_refl). lia.
    + split; [exact IHle|]. split.
      * intros E j Hj. destruct j as [|j]; [discriminate|].
        assert (E' : S k + j + h < L) by (apply IHeq; [exact E|exact Hj]).
        lia.
      * intros Hall. apply IHeq. intros j Hj.
        specialize (Hall (S j) Hj). lia.
Qed.

Lemma count_signal_points (signal_series : list (Z * bool)) :
  length (signal_points signal_series) = count_signals (map snd signal_series).
Proof.
  unfold signal_points, count_signals. rewrite length_map.
  induction signal_series as [|[lab b] s IH]; [reflexivity|].
  simpl. destruct b; simpl; rewrite IH; reflexivity.
Qed.

Lemma inject_nat_le a b :
  a <= b -> (inject_Z (Z.of_nat a) <= inject_Z (Z.of_nat b))%Q.
Proof. intros H. unfold Qle. simpl. lia. Qed.

Lemma fdiv_of_nat a n :
  0 < n ->
  fdiv (of_nat a) (of_nat n)
  = Fin (inject_Z (Z.of_nat a) / inject_Z (Z.of_nat n)).
Proof.
  intros Hn. unfold of_nat. cbn [fdiv].
  rewrite (Bollinger.Qsign_of_nat_pos n Hn). reflexivity.
Qed.

Lemma win_rate_bounds (returns_list : list fval) points :
  exists w, win_rate (stats_of returns_list points) = Fin w /\
            (0 <= w)%Q /\ (w <= 100)%Q.
Proof.
  destruct returns_list as [|r rl]; [exists 0%Q; simpl; split; [reflexivity|lra]|].
  unfold stats_of. cbn [win_rate].
  set (l := r :: rl).
  set (wins := length (List.filter (fun r0 => fgtb r0 (Fin 0)) l)).
  assert (Hw : wins <= length l)
    by (apply sublist_length, CleaningFacts.filter_sublist).
  assert (Hn : 0 < length l) by (simpl; lia).
  rewrite (fdiv_of_nat _ _ Hn). unfold hundred. cbn [fmul].
  eexists. split; [reflexivity|].
  pose proof (Bollinger.inject_nat_pos _ Hn) as Hpos.
  pose proof (inject_nat_le _ _ Hw) as Hle.
  pose proof (inject_nat_le 0 wins (Nat.le_0_l _)) as H0.
  change (inject_Z (Z.of_nat 0)) with 0%Q in H0.
  set (W := inject_Z (Z.of_nat wins)) in *.
  set (N := inject_Z (Z.of_nat (length l))) in *.
  assert (Hq0 : (0 <= W / N)%Q).
  { apply Qle_shift_div_l; [exact Hpos|]. lra. }
  assert (Hq1 : (W / N <= 1)%Q).
  { apply Qle_shift_div_r; [exact Hpos|]. lra. }
  split; lra.
Qed.

(** X12.  Over a frame with distinct index labels and a signal series on
    the same index: [total_trades] is the number of signals, [signal_count]
    (the booked ones) never exceeds it, the two are equal exactly when
    every signal has [holding_days] later bars, and [win_rate] is a number
    between 0 and 100. *)
Theorem signal_stats_bounds (data : frame) (signal_series : list (Z * bool))
    (h : nat)
    (Hnd : NoDup (index_of data))
    (Hal : map fst signal_series = index_of data) :
  exists st,
    _calculate_signal_returns data signal_series (Z.of_nat h) = Some st /\
    total_trades st = count_signals (map snd signal_series) /\
    signal_count st <= total_trades st /\
    (signal_count st = total_trades st <->
     forall i, nth i (map snd signal_series) false = true ->
               i + h < length data) /\
    exists w, win_rate st = Fin w /\ (0 <= w)%Q /\ (w <= 100)%Q.
Proof.
  unfold _calculate_signal_returns, returns_list_of.
  rewrite (returns_fold data h Hnd signal_series 0 [])
    by (rewrite drop_0; exact Hal).
  cbn [app]. eexists. split; [reflexivity|].
  set (booked := map fst (List.filter
                   (fun x : nat * bool => snd x && (fst x + h <? length data))
                   (enumerate_from 0 (map snd signal_series)))).
  assert (Hcount : signal_count
            (stats_of (map (forward_return data h) booked)
                      (length (signal_points signal_series)))
          = length booked).
  { unfold stats_of. destruct booked; simpl; [reflexivity|].
    rewrite length_map. reflexivity. }
  assert (Htotal : total_trades
            (stats_of (map (forward_return data h) booked)
                      (length (signal_points signal_series)))
          = count_signals (map snd signal_series)).
  { unfold stats_of. destruct (map _ booked); simpl; apply count_signal_points. }
  destruct (booked_among_signals (length data) h (map snd signal_series) 0)
    as [Hle Heq].
  assert (Hb : length booked
               = length (List.filter
                   (fun x : nat * bool => snd x && (fst x + h <? length data))
                   (enumerate_from 0 (map snd signal_series))))
    by (unfold booked; apply length_map).
  split; [exact Htotal|]. rewrite Hcount, Htotal, Hb.
  split; [exact Hle|]. split; [exact Heq|]. apply win_rate_bounds.
Qed.

Lemma signal_stats_bounds_witness :
  let data := [(1, Fin 10); (2, Fin 11); (3, Fin 12); (4, Fin 15)]%Z in
  let sig := [(1, true); (2, false); (3, true); (4, false)]%Z in
  NoDup (index_of data) /\ map fst sig = index_of data /\
  exists st, _calculate_signal_returns data sig 2%Z = Some st /\
             signal_count st <= total_trades st.
Proof.
  intros data sig.
  assert (Hnd : NoDup (index_of data)).
  { apply (bool_decide_unpack (NoDup (index_of data))). vm_compute. exact I. }
  split; [exact Hnd|]. split; [reflexivity|].
  destruct (signal_stats_bounds data sig 2 Hnd eq_refl)
    as (st & Hrun & _ & Hle & _).
  exists st. split; assumption.
Defined.

End StatisticsFacts.

(** ** The band width column as a cache
    ([analyze_squeeze_pattern], [get_current_bollinger_status]) *)

Module WidthCache.

Import Bollinger.

Section WithTALib.

Variable BBANDS : Series -> nat -> fval -> fval -> Series * Series * Series.

(** The opening of [analyze_squeeze_pattern], repeated in
    [get_current_bollinger_status]:
    [if 'BB_Width' not in self.data.columns: self.calculate_band_width()]
    followed by [band_width = self.data['BB_Width']]. *)
Definition band_width_for_analysis (self : BollingerBands) (h : store)
  : option Series * BollingerBands * store :=
  if has_column (data self) "BB_Width" h then
    (values_of (data self) "BB_Width" h, self, h)
  else
    let '(_, self', h') := calculate_band_width BBANDS self h in
    (values_of (data self') "BB_Width" h', self', h').

(** The width of the bands of a given period and multiplier. *)
Definition width_of (close : Series) (period : nat) (std_dev : fval)
  : Series :=
  let '(upper, middle, lower) := BBANDS close period std_dev std_dev in
  series_div (series_sub upper lower) middle.

(** X13.  The column [BB_Width] of [self.data] is a cache that
    [calculate_bollinger_bands] does not refresh: after bands with one
    parameter set, [calculate_band_width], and then bands with another
    parameter set, the object holds the second bands, but the width that
    [analyze_squeeze_pattern] and [get_current_bollinger_status] read is
    still the width of the first bands. *)
Theorem band_width_column_is_stale (self : BollingerBands) (h : store)
    (df : DataFrame) (p1 p2 : nat) (k1 k2 : fval)
    (Hframe : h !! data self = Some df) :
  let '(_, s1, h1) :=
    calculate_bollinger_bands BBANDS (Some p1) (Some k1) self h in
  let '(w1, s2, h2) := calculate_band_width BBANDS s1 h1 in
  let '(d3, s3, h3) :=
    calculate_bollinger_bands BBANDS (Some p2) (Some k2) s2 h2 in
  w1 = Some (width_of (close self) p1 k1) /\
  bollinger_data s3 = d3 /\
  (let '(upper, middle, lower) := BBANDS (close self) p2 k2 k2 in
   d3 !! "BB_Upper" = Some upper /\ d3 !! "BB_Middle" = Some middle /\
   d3 !! "BB_Lower" = Some lower) /\
  fst (fst (band_width_for_analysis s3 h3))
  = Some (width_of (close self) p1 k1).
Proof.
  unfold calculate_bollinger_bands, width_of.
  change (default config_period (Some p1)) with p1.
  change (default config_std_dev (Some k1)) with k1.
  change (default config_period (Some p2)) with p2.
  change (default config_std_dev (Some k2)) with k2.
  destruct (BBANDS (close self) p1 k1 k1) as [[U1 M1] L1] eqn:E1.
  unfold calculate_band_width.
  rewrite ensure_bands_skip by apply bands_nonempty.
  cbn [bollinger_data close data].
  change ((<["BB_Lower" := L1]> (<["BB_Middle" := M1]>
            (<["BB_Upper" := U1]> (∅ : gmap string Series)))) !! "BB_Upper")
    with (Some U1).
  change ((<["BB_Lower" := L1]> (<["BB_Middle" := M1]>
            (<["BB_Upper" := U1]> (∅ : gmap string Series)))) !! "BB_Lower")
    with (Some L1).
  change ((<["BB_Lower" := L1]> (<["BB_Middle" := M1]>
            (<["BB_Upper" := U1]> (∅ : gmap string Series)))) !! "BB_Middle")
    with (Some M1).
  cbn [bollinger_data close data].
  destruct (BBANDS (close self) p2 k2 k2) as [[U2 M2] L2] eqn:E2.
  cbn [bollinger_data close data].
  split; [reflexivity|]. split; [reflexivity|].
  split; [repeat split; reflexivity|].
  set (w := series_div (series_sub U1 L1) M1).
  assert (Hcol : forall d1 d2 : gmap string Series,
            values_of (data self) "BB_Width"
              (set_columns (data self) d2
                 (set_column (data self) "BB_Width" w
                    (set_columns (data self) d1 h)))
            = match d2 !! "BB_Width" with
              | Some s => Some s
              | None => Some w
              end).
  { intros d1 d2. unfold values_of, set_columns, set_column.
    rewrite !lookup_alter_eq, Hframe. simpl.
    rewrite lookup_union. destruct (d2 !! "BB_Width") as [s|] eqn:Ed.
    - rewrite lookup_insert_eq. reflexivity.
    - rewrite lookup_insert_eq. reflexivity. }
  unfold band_width_for_analysis, has_column. cbn [data].
  rewrite Hcol.
  change ((<["BB_Lower" := L2]> (<["BB_Middle" := M2]>
            (<["BB_Upper" := U2]> (∅ : gmap string Series)))) !! "BB_Width")
    with (@None Series).
  cbn [fst]. reflexivity.
Qed.

End WithTALib.

Lemma band_width_column_is_stale_witness :
  let self := {| data := 0; close := map Fin [1%Q; 2%Q; 4%Q; 8%Q];
                 bollinger_data := ∅ |} in
  let h : store := {[ 0 := mkDF [] ∅ ]} in
  h !! data self = Some (mkDF [] ∅) /\
  let '(_, s1, h1) :=
    calculate_bollinger_bands BBANDS_model (Some 2) (Some (Fin 2)) self h in
  let '(w1, s2, h2) := calculate_band_width BBANDS_model s1 h1 in
  let '(d3, s3, h3) :=
    calculate_bollinger_bands BBANDS_model (Some 3) (Some (Fin 1)) s2 h2 in
  fst (fst (band_width_for_analysis BBANDS_model s3 h3))
  = Some (width_of BBANDS_model (close self) 2 (Fin 2)).
Proof.
  intros self h. split; [reflexivity|].
  pose proof (band_width_column_is_stale BBANDS_model self h (mkDF [] ∅)
                2 3 (Fin 2) (Fin 1) eq_refl) as H.
  destruct (calculate_bollinger_bands BBANDS_model (Some 2) (Some (Fin 2))
              self h) as [[d1 s1] h1].
  destruct (calculate_band_width BBANDS_model s1 h1) as [[w1 s2] h2].
  destruct (calculate_bollinger_bands BBANDS_model (Some 3) (Some (Fin 1))
              s2 h2) as [[d3 s3] h3].
  exact (proj2 (proj2 (proj2 H))).
Defined.

(** The stale width differs from the width of the bands now held. *)
Example stale_width_differs :
  width_of BBANDS_model (map Fin [1%Q; 2%Q; 4%Q; 8%Q]) 2 (Fin 2)
  <> width_of BBANDS_model (map Fin [1%Q; 2%Q; 4%Q; 8%Q]) 3 (Fin 1).
Proof. vm_compute. discriminate. Qed.

End WidthCache.

(** ** The Calmar ratio ([calculate_risk_metrics]) *)

Module Calmar.

Import RiskMetrics.

(** [a != b] on floats: true as soon as one side is NaN. *)
Definition fneb (a b : fval) : bool := negb (DataLoader.feqb a b).

(** [abs(a)]. *)
Definition fabs (a : fval) : fval :=
  match a with
  | NaN => NaN
  | PInf | NInf => PInf
  | Fin x => Fin (if Qltb x 0 then - x else x)%Q
  end.

(** [a ** n] for a whole exponent [n]. *)
Definition fpow (a : fval) (n : nat) : fval :=
  match n, a with
  | 0, _ => Fin 1
  | _, NaN => NaN
  | _, PInf => PInf
  | _, NInf => if Nat.even n then PInf else NInf
  | _, Fin x => Fin (x ^ Z.of_nat n)%Q
  end.

(** [Series.mean()]: NaN entries are skipped; NaN when nothing is left. *)
Definition series_mean (s : Series) : fval :=
  mean (List.filter (fun x => negb (is_nan x)) s).

(** [annual_return = ((1 + returns.mean()) ** 252 - 1) * 100]. *)
Definition annual_return (returns : Series) : fval :=
  fmul (fsub (fpow (fadd (Fin 1) (series_mean returns)) 252) (Fin 1))
       (Fin 100).

(** [calmar_ratio = abs(annual_return / max_drawdown)
                    if max_drawdown != 0 else 0]. *)
Definition calmar_ratio (returns : Series) : fval :=
  if fneb (max_drawdown returns) (Fin 0)
  then fabs (fdiv (annual_return returns) (max_drawdown returns))
  else Fin 0.

(** Compounding returns that are not negative gives a curve that never
    falls. *)
Lemma cumprodQ_nondecr rs :
  forall a, (0 < a)%Q -> Forall (fun r => (0 <= r)%Q) rs ->
    nondecrQ a (cumprodQ a (map (Qplus 1) rs)).
Proof.
  induction rs as [|r rs IH]; intros a Ha Hrs; [exact I|].
  apply Forall_cons in Hrs as [Hr Hrs]. cbn [map cumprodQ nondecrQ].
  assert (Hprod : (0 <= a * r)%Q)
    by (apply Qmult_le_0_compat; [apply Qlt_le_weak, Ha|exact Hr]).
  assert (E : (a * (1 + r) == a + a * r)%Q) by ring.
  split.
  - rewrite E. lra.
  - apply IH; [|exact Hrs]. rewrite E. lra.
Qed.

(** The max drawdown of returns that are not negative is zero. *)
Lemma max_drawdown_no_loss (r0 : Q) (rs : list Q) :
  Forall (fun r => (0 <= r)%Q) (r0 :: rs) ->
  is_zero (max_drawdown (map Fin (r0 :: rs))).
Proof.
  intros Hall. apply Forall_cons in Hall as [Hr0 Hrs].
  set (c0 := (1 * (1 + r0))%Q).
  set (cs := cumprodQ c0 (map (Qplus 1) rs)).
  assert (Hpos : (0 < c0)%Q) by (unfold c0; lra).
  assert (Hc0 : ~ (c0 == 0)%Q) by (intros H; rewrite H in Hpos; lra).
  assert (Hdd : drawdown (map Fin (r0 :: rs))
    = fdiv (fsub (Fin c0) (Fin c0)) (Fin c0)
      :: zip_with (fun c m => fdiv (fsub c m) m)
           (map Fin cs) (map Fin (runmaxQ c0 cs))).
  { unfold drawdown.
    rewrite (rolling_max_fin r0 rs), cumulative_returns_fin. reflexivity. }
  pose proof (drawdown_first_zero c0 Hc0) as Hz0.
  assert (Hmin : is_zero (series_min (drawdown (map Fin (r0 :: rs))))).
  { unfold series_min. rewrite Hdd. apply fold_min_zero.
    - left. reflexivity.
    - constructor; [right; exact Hz0|].
      apply drawdown_at_peaks.
      apply (runmaxQ_nondecr cs c0 c0); [reflexivity|].
      apply cumprodQ_nondecr; assumption.
    - right. apply Exists_cons. left. exact Hz0. }
  unfold max_drawdown. destruct Hmin as (q & -> & Hq). simpl.
  eexists. split; [reflexivity|]. rewrite Hq. lra.
Qed.

(** X14.  A return series without a losing day (every return finite and
    not negative) has max drawdown zero, so the guard [max_drawdown != 0]
    fails and the Calmar ratio is reported as 0, whatever the annual
    return is. *)
Theorem calmar_zero_without_loss (r0 : Q) (rs : list Q)
    (Hall : Forall (fun r => (0 <= r)%Q) (r0 :: rs)) :
  is_zero (max_drawdown (map Fin (r0 :: rs))) /\
  calmar_ratio (map Fin (r0 :: rs)) = Fin 0.
Proof.
  pose proof (max_drawdown_no_loss r0 rs Hall) as Hz.
  split; [exact Hz|]. unfold calmar_ratio, fneb.
  destruct Hz as (q & -> & Hq). simpl.
  apply Qeq_bool_iff in Hq. rewrite Hq. reflexivity.
Qed.

Lemma calmar_zero_without_loss_witness :
  Forall (fun r => (0 <= r)%Q) [(1 # 10)%Q; 0%Q; (1 # 5)%Q] /\
  calmar_ratio (map Fin [(1 # 10)%Q; 0%Q; (1 # 5)%Q]) = Fin 0.
Proof.
  assert (H : Forall (fun r => (0 <= r)%Q) [(1 # 10)%Q; 0%Q; (1 # 5)%Q]).
  { repeat constructor; intros H; vm_compute in H; discriminate. }
  split; [exact H|].
  exact (proj2 (calmar_zero_without_loss (1 # 10)%Q [0%Q; (1 # 5)%Q] H)).
Defined.

(** The guard lets NaN through: a first return of -1 makes the max drawdown
    NaN, [NaN != 0] holds, and the ratio is NaN. *)
Example calmar_total_loss_nan : calmar_ratio [Fin (-1)%Q] = NaN.
Proof. reflexivity. Qed.

(** With a loss, the ratio is the annual return over the drawdown. *)
Example calmar_sample :
  exists q, calmar_ratio (map Fin [(1 # 10)%Q; (- (1 # 2))%Q]) = Fin q /\
            (0 < q)%Q.
Proof. eexists. split; [vm_compute; reflexivity|]. reflexivity. Qed.

End Calmar.

(** ** Dates for the data service ([format_date_for_tushare]) *)

Module TushareDate.

Section WithPandas.

(** A Python string is a sequence of code points; two of them are the
    separators the function removes. *)
Variable char : Type.
Context `{EqDecision char}.
Variables dash slash : char.

(** An argument that is not a string (a date object). *)
Variable obj : Type.

(** [pd.to_datetime(s)] and [date_obj.strftime('%Y%m%d')]; [None] when the
    call raises. *)
Variable to_datetime : list char -> option obj.
Variable strftime : obj -> option (list char).

Inductive value : Type :=
| Str (s : list char)
| Obj (o : obj).

(** [s.replace(c, '')] for a separator [c] of one character. *)
Definition remove_char (c : char) (s : list char) : list char :=
  List.filter (fun x => negb (bool_decide (x = c))) s.

(** [date_str.replace('-', '').replace('/', '')]. *)
Definition strip_separators (s : list char) : list char :=
  remove_char slash (remove_char dash s).

(** The function.  The first branch rebinds [date_str] to the string
    without separators, so that is what the bare [except] returns. *)
Definition format_date_for_tushare (date_str : value) : value :=
  match date_str with
  | Str s =>
      let s' := strip_separators s in
      if length s' =? 8 then Str s'
      else
        match to_datetime s' with
        | Some date_obj =>
            match strftime date_obj with
            | Some r => Str r
            | None => Str s'
            end
        | None => Str s'
        end
  | Obj o =>
      match strftime o with
      | Some r => Str r
      | None => Obj o
      end
  end.

Lemma remove_char_absent c s : c ∉ s -> remove_char c s = s.
Proof.
  induction s as [|x s IH]; intros Hc; [reflexivity|].
  apply not_elem_of_cons in Hc as [Hx Hs]. simpl.
  rewrite bool_decide_eq_false_2 by congruence. simpl. rewrite IH; auto.
Qed.

Lemma remove_char_gone c s : c ∉ remove_char c s.
Proof.
  induction s as [|x s IH]; [apply not_elem_of_nil|]. simpl.
  destruct (bool_decide (x = c)) eqn:E; simpl; [exact IH|].
  apply bool_decide_eq_false_1 in E. apply not_elem_of_cons. split; auto.
Qed.

Lemma remove_char_keeps_absent c d s : d ∉ s -> d ∉ remove_char c s.
Proof.
  induction s as [|x s IH]; intros Hd; [apply not_elem_of_nil|].
  apply not_elem_of_cons in Hd as [Hx Hs]. simpl.
  destruct (bool_decide (x = c)); simpl; [auto|].
  apply not_elem_of_cons. split; auto.
Qed.

Lemma strip_separators_clean s :
  (dash ∉ strip_separators s) /\ (slash ∉ strip_separators s).
Proof.
  split; [|apply remove_char_gone].
  apply remove_char_keeps_absent, remove_char_gone.
Qed.

Lemma strip_separators_fixed s :
  dash ∉ s -> slash ∉ s -> strip_separators s = s.
Proof.
  intros Hd Hs. unfold strip_separators.
  rewrite (remove_char_absent dash s Hd). apply remove_char_absent, Hs.
Qed.

Lemma strip_separators_idem s :
  strip_separators (strip_separators s) = strip_separators s.
Proof.
  destruct (strip_separators_clean s). apply strip_separators_fixed; auto.
Qed.

(** X15.  When [strftime('%Y%m%d')] yields eight characters without
    separators, formatting is idempotent on every argument, and for a
    string the result depends only on the string without its separators;
    a string of eight characters after stripping is returned as it is,
    whatever the characters are. *)
Theorem format_date_idempotent
    (Hfmt : forall o r, strftime o = Some r ->
              length r = 8 /\ (dash ∉ r) /\ (slash ∉ r)) :
  (forall v, format_date_for_tushare (format_date_for_tushare v)
             = format_date_for_tushare v) /\
  (forall s, format_date_for_tushare (Str s)
             = format_date_for_tushare (Str (strip_separators s))) /\
  (forall s, length (strip_separators s) = 8 ->
             format_date_for_tushare (Str s) = Str (strip_separators s)).
Proof.
  assert (Hout : forall r, length r = 8 -> dash ∉ r -> slash ∉ r ->
            format_date_for_tushare (Str r) = Str r).
  { intros r Hlen Hd Hs. unfold format_date_for_tushare.
    rewrite (strip_separators_fixed r Hd Hs), Hlen. reflexivity. }
  assert (Hstrip : forall s, format_date_for_tushare (Str s)
            = format_date_for_tushare (Str (strip_separators s))).
  { intros s. unfold format_date_for_tushare.
    rewrite strip_separators_idem. reflexivity. }
  split; [|split; [exact Hstrip|]].
  - intros v. remember (format_date_for_tushare v) as w eqn:Ew.
    destruct v as [s | o]; unfold format_date_for_tushare in Ew.
    + destruct (length (strip_separators s) =? 8) eqn:Elen.
      * subst w. rewrite Hstrip, strip_separators_idem.
        unfold format_date_for_tushare. rewrite strip_separators_idem, Elen.
        reflexivity.
      * destruct (to_datetime (strip_separators s)) as [d|] eqn:Ed.
        -- destruct (strftime d) as [r|] eqn:Er; subst w.
           ++ destruct (Hfmt d r Er) as (Hlen & Hd & Hs). apply Hout; auto.
           ++ unfold format_date_for_tushare.
              rewrite strip_separators_idem, Elen, Ed, Er. reflexivity.
        -- subst w. unfold format_date_for_tushare.
           rewrite strip_separators_idem, Elen, Ed. reflexivity.
    + destruct (strftime o) as [r|] eqn:Er; subst w.
      * destruct (Hfmt o r Er) as (Hlen & Hd & Hs). apply Hout; auto.
      * simpl. rewrite Er. reflexivity.
  - intros s Hlen. unfold format_date_for_tushare. rewrite Hlen. reflexivity.
Qed.

End WithPandas.

Arguments Str {char obj} s.
Arguments Obj {char obj} o.
Arguments format_date_for_tushare {char _} dash slash {obj}
  to_datetime strftime date_str.

(** The separators ['-'] and ['/'] as characters. *)
Definition hyphen : Ascii.ascii := Ascii.ascii_of_nat 45.
Definition solidus : Ascii.ascii := Ascii.ascii_of_nat 47.

(** A small stand-in for the date library: a date object is a triple of
    year, month and day; six digits parse as a date of this century. *)
Definition digit_of (n : nat) : Ascii.ascii := Ascii.ascii_of_nat (48 + n mod 10).

Definition two_digits (n : nat) : list Ascii.ascii :=
  [digit_of (n / 10); digit_of n].

Definition sample_strftime (d : nat * nat * nat) : option (list Ascii.ascii) :=
  let '(y, m, day) := d in
  if (10 <=? y / 100) && (y / 100 <? 100) then
    Some (two_digits (y / 100) ++ two_digits y ++ two_digits m
            ++ two_digits day)
  else None.

Definition value_of_digit (c : Ascii.ascii) : nat := Ascii.nat_of_ascii c - 48.

Definition sample_to_datetime (s : list Ascii.ascii) : option (nat * nat * nat) :=
  match s with
  | [a; b; c; d; e; f] =>
      Some (2000 + 10 * value_of_digit a + value_of_digit b,
            10 * value_of_digit c + value_of_digit d,
            10 * value_of_digit e + value_of_digit f)
  | _ => None
  end.

Lemma digit_of_not_separator n :
  digit_of n <> hyphen /\ digit_of n <> solidus.
Proof.
  unfold digit_of. pose proof (Nat.mod_upper_bound n 10 ltac:(lia)) as Hn.
  remember (n mod 10) as k eqn:Ek. clear Ek.
  do 10 (destruct k as [|k]; [split; intros E; vm_compute in E; discriminate|]).
  lia.
Qed.

Lemma sample_strftime_shape o r :
  sample_strftime o = Some r ->
  length r = 8 /\ (hyphen ∉ r) /\ (solidus ∉ r).
Proof.
  destruct o as [[y m] d]. unfold sample_strftime.
  destruct ((10 <=? y / 100) && (y / 100 <? 100)); [|discriminate].
  intros [= <-]. split; [reflexivity|].
  unfold two_digits. cbn [app].
  split; rewrite !not_elem_of_cons; repeat split;
    try apply not_elem_of_nil;
    intros E; symmetry in E; revert E; apply digit_of_not_separator.
Qed.

Lemma format_date_idempotent_witness :
  let f := format_date_for_tushare hyphen solidus
             sample_to_datetime sample_strftime in
  (forall o r, sample_strftime o = Some r ->
     length r = 8 /\ (hyphen ∉ r) /\ (solidus ∉ r)) /\
  f (Str (String.list_ascii_of_string "24-03-07"))
  = Str (String.list_ascii_of_string "20240307") /\
  f (f (Str (String.list_ascii_of_string "24-03-07")))
  = f (Str (String.list_ascii_of_string "24-03-07")).
Proof.
  intros f. split; [exact sample_strftime_shape|].
  split; [vm_compute; reflexivity|].
  exact (proj1 (format_date_idempotent Ascii.ascii hyphen solidus
                  (nat * nat * nat)%type sample_to_datetime sample_strftime
                  sample_strftime_shape)
               (Str (String.list_ascii_of_string "24-03-07"))).
Defined.

(** Eight characters after stripping are returned without any check that
    they form a date; a string that does not parse comes back without its
    separators. *)
Example format_date_unchecked :
  format_date_for_tushare hyphen solidus sample_to_datetime sample_strftime
    (Str (String.list_ascii_of_string "2024/13-45"))
  = Str (String.list_ascii_of_string "20241345") /\
  format_date_for_tushare hyphen solidus sample_to_datetime sample_strftime
    (Str (String.list_ascii_of_string "1-2"))
  = Str (String.list_ascii_of_string "12").
Proof. split; vm_compute; reflexivity. Qed.

End TushareDate.

(** ** What follows a squeeze ([analyze_squeeze_pattern], second loop) *)

Module SqueezeAnalysis.

Import Squeeze.

(** The three labels of [breakout_direction]: a rise of more than 2%, a
    fall of more than 2%, anything else. *)
Inductive direction : Type := Upward | Downward | Sideways.

Record analysis := {
  start_date : option Z;
  end_date : option Z;
  duration : Z;
  end_price : fval;
  future_price : fval;
  price_change_pct : fval;
  breakout_direction : direction
}.

(** [if price_change > 0.02: ... elif price_change < -0.02: ... else: ...] *)
Definition classify (price_change : fval) : direction :=
  if fgtb price_change (Fin (2 # 100)) then Upward
  else if fltb price_change (Fin (- (2 # 100))) then Downward
  else Sideways.

(** The body of the loop for one recorded episode; [None] when the guard
    [end_idx + 5 < len(self.data)] fails and nothing is appended. *)
Definition analyse_one (index : list Z) (close_prices : Series)
    (p : nat * nat) : option analysis :=
  let '(start_idx, end_idx) := p in
  if end_idx + 5 <? length index then
    let end_price := at_ close_prices end_idx in
    let future_price := at_ close_prices (end_idx + 5) in
    let price_change := fdiv (fsub future_price end_price) end_price in
    Some {| start_date := index !! start_idx;
            end_date := index !! end_idx;
            duration := Z.of_nat end_idx - Z.of_nat start_idx + 1;
            end_price := end_price;
            future_price := future_price;
            price_change_pct := fmul price_change (Fin 100);
            breakout_direction := classify price_change |}
  else None.

(** The list [squeeze_analysis] built from [squeeze_periods]. *)
Definition squeeze_analysis (index : list Z) (close_prices : Series)
    (squeeze_periods : list (nat * nat)) : list analysis :=
  omap (analyse_one index close_prices) squeeze_periods.







(** Two episodes are recorded, the second one too late to be analysed; the
    first one is followed by a rise of 10%. *)
Example squeeze_analysis_sample :
  let cond := [false; true; false; false; false; false; false; true; false] in
  let index := [1; 2; 3; 4; 5; 6; 7; 8; 9]%Z in
  let close := map Fin [10; 10; 10; 10; 10; 10; 11; 10; 10]%Q in
  periods_of cond = [(1, 1); (7, 7)] /\
  map breakout_direction (squeeze_analysis index close (periods_of cond))
  = [Upward].
Proof. split; vm_compute; reflexivity. Qed.

End SqueezeAnalysis.

(** ** MACD signals ([identify_macd_signals]) *)

Module MACDSignals.

Import MACD.

Record macd_signals := {
  golden_cross : list bool;
  death_cross : list bool;
  zero_cross_up : list bool;
  zero_cross_down : list bool;
  hist_turn_positive : list bool;
  hist_turn_negative : list bool;
  golden_count : nat;
  death_count : nat;
  zero_up_count : nat;
  zero_down_count : nat
}.

(** [(s > 0) & (s.shift(1) <= 0)]: both operands are over the index of
    [s], so [&] does not raise. *)
Definition turns_positive (s : Series) : list bool :=
  zip_with andb (map (fun x => fgtb x (Fin 0)) s)
                (map (fun x => fleb x (Fin 0)) (shift1 s)).

(** [(s < 0) & (s.shift(1) >= 0)]. *)
Definition turns_negative (s : Series) : list bool :=
  zip_with andb (map (fun x => fltb x (Fin 0)) s)
                (map (fun x => fgeb x (Fin 0)) (shift1 s)).

(** The signals from the three lines; [None] where
    [identify_cross_signals] raises.  The method also builds a
    [price_series] that it does not use. *)
Definition signals_of (macd_line signal_line histogram : Series)
  : option macd_signals :=
  match identify_cross_signals macd_line signal_line with
  | Some (golden_cross, death_cross) =>
      let zero_cross_up := turns_positive macd_line in
      let zero_cross_down := turns_negative macd_line in
      Some {| golden_cross := golden_cross;
              death_cross := death_cross;
              zero_cross_up := zero_cross_up;
              zero_cross_down := zero_cross_down;
              hist_turn_positive := turns_positive histogram;
              hist_turn_negative := turns_negative histogram;
              golden_count := count_signals golden_cross;
              death_count := count_signals death_cross;
              zero_up_count := count_signals zero_cross_up;
              zero_down_count := count_signals zero_cross_down |}
  | None => None
  end.

Section WithTALib.

Variable MACD_ : Series -> nat -> nat -> nat -> Series * Series * Series.

Definition identify_macd_signals (self : MACDIndicator) (h : store)
  : option macd_signals * MACDIndicator * store :=
  let '(self, h) := MACDPlot.ensure_macd MACD_ self h in
  match macd_data self !! "MACD", macd_data self !! "Signal",
        macd_data self !! "Histogram" with
  | Some macd_line, Some signal_line, Some histogram =>
      (signals_of macd_line signal_line histogram, self, h)
  | _, _, _ => (None, self, h)
  end.

End WithTALib.

(** A value that is a number or NaN. *)
Definition no_inf (x : fval) : Prop := x <> PInf /\ x <> NInf.

Lemma prev_no_inf s i : Forall no_inf s -> no_inf (prev s i).
Proof.
  intros Hs. destruct i as [|j]; simpl; [split; discriminate|].
  unfold at_. destruct (Nat.lt_ge_cases j (length s)) as [Hj|Hj].
  - rewrite List.Forall_forall in Hs. apply Hs, nth_In, Hj.
  - rewrite nth_overflow by exact Hj. split; discriminate.
Qed.

(** The sign of a difference decides the comparison. *)
Lemma sub_sign a b :
  no_inf a -> no_inf b ->
  fgtb (fsub a b) (Fin 0) = fgtb a b /\
  fleb (fsub a b) (Fin 0) = fleb a b /\
  fltb (fsub a b) (Fin 0) = fltb a b /\
  fgeb (fsub a b) (Fin 0) = fgeb a b.
Proof.
  intros [Ha1 Ha2] [Hb1 Hb2]. unfold fgtb, fgeb.
  destruct a as [| | |x], b as [| | |y]; try congruence;
    try (repeat split; reflexivity).
  simpl. repeat split; apply eq_true_iff_eq.
  - rewrite !Qltb_lt. split; intros H; lra.
  - rewrite !Qle_bool_iff. split; intros H; lra.
  - rewrite !Qltb_lt. split; intros H; lra.
  - rewrite !Qle_bool_iff. split; intros H; lra.
Qed.

Lemma nth_zip_with_lt {A B C} (f : A -> B -> C) l m i da db dc :
  i < length l -> i < length m ->
  nth i (zip_with f l m) dc = f (nth i l da) (nth i m db).
Proof.
  revert m i. induction l as [|a l IH]; intros [|b m] i Hl Hm;
    simpl in *; try lia.
  destruct i as [|i]; [reflexivity|]. apply IH; lia.
Qed.

Lemma nth_map_lt {A B} (f : A -> B) l i d d' :
  i < length l -> nth i (map f l) d' = f (nth i l d).
Proof.
  intros Hi. rewrite (nth_indep _ d' (f d)) by (rewrite length_map; exact Hi).
  apply map_nth.
Qed.

(** Position-wise form of the two turning tests. *)
Lemma nth_turns s i :
  i < length s ->
  nth i (turns_positive s) false
  = fgtb (at_ s i) (Fin 0) && fleb (prev s i) (Fin 0) /\
  nth i (turns_negative s) false
  = fltb (at_ s i) (Fin 0) && fgeb (prev s i) (Fin 0).
Proof.
  intros Hi. unfold turns_positive, turns_negative.
  rewrite !(nth_zip_with_lt andb _ _ i false false false)
    by (rewrite length_map, ?length_shift1; exact Hi).
  rewrite !(nth_map_lt _ _ i NaN) by (rewrite ?length_shift1; exact Hi).
  fold (at_ s i). fold (at_ (shift1 s) i). rewrite at_shift1 by exact Hi.
  split; reflexivity.
Qed.

Lemma length_turns s :
  length (turns_positive s) = length s /\
  length (turns_negative s) = length s.
Proof.
  unfold turns_positive, turns_negative.
  rewrite !length_zip_with, !length_map, length_shift1. lia.
Qed.

Lemma at_series_sub m s i :
  length m = length s -> i < length m ->
  at_ (series_sub m s) i = fsub (at_ m i) (at_ s i).
Proof.
  intros Hlen Hi. unfold series_sub, at_.
  apply nth_zip_with_lt; lia.
Qed.

Lemma prev_series_sub m s i :
  length m = length s -> i < length m ->
  prev (series_sub m s) i = fsub (prev m i) (prev s i).
Proof.
  intros Hlen Hi. destruct i as [|j]; [reflexivity|].
  simpl. apply at_series_sub; [exact Hlen|lia].
Qed.

(** When the histogram is the MACD line minus the signal line, its sign
    changes are the crossings of the two lines. *)
Lemma turns_of_difference m s :
  length m = length s -> Forall no_inf m -> Forall no_inf s ->
  identify_cross_signals m s
  = Some (turns_positive (series_sub m s), turns_negative (series_sub m s)).
Proof.
  intros Hlen Hm Hs.
  destruct (identify_cross_signals_pointwise m s Hlen)
    as (golden & death & -> & Lg & Ld & Hnth).
  assert (Lh : length (series_sub m s) = length m)
    by (unfold series_sub; rewrite length_zip_with; lia).
  destruct (length_turns (series_sub m s)) as [Lp Ln].
  f_equal. f_equal.
  - apply (nth_ext _ _ false false); [lia|]. intros i Hi.
    rewrite Lg in Hi. destruct (Hnth i Hi) as [-> _].
    destruct (nth_turns (series_sub m s) i) as [-> _]; [lia|].
    rewrite at_series_sub, prev_series_sub by assumption.
    assert (Ha : no_inf (at_ m i))
      by (rewrite List.Forall_forall in Hm; apply Hm, nth_In, Hi).
    assert (Hb : no_inf (at_ s i))
      by (rewrite List.Forall_forall in Hs; apply Hs, nth_In; lia).
    destruct (sub_sign _ _ Ha Hb) as (-> & _).
    destruct (sub_sign _ _ (prev_no_inf m i Hm) (prev_no_inf s i Hs))
      as (_ & -> & _). reflexivity.
  - apply (nth_ext _ _ false false); [lia|]. intros i Hi.
    rewrite Ld in Hi. destruct (Hnth i Hi) as [_ ->].
    destruct (nth_turns (series_sub m s) i) as [_ ->]; [lia|].
    rewrite at_series_sub, prev_series_sub by assumption.
    assert (Ha : no_inf (at_ m i))
      by (rewrite List.Forall_forall in Hm; apply Hm, nth_In, Hi).
    assert (Hb : no_inf (at_ s i))
      by (rewrite List.Forall_forall in Hs; apply Hs, nth_In; lia).
    destruct (sub_sign _ _ Ha Hb) as (_ & _ & -> & _).
    destruct (sub_sign _ _ (prev_no_inf m i Hm) (prev_no_inf s i Hs))
      as (_ & _ & _ & ->). reflexivity.
Qed.

(** X17.  In the result of [identify_macd_signals], when the histogram the
    object holds is its MACD line minus its signal line (two lines of one
    length, with numbers or NaN), the histogram signals carry nothing new:
    [hist_turn_positive] is [golden_cross] and [hist_turn_negative] is
    [death_cross], bar for bar. *)
Theorem histogram_turns_are_crosses
    (MACD_ : Series -> nat -> nat -> nat -> Series * Series * Series)
    (self : MACDIndicator) (h : store) :
  let '(res, self', h') := identify_macd_signals MACD_ self h in
  forall m s hist,
    macd_data self' !! "MACD" = Some m ->
    macd_data self' !! "Signal" = Some s ->
    macd_data self' !! "Histogram" = Some hist ->
    length m = length s -> hist = series_sub m s ->
    Forall no_inf m -> Forall no_inf s ->
    exists sig, res = Some sig /\
      hist_turn_positive sig = golden_cross sig /\
      hist_turn_negative sig = death_cross sig /\
      length (golden_cross sig) = length m /\
      golden_count sig = count_signals (hist_turn_positive sig) /\
      death_count sig = count_signals (hist_turn_negative sig).
Proof.
  unfold identify_macd_signals.
  destruct (MACDPlot.ensure_macd MACD_ self h) as [s1 h1].
  destruct (macd_data s1 !! "MACD") as [M|] eqn:EM;
    destruct (macd_data s1 !! "Signal") as [S|] eqn:ES;
    destruct (macd_data s1 !! "Histogram") as [H|] eqn:EH;
    intros m s hist Hm Hs Hh Hlen Hdiff Nm Ns;
    rewrite ?EM, ?ES, ?EH in *; try discriminate.
  injection Hm as <-. injection Hs as <-. injection Hh as <-.
  unfold signals_of. rewrite (turns_of_difference M S Hlen Nm Ns).
  eexists. split; [reflexivity|]. cbn. subst H.
  destruct (length_turns (series_sub M S)) as [Lp _].
  repeat split; try reflexivity.
  rewrite Lp. unfold series_sub. rewrite length_zip_with. lia.
Qed.

(** An object that already holds three lines, the histogram being the
    difference of the other two. *)
Definition sample_macd : Series := map Fin [1; 3; 2; 1; 4]%Q.
Definition sample_signal : Series := map Fin [2; 2; 2; 2; 2]%Q.

Definition sample_indicator : MACDIndicator :=
  {| data := 0; close := map Fin [10; 12; 11; 10; 13]%Q;
     macd_data :=
       <["Histogram" := series_sub sample_macd sample_signal]>
         (<["Signal" := sample_signal]> (<["MACD" := sample_macd]> ∅)) |}.

Lemma histogram_turns_are_crosses_witness :
  length sample_macd = length sample_signal /\
  Forall no_inf sample_macd /\ Forall no_inf sample_signal /\
  exists sig,
    signals_of sample_macd sample_signal
      (series_sub sample_macd sample_signal) = Some sig /\
    hist_turn_positive sig = golden_cross sig /\
    hist_turn_negative sig = death_cross sig.
Proof.
  assert (Hm : Forall no_inf sample_macd)
    by (repeat constructor; discriminate).
  assert (Hs : Forall no_inf sample_signal)
    by (repeat constructor; discriminate).
  split; [reflexivity|]. split; [exact Hm|]. split; [exact Hs|].
  pose proof (histogram_turns_are_crosses
                (fun _ _ _ _ => ([], [], [])) sample_indicator ∅) as H.
  unfold identify_macd_signals, MACDPlot.ensure_macd in H.
  destruct (decide (macd_data sample_indicator = ∅)) as [E|_].
  { exfalso. apply (f_equal (fun d => d !! "MACD")) in E. discriminate E. }
  change (macd_data sample_indicator !! "MACD") with (Some sample_macd) in H.
  change (macd_data sample_indicator !! "Signal")
    with (Some sample_signal) in H.
  change (macd_data sample_indicator !! "Histogram")
    with (Some (series_sub sample_macd sample_signal)) in H.
  destruct (H sample_macd sample_signal
              (series_sub sample_macd sample_signal)
              eq_refl eq_refl eq_refl eq_refl eq_refl Hm Hs)
    as (sig & Hres & Hp & Hn & _).
  exists sig. split; [exact Hres|]. split; assumption.
Defined.

Example sample_crosses :
  exists sig,
    signals_of sample_macd sample_signal
      (series_sub sample_macd sample_signal) = Some sig /\
    golden_cross sig = [false; true; false; false; true] /\
    hist_turn_positive sig = [false; true; false; false; true] /\
    death_cross sig = [false; false; false; true; false].
Proof. eexists. split; [reflexivity|]. repeat split; reflexivity. Qed.

End MACDSignals.

(** ** Returns after an overbought signal ([calculate_overbought_returns]) *)

Module Overbought.

Import KDJ.

Record signal_detail := {
  signal_date : option Z;
  entry_price : fval;
  exit_date : option Z;
  exit_price : fval;
  return_rate : fval;
  return_pct : fval
}.

Record overbought_returns := {
  signal_count : nat;
  avg_return : fval;
  avg_return_pct : fval;
  max_return : fval;
  min_return : fval;
  win_rate : fval;
  signal_details : list signal_detail
}.

(** [frame.tail(n)]: the last [n] rows. *)
Definition tail {A} (n : nat) (l : list A) : list A := drop (length l - n) l.

(** [(j_values > 100) & (j_values.shift(1) <= 100)]. *)
Definition overbought_signals (j_values : Series) : list bool :=
  zip_with andb (map (fun x => fgtb x (Fin 100)) j_values)
                (map (fun x => fleb x (Fin 100)) (shift1 j_values)).

(** [np.max] and [np.min] of a list that is not empty: NaN as soon as one
    entry is NaN. *)
Definition np_max (x : fval) (l : list fval) : fval :=
  fold_left (fun a y => if is_nan a || is_nan y then NaN
                        else if fltb a y then y else a) l x.

Definition np_min (x : fval) (l : list fval) : fval :=
  fold_left (fun a y => if is_nan a || is_nan y then NaN
                        else if fltb y a then y else a) l x.

Section Loop.

Variables (index : list Z) (close_prices : Series) (holding_days : nat).

Definition detail_at (i : nat) : signal_detail :=
  let entry_price := at_ close_prices i in
  let exit_price := at_ close_prices (i + holding_days) in
  let return_rate := fdiv (fsub exit_price entry_price) entry_price in
  {| signal_date := index !! i;
     entry_price := entry_price;
     exit_date := index !! (i + holding_days);
     exit_price := exit_price;
     return_rate := return_rate;
     return_pct := fmul return_rate (Fin 100) |}.

(** One iteration of the loop over [overbought_signals.items()]; the state
    is the pair of [returns_list] and [signal_details]. *)
Definition loop_step (acc : list fval * list signal_detail)
    (x : nat * bool) : list fval * list signal_detail :=
  let '(i, is_signal) := x in
  if is_signal && (i + holding_days <? length index) then
    (fst acc ++ [return_rate (detail_at i)], snd acc ++ [detail_at i])
  else acc.

Definition summary (returns_list : list fval)
    (details : list signal_detail) : overbought_returns :=
  match returns_list with
  | r :: rl =>
      let avg_return := mean returns_list in
      {| signal_count := length returns_list;
         avg_return := avg_return;
         avg_return_pct := fmul avg_return (Fin 100);
         max_return := np_max r rl;
         min_return := np_min r rl;
         win_rate :=
           fdiv (of_nat (length (List.filter (fun r0 => fgtb r0 (Fin 0))
                                             returns_list)))
                (of_nat (length returns_list));
         signal_details := details |}
  | [] =>
      {| signal_count := 0;
         avg_return := Fin 0;
         avg_return_pct := fmul (Fin 0) (Fin 100);
         max_return := Fin 0;
         min_return := Fin 0;
         win_rate := Fin 0;
         signal_details := details |}
  end.

(** The analysis of one window [analysis_data], given by its index and its
    columns [J] and [Close]. *)
Definition analyse_window (j_values : Series) : overbought_returns :=
  let '(returns_list, details) :=
    fold_left loop_step (enumerate_from 0 (overbought_signals j_values))
              ([], []) in
  summary returns_list details.

End Loop.

Section WithTALib.

Variable STOCH :
  Series -> Series -> Series -> nat -> nat -> nat -> Series * Series.

(** [if not self.kdj_data: self.calculate_kdj()]. *)
Definition ensure_kdj (self : KDJIndicator) (h : store)
  : KDJIndicator * store :=
  if decide (kdj_data self = ∅) then
    let '(_, self', h') := calculate_kdj STOCH None None None self h in
    (self', h')
  else (self, h).

(** The window [self.data.tail(days + holding_days).copy()] is local to
    the call; the method reads the frame and writes nothing of its own.
    [None]: a column is missing ([KeyError]). *)
Definition calculate_overbought_returns (days holding_days : nat)
    (self : KDJIndicator) (h : store)
  : option overbought_returns * KDJIndicator * store :=
  let '(self, h) := ensure_kdj self h in
  match h !! data self with
  | Some df =>
      let n := days + holding_days in
      match df_columns df !! "J", df_columns df !! "Close" with
      | Some j_column, Some close_column =>
          (Some (analyse_window (tail n (df_index df))
                   (tail n close_column) holding_days (tail n j_column)),
           self, h)
      | _, _ => (None, self, h)
      end
  | None => (None, self, h)
  end.

End WithTALib.

(** *** The signals as rising edges *)

Fixpoint edges_from (p : fval) (s : Series) : list bool :=
  match s with
  | [] => []
  | x :: s' => (fgtb x (Fin 100) && fleb p (Fin 100)) :: edges_from x s'
  end.

Lemma edges_tail p s :
  zip_with andb (map (fun x => fgtb x (Fin 100)) s)
                (map (fun x => fleb x (Fin 100)) (removelast (p :: s)))
  = edges_from p s.
Proof.
  revert p. induction s as [|y s IH]; intros p; [reflexivity|].
  change (removelast (p :: y :: s)) with (p :: removelast (y :: s)).
  cbn [map zip_with edges_from]. f_equal. apply IH.
Qed.

Lemma overbought_signals_edges s : overbought_signals s = edges_from NaN s.
Proof.
  destruct s as [|x s]; [reflexivity|].
  unfold overbought_signals, shift1. cbn [map zip_with edges_from].
  f_equal. apply edges_tail.
Qed.

Fixpoint no_adjacent (l : list bool) : Prop :=
  match l with
  | a :: tl =>
      match tl with
      | b :: _ => a && b = false
      | [] => True
      end /\ no_adjacent tl
  | [] => True
  end.

Lemma above_not_below x :
  fgtb x (Fin 100) = true -> fleb x (Fin 100) = false.
Proof.
  unfold fgtb. destruct x as [| | |q]; simpl; try discriminate;
    try reflexivity.
  intros H. apply Qltb_lt in H.
  destruct (Qle_bool q 100) eqn:E; [|reflexivity].
  apply Qle_bool_iff in E. lra.
Qed.

Lemma edges_no_adjacent s : forall p, no_adjacent (edges_from p s).
Proof.
  induction s as [|x s IH]; intros p; [exact I|].
  cbn [edges_from no_adjacent]. split; [|apply IH].
  destruct s as [|y s]; [exact I|]. cbn [edges_from].
  destruct (fgtb x (Fin 100)) eqn:E; [|reflexivity].
  rewrite (above_not_below x E). rewrite andb_false_r, andb_false_r.
  reflexivity.
Qed.

Lemma count_signals_cons b l :
  count_signals (b :: l) = (if b then 1 else 0) + count_signals l.
Proof. unfold count_signals. destruct b; reflexivity. Qed.

(** Among the first [m] entries of a list without two true entries in a
    row, at most every second one is true. *)
Lemma count_take_half l :
  no_adjacent l ->
  forall m,
    2 * count_signals (take m l) <= m + 1 /\
    (head l <> Some true -> 2 * count_signals (take m l) <= m).
Proof.
  induction l as [|b l IH]; intros Hl m.
  - rewrite take_nil. unfold count_signals. simpl. split; intros; lia.
  - destruct Hl as [Hb Hl]. specialize (IH Hl).
    destruct m as [|m]; [unfold count_signals; simpl; split; intros; lia|].
    cbn [take]. rewrite count_signals_cons.
    destruct (IH m) as [IH1 IH2]. destruct b.
    + assert (Hhead : head l <> Some true).
      { destruct l as [|c l]; [discriminate|]. simpl in Hb. subst c.
        discriminate. }
      specialize (IH2 Hhead). split; [lia|]. intros H. exfalso.
      apply H. reflexivity.
    + split; intros; lia.
Qed.

(** *** The loop *)

Definition booked (n holding_days : nat) (x : nat * bool) : bool :=
  snd x && (fst x + holding_days <? n).

Lemma loop_fold index close_prices holding_days flags :
  forall k acc,
    fold_left (loop_step index close_prices holding_days)
              (enumerate_from k flags) acc
    = (fst acc ++ map (fun i => return_rate
                                  (detail_at index close_prices holding_days i))
                      (map fst (List.filter (booked (length index) holding_days)
                                            (enumerate_from k flags))),
       snd acc ++ map (detail_at index close_prices holding_days)
                      (map fst (List.filter (booked (length index) holding_days)
                                            (enumerate_from k flags)))).
Proof.
  induction flags as [|b flags IH]; intros k [rl dl].
  - simpl. rewrite !app_nil_r. reflexivity.
  - cbn [enumerate_from fold_left List.filter]. rewrite IH.
    assert (E : booked (length index) holding_days (k, b)
                = b && (k + holding_days <? length index)) by reflexivity.
    rewrite E. unfold loop_step.
    destruct (b && (k + holding_days <? length index)).
    + cbn [fst snd map]. rewrite <- !app_assoc. reflexivity.
    + reflexivity.
Qed.

Lemma booked_count n holding_days flags :
  forall k,
    length (List.filter (booked n holding_days) (enumerate_from k flags))
    = count_signals (take (n - holding_days - k) flags).
Proof.
  induction flags as [|b flags IH]; intros k.
  - rewrite take_nil. reflexivity.
  - cbn [enumerate_from List.filter]. unfold booked at 1. cbn [fst snd].
    destruct (Nat.ltb_spec (k + holding_days) n) as [Hlt|Hge].
    + replace (n - holding_days - k) with (S (n - holding_days - S k))
        by lia.
      cbn [take]. rewrite count_signals_cons, <- IH.
      destruct b; reflexivity.
    + rewrite andb_false_r, IH.
      replace (n - holding_days - k) with 0 by lia.
      replace (n - holding_days - S k) with 0 by lia. reflexivity.
Qed.

Lemma length_tail {A} n (l : list A) : length (tail n l) <= n.
Proof. unfold tail. rewrite length_drop. lia. Qed.

Lemma summary_count rl dl : signal_count (summary rl dl) = length rl.
Proof. destruct rl; reflexivity. Qed.

Lemma summary_details rl dl : signal_details (summary rl dl) = dl.
Proof. destruct rl; reflexivity. Qed.

Lemma summary_win_rate rl dl :
  exists w, win_rate (summary rl dl) = Fin w /\ (0 <= w)%Q /\ (w <= 1)%Q.
Proof.
  destruct rl as [|r rl]; [exists 0%Q; simpl; split; [reflexivity|lra]|].
  unfold summary. cbn [win_rate].
  set (l := r :: rl).
  set (wins := length (List.filter (fun r0 => fgtb r0 (Fin 0)) l)).
  assert (Hw : wins <= length l)
    by (apply sublist_length, CleaningFacts.filter_sublist).
  assert (Hn : 0 < length l) by (simpl; lia).
  rewrite (StatisticsFacts.fdiv_of_nat _ _ Hn).
  eexists. split; [reflexivity|].
  pose proof (Bollinger.inject_nat_pos _ Hn) as Hpos.
  pose proof (StatisticsFacts.inject_nat_le _ _ Hw) as Hle.
  pose proof (StatisticsFacts.inject_nat_le 0 wins (Nat.le_0_l _)) as H0.
  change (inject_Z (Z.of_nat 0)) with 0%Q in H0.
  split.
  - apply Qle_shift_div_l; [exact Hpos|]. lra.
  - apply Qle_shift_div_r; [exact Hpos|]. lra.
Qed.

(** The window analysis: at most every second of the first
    [len - holding_days] rows is counted. *)
Lemma analyse_window_bounds index close_prices holding_days j_values :
  let r := analyse_window index close_prices holding_days j_values in
  2 * signal_count r <= length index - holding_days /\
  length (signal_details r) = signal_count r /\
  signal_count r
  = length (List.filter (booked (length index) holding_days)
              (enumerate_from 0 (overbought_signals j_values))) /\
  exists w, win_rate r = Fin w /\ (0 <= w)%Q /\ (w <= 1)%Q.
Proof.
  unfold analyse_window. rewrite loop_fold. cbn [fst snd app].
  rewrite summary_count, summary_details, !length_map.
  rewrite booked_count, Nat.sub_0_r, overbought_signals_edges.
  split; [|split; [reflexivity|split; [reflexivity|apply summary_win_rate]]].
  apply (count_take_half _ (edges_no_adjacent j_values NaN)).
  destruct j_values as [|x s]; [discriminate|]. cbn [edges_from head].
  rewrite andb_false_r. discriminate.
Qed.

(** X18.  [calculate_overbought_returns(days, holding_days)] counts at
    most [days / 2] signals: the window has [days + holding_days] rows, a
    signal in its last [holding_days] rows is skipped, its first row is
    never a signal (the bar before it is outside the window), and two
    signals are never on consecutive rows.  There is one detail entry per
    counted signal, and [win_rate] is a fraction between 0 and 1. *)
Theorem overbought_count_bound
    (STOCH : Series -> Series -> Series -> nat -> nat -> nat
             -> Series * Series)
    (days holding_days : nat) (self : KDJIndicator) (h : store) :
  let '(res, self', h') :=
    calculate_overbought_returns STOCH days holding_days self h in
  forall r, res = Some r ->
    2 * signal_count r <= days /\
    length (signal_details r) = signal_count r /\
    exists w, win_rate r = Fin w /\ (0 <= w)%Q /\ (w <= 1)%Q.
Proof.
  unfold calculate_overbought_returns.
  destruct (ensure_kdj STOCH self h) as [s1 h1].
  destruct (h1 !! data s1) as [df|]; [|intros r; discriminate].
  destruct (df_columns df !! "J") as [j|]; [|intros r; discriminate].
  destruct (df_columns df !! "Close") as [c|]; [|intros r; discriminate].
  intros r [= <-].
  destruct (analyse_window_bounds
              (tail (days + holding_days) (df_index df))
              (tail (days + holding_days) c) holding_days
              (tail (days + holding_days) j))
    as (Hcount & Hdet & _ & Hwin).
  pose proof (length_tail (days + holding_days) (df_index df)) as Hlen.
  split; [lia|]. split; [exact Hdet|exact Hwin].
Qed.

(** A frame of eight bars whose J column is already there; J rises above
    100 at the rows 2, 5 and 7. *)
Definition sample_frame : DataFrame :=
  mkDF [1; 2; 3; 4; 5; 6; 7; 8]%Z
       (<["J" := map Fin [110; 90; 105; 120; 95; 101; 80; 130]%Q]>
          (<["Close" := map Fin [10; 11; 10; 12; 9; 10; 11; 12]%Q]> ∅)).

Definition sample_indicator : KDJIndicator :=
  {| data := 0; high := []; low := []; close := [];
     kdj_data := <["J" := map Fin [110; 90; 105; 120; 95; 101; 80; 130]%Q]> ∅ |}.

Lemma overbought_count_bound_witness :
  exists r,
    fst (fst (calculate_overbought_returns (fun _ _ _ _ _ _ => ([], []))
                5 1 sample_indicator {[ 0 := sample_frame ]})) = Some r /\
    2 * signal_count r <= 5.
Proof.
  pose proof (overbought_count_bound (fun _ _ _ _ _ _ => ([], []))
                5 1 sample_indicator {[ 0 := sample_frame ]}) as H.
  destruct (calculate_overbought_returns (fun _ _ _ _ _ _ => ([], []))
              5 1 sample_indicator {[ 0 := sample_frame ]})
    as [[res s'] h'] eqn:E.
  assert (Hres : exists r, res = Some r).
  { vm_compute in E. injection E as <- _ _. eexists. reflexivity. }
  destruct Hres as [r Hr]. exists r. split; [exact Hr|].
  exact (proj1 (H r Hr)).
Defined.

(** With the whole frame as the window, the rise at the first row of the
    window is not a signal, and the one at the last row has no exit bar. *)
Example overbought_sample :
  map signal_date
    (signal_details
       (analyse_window (df_index sample_frame)
          (map Fin [10; 11; 10; 12; 9; 10; 11; 12]%Q) 1
          (map Fin [110; 90; 105; 120; 95; 101; 80; 130]%Q)))
  = [Some 3; Some 6]%Z.
Proof. vm_compute. reflexivity. Qed.

End Overbought.

(** ** The trend read off the moving averages
    ([get_ma_trend_analysis], [_summarize_indicators]) *)

Module MATrend.

Import MA.

(** The three labels: bullish alignment, bearish alignment, ranging. *)
Inductive trend : Type := Bullish | Bearish | Ranging.

Record ma_info := {
  value : fval;
  above_ma : bool;
  difference_pct : fval
}.

Record trend_analysis := {
  price_vs_ma : gmap string ma_info;
  current_price : fval;
  overall_trend : trend
}.

Record ma_summary := {
  above_ma_ratio : fval;
  trend_status : trend
}.

(** [series.iloc[-1]] raises on an empty series; both functions take it of
    every moving average. *)
Definition all_nonempty (ma_data : gmap string Series) : bool :=
  bool_decide (map_Forall (fun (_ : string) (s : Series) => 0 < length s)
                          ma_data).

(** The entry of [price_vs_ma] for one moving average; none when its
    latest value is NaN. *)
Definition info_of (current_price : fval) (ma_series : Series)
  : option ma_info :=
  match last ma_series with
  | Some latest_ma =>
      if is_nan latest_ma then None
      else Some {| value := latest_ma;
                   above_ma := fgtb current_price latest_ma;
                   difference_pct :=
                     fmul (fdiv (fsub current_price latest_ma) latest_ma)
                          (Fin 100) |}
  | None => None
  end.

Definition is_above (kv : string * ma_info) : Prop := above_ma (snd kv) = true.

(** [get_ma_trend_analysis] over the dict of moving averages and the close
    column of the frame. *)
Definition trend_analysis_of (ma_data : gmap string Series)
    (close_column : Series) : option trend_analysis :=
  match last close_column with
  | Some current_price =>
      if all_nonempty ma_data then
        let price_vs_ma := omap (info_of current_price) ma_data in
        let above_count := size (filter is_above price_vs_ma) in
        let total_count := size price_vs_ma in
        Some {| price_vs_ma := price_vs_ma;
                current_price := current_price;
                overall_trend :=
                  if fgeb (of_nat above_count)
                          (fmul (of_nat total_count) (Fin (7 # 10)))
                  then Bullish
                  else if fleb (of_nat above_count)
                               (fmul (of_nat total_count) (Fin (3 # 10)))
                  then Bearish
                  else Ranging |}
      else None
  | None => None
  end.

Section WithTALib.

Variables SMA EMA : Series -> nat -> Series.

(** [if not self.ma_data: self.calculate_all_ma()]. *)
Definition ensure_ma (self : MovingAverageSystem) (h : store)
  : MovingAverageSystem * store :=
  if decide (ma_data self = ∅) then
    let '(_, self', h') := calculate_all_ma SMA EMA self h in (self', h')
  else (self, h).

Definition get_ma_trend_analysis (self : MovingAverageSystem) (h : store)
  : option trend_analysis * MovingAverageSystem * store :=
  let '(self, h) := ensure_ma self h in
  match values_of (data self) "Close" h with
  | Some close_column =>
      (trend_analysis_of (ma_data self) close_column, self, h)
  | None => (None, self, h)
  end.

End WithTALib.

(** One iteration of the loop of [_summarize_indicators] over
    [ma_data.items()]; the state is the pair of counters. *)
Definition count_step (current_price : fval) (ma_name : string)
    (ma_series : Series) (acc : nat * nat) : nat * nat :=
  let '(above_ma_count, total_ma_count) := acc in
  match last ma_series with
  | Some latest =>
      if is_nan latest then acc
      else (if fgtb current_price latest then S above_ma_count
            else above_ma_count,
            S total_ma_count)
  | None => acc
  end.

(** The block of [_summarize_indicators] that fills
    [summary['moving_averages']], taken when ['ma_data'] is among the
    indicators. *)
Definition summarize_moving_averages (ma_data : gmap string Series)
    (close_column : Series) : option ma_summary :=
  match last close_column with
  | Some current_price =>
      if all_nonempty ma_data then
        let '(above_ma_count, total_ma_count) :=
          map_fold (count_step current_price) (0, 0) ma_data in
        let ratio :=
          fdiv (of_nat above_ma_count) (of_nat (Nat.max 1 total_ma_count)) in
        Some {| above_ma_ratio := ratio;
                trend_status :=
                  if fgtb ratio (Fin (6 # 10)) then Bullish else Bearish |}
      else None
  | None => None
  end.

Lemma count_step_info current_price ma_name ma_series above total :
  count_step current_price ma_name ma_series (above, total)
  = match info_of current_price ma_series with
    | Some y => (if above_ma y then S above else above, S total)
    | None => (above, total)
    end.
Proof.
  unfold count_step, info_of. destruct (last ma_series) as [latest|];
    [|reflexivity].
  destruct (is_nan latest); reflexivity.
Qed.

(** The two counters of the summary are the sizes the trend analysis
    computes. *)
Lemma counters_are_sizes current_price (ma_data : gmap string Series) :
  map_fold (count_step current_price) (0, 0) ma_data
  = (size (filter is_above (omap (info_of current_price) ma_data)),
     size (omap (info_of current_price) ma_data)).
Proof.
  apply (map_fold_weak_ind
           (fun r m => r = (size (filter is_above
                                    (omap (info_of current_price) m)),
                            size (omap (info_of current_price) m)))).
  - rewrite omap_empty, map_filter_empty, !map_size_empty. reflexivity.
  - intros i x m r Hi ->.
    assert (Ho : omap (info_of current_price) m !! i = None)
      by (rewrite lookup_omap, Hi; reflexivity).
    rewrite count_step_info, omap_insert.
    destruct (info_of current_price x) as [y|];
      [|rewrite delete_id by exact Ho; reflexivity].
    rewrite (map_size_insert_None _ _ _ Ho).
    destruct (above_ma y) eqn:E.
    + rewrite map_filter_insert_True by exact E.
      rewrite map_size_insert_None
        by (apply map_lookup_filter_None_2; left; exact Ho).
      reflexivity.
    + rewrite map_filter_insert_not'.
      * reflexivity.
      * unfold is_above. simpl. rewrite E. discriminate.
      * intros z Hz. rewrite Ho in Hz. discriminate.
Qed.

Lemma no_entry_iff current_price (ma_data : gmap string Series) :
  all_nonempty ma_data = true ->
  (size (omap (info_of current_price) ma_data) = 0 <->
   forall k s, ma_data !! k = Some s -> last s = Some NaN).
Proof.
  intros Hne. apply bool_decide_eq_true_1 in Hne.
  rewrite map_size_empty_iff. split.
  - intros He k s Hk.
    assert (Hk' : omap (info_of current_price) ma_data !! k = None)
      by (rewrite He; apply lookup_empty).
    rewrite lookup_omap, Hk in Hk'. simpl in Hk'. unfold info_of in Hk'.
    specialize (Hne k s Hk). simpl in Hne.
    destruct (last s) as [x|] eqn:El.
    + destruct x; simpl in Hk'; try discriminate. reflexivity.
    + destruct s; [simpl in Hne; lia|].
      apply last_None in El. discriminate.
  - intros Hall. apply map_eq. intros k. rewrite lookup_omap, lookup_empty.
    destruct (ma_data !! k) as [s|] eqn:Hk; [|reflexivity].
    simpl. unfold info_of. rewrite (Hall k s Hk). reflexivity.
Qed.

Lemma ratio_thresholds (above total : nat) :
  above <= total ->
  let overall :=
    if fgeb (of_nat above) (fmul (of_nat total) (Fin (7 # 10))) then Bullish
    else if fleb (of_nat above) (fmul (of_nat total) (Fin (3 # 10)))
    then Bearish else Ranging in
  let status :=
    if fgtb (fdiv (of_nat above) (of_nat (Nat.max 1 total))) (Fin (6 # 10))
    then Bullish else Bearish in
  (total = 0 -> overall = Bullish /\ status = Bearish) /\
  (0 < total -> overall = Bullish -> status = Bullish) /\
  (overall = Bearish -> status = Bearish).
Proof.
  intros Hle overall status.
  destruct total as [|t].
  - assert (above = 0) by lia. subst above.
    split; [intros _; split; reflexivity|]. split; [lia|].
    intros H. discriminate H.
  - set (total := S t) in *. assert (Ht : 0 < total) by (unfold total; lia).
    assert (Hmax : Nat.max 1 total = total) by lia.
    unfold status. rewrite Hmax, (StatisticsFacts.fdiv_of_nat _ _ Ht).
    pose proof (Bollinger.inject_nat_pos _ Ht) as Hpos.
    set (A := inject_Z (Z.of_nat above)) in *.
    set (T := inject_Z (Z.of_nat total)) in *.
    unfold fgtb. cbn [fltb].
    split; [lia|]. unfold overall, fgeb, of_nat. cbn [fmul fleb].
    fold A. fold T. split.
    + intros _.
      destruct (Qle_bool (T * (7 # 10)) A) eqn:E1.
      * intros _. apply Qle_bool_iff in E1.
        assert (Hlt : ((6 # 10) < A / T)%Q).
        { apply Qlt_shift_div_l; [exact Hpos|]. lra. }
        apply Qltb_lt in Hlt. rewrite Hlt. reflexivity.
      * destruct (Qle_bool A (T * (3 # 10))); discriminate.
    + destruct (Qle_bool (T * (7 # 10)) A) eqn:E1; [discriminate|].
      destruct (Qle_bool A (T * (3 # 10))) eqn:E2; [|discriminate].
      intros _. apply Qle_bool_iff in E2.
      assert (Hle' : (A / T <= 3 # 10)%Q).
      { apply Qle_shift_div_r; [exact Hpos|]. lra. }
      destruct (Qltb (6 # 10) (A / T)) eqn:E3; [|reflexivity].
      apply Qltb_lt in E3. lra.
Qed.

(** X19.  Over one dict of moving averages and one close column, the two
    reports count the same averages (those with a value at the last bar,
    and among them those below the price).  When no average has a value at
    the last bar, [get_ma_trend_analysis] reports a bullish alignment and
    [_summarize_indicators] a bearish one; otherwise a bullish trend
    analysis comes with a bullish summary, and a bearish one with a bearish
    summary. *)
Theorem ma_trend_reports (ma_data : gmap string Series)
    (close_column : Series) (price : fval)
    (Hprice : last close_column = Some price)
    (Hne : all_nonempty ma_data = true) :
  exists ta sm,
    trend_analysis_of ma_data close_column = Some ta /\
    summarize_moving_averages ma_data close_column = Some sm /\
    let total := size (price_vs_ma ta) in
    let above := size (filter is_above (price_vs_ma ta)) in
    above <= total /\
    above_ma_ratio sm = fdiv (of_nat above) (of_nat (Nat.max 1 total)) /\
    (total = 0 <-> forall k s, ma_data !! k = Some s -> last s = Some NaN) /\
    (total = 0 -> overall_trend ta = Bullish /\ trend_status sm = Bearish) /\
    (0 < total -> overall_trend ta = Bullish -> trend_status sm = Bullish) /\
    (overall_trend ta = Bearish -> trend_status sm = Bearish).
Proof.
  unfold trend_analysis_of, summarize_moving_averages.
  rewrite Hprice, Hne, counters_are_sizes.
  eexists. eexists. split; [reflexivity|]. split; [reflexivity|].
  cbn [price_vs_ma overall_trend above_ma_ratio trend_status].
  split; [apply map_size_filter|]. split; [reflexivity|].
  split; [apply no_entry_iff, Hne|].
  apply ratio_thresholds, map_size_filter.
Qed.

(** Three bars are too few for either average: both end in NaN. *)
Definition sample_ma_data : gmap string Series :=
  <["SMA_20" := [NaN; NaN; NaN]]> (<["SMA_60" := [NaN; NaN; NaN]]> ∅).

Lemma ma_trend_reports_witness :
  last (map Fin [10; 11; 12]%Q) = Some (Fin 12) /\
  all_nonempty sample_ma_data = true /\
  exists ta sm,
    trend_analysis_of sample_ma_data (map Fin [10; 11; 12]%Q) = Some ta /\
    summarize_moving_averages sample_ma_data (map Fin [10; 11; 12]%Q)
    = Some sm /\
    overall_trend ta = Bullish /\ trend_status sm = Bearish.
Proof.
  assert (Hne : all_nonempty sample_ma_data = true)
    by (vm_compute; reflexivity).
  split; [reflexivity|]. split; [exact Hne|].
  destruct (ma_trend_reports sample_ma_data (map Fin [10; 11; 12]%Q)
              (Fin 12) eq_refl Hne)
    as (ta & sm & Hta & Hsm & _ & _ & Hzero & Hdis & _).
  exists ta, sm. split; [exact Hta|]. split; [exact Hsm|].
  apply Hdis, Hzero. intros k s Hk. unfold sample_ma_data in Hk.
  apply lookup_insert_Some in Hk as [[_ <-]|[_ Hk]]; [reflexivity|].
  apply lookup_insert_Some in Hk as [[_ <-]|[_ Hk]]; [reflexivity|].
  rewrite lookup_empty in Hk. discriminate.
Defined.

End MATrend.
